(** * PAMS alert decision pipeline: a shallow embedding and its properties

    The development follows [backend/ml/decision_engine.py] and the risk
    calculator of [backend/ml/classification.py]:

    - Python values are a small universe [pyval]; an alert is a [dict]
      (a finite map from field names to values), exactly the "bag of fields"
      the code passes around;
    - Python [float]s are IEEE-754 binary64 numbers (Rocq's primitive
      floats), so every rounding of the source is the rounding of the model;
    - exceptions are results [Ok]/[Raise]; code that reads the wall clock
      ([datetime.utcnow()]) runs in a state monad that hands out the
      successive readings of a clock. *)

From Stdlib Require Import ZArith QArith Floats Ascii String List Lia Permutation Sorted.
From stdpp Require Import base option gmap strings list fin_maps.

Set Warnings "-inexact-float,-register-all".
Local Open Scope string_scope.
Local Open Scope Z_scope.

(** ** Python values *)

Inductive pyval : Type :=
| VNone
| VBool (b : bool)
| VInt (z : Z)
| VFloat (f : float)
| VStr (s : string)
| VDatetime (t : Z)                     (* naive datetime, in microseconds *)
| VList (l : list pyval)
| VDict (d : list (string * pyval)).    (* a nested dict, keys in insertion order *)

Abbreviation dict := (gmap string pyval).

(** ** Exceptions *)

Inductive exn : Type :=
| AttributeError | KeyError | OverflowError | TypeError | ValueError
| ZeroDivisionError.

Inductive result (A : Type) : Type :=
| Ok (a : A)
| Raise (e : exn).
Arguments Ok {A} a.
Arguments Raise {A} e.

#[global] Instance result_ret : MRet result := fun A a => Ok a.
#[global] Instance result_bind : MBind result :=
  fun A B f r => match r with Ok a => f a | Raise e => Raise e end.

Definition is_ok {A} (r : result A) : bool :=
  match r with Ok _ => true | Raise _ => false end.

(** ** Numbers

    Exact values of Python numbers, used where Python compares numbers of
    mixed types ([int] against [float]) or rounds to decimals. *)

Inductive xreal : Type := NegInf | Fin (q : Q) | PosInf.

Definition dyadic (m e : Z) : Q :=
  match e with
  | Zneg p => Qmake m (2 ^ p)%positive
  | _ => Qmake (m * 2 ^ e) 1
  end.

Definition float_val (f : float) : option xreal :=
  match Prim2SF f with
  | S754_nan => None
  | S754_zero _ => Some (Fin 0)
  | S754_infinity s => Some (if s then NegInf else PosInf)
  | S754_finite s m e => Some (Fin (dyadic (cond_Zopp s (Zpos m)) e))
  end.

Definition xreal_compare (x y : xreal) : comparison :=
  match x, y with
  | NegInf, NegInf => Eq
  | NegInf, _ => Lt
  | _, NegInf => Gt
  | PosInf, PosInf => Eq
  | PosInf, _ => Gt
  | _, PosInf => Lt
  | Fin p, Fin q => Qcompare p q
  end.

(** The value of a Python number; [None] for NaN and for what is no number.
    [bool] is a subclass of [int]. *)
Definition num_val (v : pyval) : option xreal :=
  match v with
  | VBool b => Some (Fin (if b then 1 else 0)%Q)
  | VInt z => Some (Fin (inject_Z z))
  | VFloat f => float_val f
  | _ => None
  end.

Definition is_number (v : pyval) : bool :=
  match v with VBool _ | VInt _ | VFloat _ => true | _ => false end.

(** [float(z)] for an [int]: the nearest double, ties to even;
    [OverflowError] when it is out of range. *)
Definition int_to_float (z : Z) : result float :=
  match binary_normalize prec emax z 0 false with
  | S754_infinity _ => Raise OverflowError
  | sf => Ok (SF2Prim sf)
  end.

Definition to_float (v : pyval) : result float :=
  match v with
  | VFloat f => Ok f
  | VInt z => int_to_float z
  | VBool b => Ok (if b then 1 else 0)%float
  | _ => Raise TypeError
  end.

(** [v * c], [v + c] and [v / c] for a float [c]. *)
Definition py_mul_f (v : pyval) (c : float) : result float :=
  f ← to_float v; Ok (f * c)%float.

Definition py_add_f (v : pyval) (c : float) : result float :=
  f ← to_float v; Ok (f + c)%float.

Definition py_div_f (v : pyval) (c : float) : result float :=
  f ← to_float v;
  if (c =? 0)%float then Raise ZeroDivisionError else Ok (f / c)%float.

(** True division of integers, correctly rounded: the quotient of two
    integers taken as exact (unnormalised) binary numbers. *)
Definition exact_int (z : Z) : spec_float :=
  match z with
  | Z0 => S754_zero false
  | Zpos p => S754_finite false p 0
  | Zneg p => S754_finite true p 0
  end.

Definition int_truediv (a b : Z) : float :=
  SF2Prim (SFdiv prec emax (exact_int a) (exact_int b)).

(** [round(x, ndigits)] for [0 <= ndigits]: the decimal with [ndigits]
    places nearest to the exact value of [x] (ties to even), then the
    double nearest to that decimal. *)
Definition round_half_even (n : Z) (e : Z) : Z :=
  match e with
  | Zneg p =>
      let d := Z.pow_pos 2 p in
      let q := n / d in
      match (2 * (n mod d) ?= d) with
      | Lt => q
      | Gt => q + 1
      | Eq => if Z.even q then q else q + 1
      end
  | _ => n * 2 ^ e
  end.

Definition py_round (x : float) (ndigits : Z) : float :=
  match Prim2SF x with
  | S754_finite s m e =>
      let p := 10 ^ ndigits in
      let k := round_half_even (Zpos m * p) e in
      if k =? 0 then (if s then (-0)%float else 0%float)
      else int_truediv (cond_Zopp s k) p
  | _ => x
  end.

(** ** Truth value, equality and order of Python values *)

Definition truthy (v : pyval) : bool :=
  match v with
  | VNone => false
  | VBool b => b
  | VInt z => negb (z =? 0)
  | VFloat f => negb (f =? 0)%float
  | VStr s => negb (String.eqb s "")
  | VDatetime _ => true
  | VList l => match l with [] => false | _ => true end
  | VDict d => match d with [] => false | _ => true end
  end.

Fixpoint alist_get {A} (k : string) (d : list (string * A)) : option A :=
  match d with
  | [] => None
  | (k', v) :: d' => if String.eqb k k' then Some v else alist_get k d'
  end.

(** [a == b]. Numbers are compared by value across [bool], [int] and
    [float] (NaN equals nothing); containers element by element (CPython
    first tests the elements for identity, which the model has not: the two
    differ only on containers that hold a NaN). *)
Fixpoint py_eq (a b : pyval) : bool :=
  match a, b with
  | VNone, VNone => true
  | VStr s, VStr t => String.eqb s t
  | VDatetime s, VDatetime t => s =? t
  | VList l, VList m =>
      (fix go (l m : list pyval) : bool :=
         match l, m with
         | [], [] => true
         | x :: l', y :: m' => py_eq x y && go l' m'
         | _, _ => false
         end) l m
  | VDict d, VDict e =>
      (length d =? length e)%nat &&
      (fix go (d : list (string * pyval)) : bool :=
         match d with
         | [] => true
         | (k, v) :: d' =>
             match alist_get k e with
             | Some w => py_eq v w && go d'
             | None => false
             end
         end) d
  | _, _ =>
      match num_val a, num_val b with
      | Some x, Some y =>
          match xreal_compare x y with Eq => true | _ => false end
      | _, _ => false
      end
  end.

(** [a < b]: numbers by value, strings and lists lexicographically,
    datetimes by time; [TypeError] for operands that have no order. *)
Fixpoint py_lt (a b : pyval) : result bool :=
  match a, b with
  | VStr s, VStr t => Ok (String.ltb s t)
  | VDatetime s, VDatetime t => Ok (s <? t)
  | VList l, VList m =>
      (fix go (l m : list pyval) : result bool :=
         match l, m with
         | x :: l', y :: m' => if py_eq x y then go l' m' else py_lt x y
         | [], _ :: _ => Ok true
         | _, [] => Ok false
         end) l m
  | _, _ =>
      if is_number a && is_number b then
        match num_val a, num_val b with
        | Some x, Some y =>
            Ok match xreal_compare x y with Lt => true | _ => false end
        | _, _ => Ok false
        end
      else Raise TypeError
  end.

(** [a > b] is [b < a] for the builtin types. *)
Definition py_gt (a b : pyval) : result bool := py_lt b a.

(** [max(a, b)] on floats: the first argument unless the second is greater. *)
Definition py_max (a b : float) : float := if (a <? b)%float then b else a.

(** [str.lower()] on the ASCII letters. The only other character whose
    lower case is an ASCII letter is the Kelvin sign (to [k]), and no
    severity name has a [k]. *)
Definition lower_ascii (c : ascii) : ascii :=
  let n := N_of_ascii c in
  if ((65 <=? n) && (n <=? 90))%N then ascii_of_N (n + 32) else c.

Fixpoint lower (s : string) : string :=
  match s with
  | EmptyString => EmptyString
  | String c s' => String (lower_ascii c) (lower s')
  end.

Definition str_lower (v : pyval) : result string :=
  match v with
  | VStr s => Ok (lower s)
  | _ => Raise AttributeError
  end.

(** ** Dictionaries *)

(** [d.get(k)] *)
Definition dict_get (d : dict) (k : string) : pyval := default VNone (d !! k).

(** [d[k]] *)
Definition getitem (d : dict) (k : string) : result pyval :=
  match d !! k with
  | Some v => Ok v
  | None => Raise KeyError
  end.

(** [m.get(k, d)] for a dict [m] whose keys are strings: lists and dicts
    cannot be hashed. *)
Definition lookup_val {A} (m : gmap string A) (k : pyval) (d : A) : result A :=
  match k with
  | VStr s => Ok (default d (m !! s))
  | VList _ | VDict _ => Raise TypeError
  | _ => Ok d
  end.

Definition dict_truthy (d : dict) : bool := negb (Nat.eqb (size d) 0).

Definition of_option (o : option string) : pyval :=
  match o with
  | Some s => VStr s
  | None => VNone
  end.

(** ** Sorting

    Modelled from the documentation of Python's builtin [list.sort(key=...,
    reverse=...)]: the keys are computed once, the sort is stable and uses
    only [<] on the keys, and [reverse] sorts as if every comparison were
    reversed while keeping the stability, which CPython does by reversing
    the list before and after sorting. Any stable sort yields this list when
    [<] is a strict weak order on the keys. *)

Section Sort.
Context {A : Type}.

Fixpoint insert_by (x : pyval * A) (l : list (pyval * A))
  : result (list (pyval * A)) :=
  match l with
  | [] => Ok [x]
  | y :: r =>
      lt ← py_lt (fst x) (fst y);
      if lt : bool then Ok (x :: y :: r)
      else r' ← insert_by x r; Ok (y :: r')
  end.

Fixpoint sort_from (acc l : list (pyval * A)) : result (list (pyval * A)) :=
  match l with
  | [] => Ok acc
  | x :: r => acc' ← insert_by x acc; sort_from acc' r
  end.

Definition list_sort (key : A → pyval) (reverse : bool) (l : list A)
  : result (list A) :=
  let keyed := map (fun x => (key x, x)) l in
  sorted ← sort_from [] (if reverse then rev keyed else keyed);
  Ok (map snd (if reverse then rev sorted else sorted)).
End Sort.

(** ** The wall clock

    [Clk A] is a computation that may read the clock: it takes the number of
    readings made so far and returns its result with the new count. The
    [n]-th call of [datetime.utcnow()] returns [clock n]. *)

Definition Clk (A : Type) : Type := nat → result A * nat.

#[global] Instance Clk_ret : MRet Clk := fun A a n => (Ok a, n).
#[global] Instance Clk_bind : MBind Clk :=
  fun A B f m n =>
    match m n with
    | (Ok a, n') => f a n'
    | (Raise e, n') => (Raise e, n')
    end.

Definition lift {A} (r : result A) : Clk A := fun n => (r, n).

(** [try: m except Exception as e: h e] *)
Definition try_except {A} (m : Clk A) (h : exn → Clk A) : Clk A :=
  fun n =>
    match m n with
    | (Ok a, n') => (Ok a, n')
    | (Raise e, n') => h e n'
    end.

(** ** Datetimes

    A naive [datetime] is its distance from [datetime.min] in microseconds;
    [datetime.max] is the last microsecond of the year 9999. *)

Definition MAXDT : Z := 3652059 * 86400 * 1000000 - 1.

Definition hour_us : Z := 3600 * 1000000.

(** [v + timedelta(hours=h)] *)
Definition add_hours (v : pyval) (h : Z) : result Z :=
  match v with
  | VDatetime t =>
      let t' := t + h * hour_us in
      if (0 <=? t') && (t' <=? MAXDT) then Ok t' else Raise OverflowError
  | _ => Raise TypeError
  end.

(** [timedelta.total_seconds()] of a difference of [us] microseconds. *)
Definition total_seconds (us : Z) : float := int_truediv us 1000000.

(** [(a - b).total_seconds()]: two datetimes give a timedelta; the
    difference of two numbers has no [total_seconds]; nothing else can be
    subtracted. *)
Definition sub_total_seconds (a b : pyval) : result float :=
  match a, b with
  | VDatetime s, VDatetime t => Ok (total_seconds (s - t))
  | _, _ =>
      if is_number a && is_number b then Raise AttributeError
      else Raise TypeError
  end.

(** ** [RiskScoreCalculator] (classification.py) *)

Definition severity_weights : gmap string float :=
  list_to_map
    [("critical", 1.0%float); ("high", 0.75%float); ("medium", 0.5%float);
     ("low", 0.25%float)].

(** [severity_weights.get(severity.lower(), 0.5)] *)
Definition severity_score_of (severity : pyval) : result float :=
  s ← str_lower severity;
  Ok (default 0.5%float (severity_weights !! s)).

(** The composite score formula, before it is rounded for the report. *)
Definition composite_formula (severity_score : float)
    (likelihood impact confidence : pyval) (time_sensitivity : float)
  : result float :=
  l ← py_mul_f likelihood 0.25;
  i ← py_mul_f impact 0.25;
  c ← py_mul_f confidence 0.2;
  Ok ((severity_score * 0.3 + l + i + c) * time_sensitivity)%float.

(** The priority and its label for a composite score. *)
Definition priority_tier (composite_score : float) : string * string :=
  if (0.8 <=? composite_score)%float then
    ("p1", "Critical - Immediate Action")
  else if (0.6 <=? composite_score)%float then
    ("p2", "High - Action Required")
  else if (0.4 <=? composite_score)%float then
    ("p3", "Medium - Monitor Closely")
  else
    ("p4", "Low - Routine Review").

Definition calculate_composite_risk
    (severity likelihood impact confidence : pyval) (time_sensitivity : float)
  : result dict :=
  severity_score ← severity_score_of severity;
  composite_score ←
    composite_formula severity_score likelihood impact confidence
      time_sensitivity;
  let '(priority, priority_label) := priority_tier composite_score in
  Ok (list_to_map
        [("composite_score", VFloat (py_round composite_score 3));
         ("priority", VStr priority);
         ("priority_label", VStr priority_label);
         ("components",
           VDict [("severity", VFloat severity_score);
                  ("likelihood", likelihood);
                  ("impact", impact);
                  ("confidence", confidence);
                  ("time_sensitivity", VFloat time_sensitivity)])]).

(** ** [decision_engine.py] *)

Section Engine.
(** The readings of the wall clock, in microseconds. *)
Variable clock : nat → Z.
(** [datetime.fromisoformat]: [None] stands for its [ValueError]. *)
Variable fromisoformat : string → option Z.
(** [datetime.isoformat]. *)
Variable isoformat : Z → string.
(** [str(v)] for a value that is not a string, and [str(e)] for an
    exception. *)
Variable py_str : pyval → string.
Variable exn_str : exn → string.
(** The builtin [sum] over floats (its rounding depends on the version of
    the interpreter). *)
Variable py_sum : list float → float.

(** [datetime.utcnow()] *)
Definition utcnow : Clk Z := fun n => (Ok (clock n), S n).

(** [if isinstance(v, str): v = datetime.fromisoformat(v)] *)
Definition parse_if_str (v : pyval) : result pyval :=
  match v with
  | VStr s =>
      match fromisoformat s with
      | Some t => Ok (VDatetime t)
      | None => Raise ValueError
      end
  | _ => Ok v
  end.

(** The text of [v] inside an f-string. *)
Definition format (v : pyval) : string :=
  match v with
  | VStr s => s
  | _ => py_str v
  end.

(** *** [AlertScorer] *)

Definition scoring_error (e : exn) : dict :=
  list_to_map
    [("composite_score", VFloat 0.5);
     ("priority", VStr "p3");
     ("priority_label", VStr "Error in scoring");
     ("error", VStr (exn_str e))].

(** The body of the [try] block of [calculate_alert_score]. *)
Definition score_attempt (alert : dict) : Clk dict :=
  let severity := default (VStr "low") (alert !! "severity") in
  let confidence := default (VFloat 0.5) (alert !! "confidence") in
  let impact_score := default (VFloat 0.5) (alert !! "impact_score") in
  let likelihood := default (VFloat 0.5) (alert !! "likelihood") in
  now0 ← utcnow;
  let created_at := default (VDatetime now0) (alert !! "created_at") in
  created_at ← lift (parse_if_str created_at);
  now1 ← utcnow;
  seconds ← lift (sub_total_seconds (VDatetime now1) created_at);
  let age_hours := (seconds / 3600)%float in
  let time_sensitivity := py_max 0.5 (1.0 - age_hours / 168)%float in
  risk_result ←
    lift (calculate_composite_risk severity likelihood impact_score
            confidence time_sensitivity);
  let risk_result := <["age_hours" := VFloat age_hours]> risk_result in
  let risk_result :=
    <["category" := default (VStr "unknown") (alert !! "category")]>
      risk_result in
  let risk_result :=
    <["source" := default (VStr "unknown") (alert !! "source")]>
      risk_result in
  mret risk_result.

Definition calculate_alert_score (alert : dict) : Clk dict :=
  try_except (score_attempt alert) (fun e => mret (scoring_error e)).

(** The loop of [batch_score_alerts]: [{**alert, **score_result}] for
    every alert, in order. *)
Fixpoint score_each (alerts : list dict) : Clk (list dict) :=
  match alerts with
  | [] => mret []
  | alert :: rest =>
      score_result ← calculate_alert_score alert;
      let alert_with_score := score_result ∪ alert in
      scored ← score_each rest;
      mret (alert_with_score :: scored)
  end.

Definition batch_score_alerts (alerts : list dict) : Clk (list dict) :=
  scored_alerts ← score_each alerts;
  lift (list_sort (fun x => default (VInt 0) (x !! "composite_score"))
          true scored_alerts).

(** *** [AlertDeduplicator] *)

Definition calculate_similarity (alert1 alert2 : dict) : Clk float :=
  let score := 0.0%float in
  let score :=
    if py_eq (dict_get alert1 "product_id") (dict_get alert2 "product_id")
    then (score + 0.4)%float else score in
  let score :=
    if py_eq (dict_get alert1 "category") (dict_get alert2 "category")
    then (score + 0.3)%float else score in
  let score :=
    if py_eq (dict_get alert1 "severity") (dict_get alert2 "severity")
    then (score + 0.2)%float else score in
  now0 ← utcnow;
  let created1 := default (VDatetime now0) (alert1 !! "created_at") in
  now1 ← utcnow;
  let created2 := default (VDatetime now1) (alert2 !! "created_at") in
  created1 ← lift (parse_if_str created1);
  created2 ← lift (parse_if_str created2);
  seconds ← lift (sub_total_seconds created1 created2);
  let time_diff_hours := abs (seconds / 3600)%float in
  let score :=
    if (time_diff_hours <? 24)%float
    then (score + 0.1 * (1 - time_diff_hours / 24))%float else score in
  mret score.

Definition severity_order : gmap string Z :=
  list_to_map [("critical", 4); ("high", 3); ("medium", 2); ("low", 1)].

(** [x += s] for a string [s]: a string is extended, a list takes the
    characters of [s] as new elements. *)
Fixpoint chars (s : string) : list pyval :=
  match s with
  | EmptyString => []
  | String c s' => VStr (String c EmptyString) :: chars s'
  end.

Definition iadd_str (x : pyval) (s : string) : result pyval :=
  match x with
  | VStr t => Ok (VStr (t ++ s)%string)
  | VList l => Ok (VList (l ++ chars s))
  | _ => Raise TypeError
  end.

(** [x + [v]] *)
Definition add_list (x : pyval) (v : pyval) : result pyval :=
  match x with
  | VList l => Ok (VList (l ++ [v]))
  | _ => Raise TypeError
  end.

Definition merge_alerts (primary duplicate : dict) : result dict :=
  let merged := primary in
  rank_d ←
    lookup_val severity_order
      (default (VStr "low") (duplicate !! "severity")) 0;
  rank_p ←
    lookup_val severity_order
      (default (VStr "low") (primary !! "severity")) 0;
  merged ←
    (if rank_p <? rank_d then
       v ← getitem duplicate "severity"; Ok (<["severity" := v]> merged)
     else Ok merged);
  higher ←
    py_gt (default (VInt 0) (duplicate !! "confidence"))
      (default (VInt 0) (primary !! "confidence"));
  merged ←
    (if higher : bool then
       v ← getitem duplicate "confidence";
       Ok (<["confidence" := v]> merged)
     else Ok merged);
  merged ←
    (if truthy (dict_get duplicate "description") then
       old ← getitem merged "description";
       d ← getitem duplicate "description";
       new ← iadd_str old (String "010" "[Merged] " ++ format d)%string;
       Ok (<["description" := new]> merged)
     else Ok merged);
  ids ←
    add_list (default (VList []) (merged !! "merged_alert_ids"))
      (dict_get duplicate "id");
  Ok (<["merged_alert_ids" := ids]> merged).

(** *** [AlertEnricher] *)

Definition enrich_with_product_context (alert product : dict)
  : result dict :=
  let enriched := alert in
  let enriched := <["product_name" := dict_get product "name"]> enriched in
  let enriched := <["product_sku" := dict_get product "sku"]> enriched in
  let enriched :=
    <["product_category" := dict_get product "category"]> enriched in
  let enriched :=
    <["current_stock" := dict_get product "current_stock"]> enriched in
  let enriched :=
    <["reorder_point" := dict_get product "reorder_point"]> enriched in
  if truthy (dict_get product "current_stock")
     && truthy (dict_get product "reorder_point")
  then
    current_stock ← getitem product "current_stock";
    reorder_point ← getitem product "reorder_point";
    denominator ← py_add_f reorder_point 0.01;
    stock_ratio ← py_div_f current_stock denominator;
    let stock_health :=
      if (stock_ratio <? 0.5)%float then "critical"
      else if (stock_ratio <? 1.0)%float then "warning"
      else "healthy" in
    Ok (<["stock_health" := VStr stock_health]> enriched)
  else Ok enriched.

(** The loop that collects the resolution times of the resolved alerts. *)
Fixpoint resolution_times_of (resolved : list dict) : result (list float) :=
  match resolved with
  | [] => Ok []
  | h :: rest =>
      let created := dict_get h "created_at" in
      let resolved_at := dict_get h "resolved_at" in
      here ←
        (if truthy created && truthy resolved_at then
           created ← parse_if_str created;
           resolved_at ← parse_if_str resolved_at;
           seconds ← sub_total_seconds resolved_at created;
           Ok [(seconds / 3600)%float]
         else Ok []);
      times ← resolution_times_of rest;
      Ok (here ++ times)%list
  end.

Definition enrich_with_historical_context (alert : dict)
    (history : list dict) : result dict :=
  let enriched := alert in
  let similar_count :=
    Z.of_nat
      (length
         (List.filter
            (fun h => py_eq (dict_get h "category") (dict_get alert "category"))
            history)) in
  let enriched :=
    <["similar_alerts_past_30_days" := VInt similar_count]> enriched in
  let enriched :=
    <["is_recurring" := VBool (2 <? similar_count)]> enriched in
  let resolved :=
    List.filter
      (fun h =>
         py_eq (dict_get h "status") (VStr "resolved")
         && truthy (dict_get h "resolved_at"))
      history in
  match resolved with
  | [] => Ok enriched
  | _ =>
      resolution_times ← resolution_times_of resolved;
      match resolution_times with
      | [] => Ok enriched
      | _ =>
          count ← int_to_float (Z.of_nat (length resolution_times));
          average ← py_div_f (VFloat (py_sum resolution_times)) count;
          Ok (<["avg_resolution_hours" := VFloat average]> enriched)
      end
  end.

(** *** [SLAManager] *)

Definition SLA_TARGETS : gmap string Z :=
  list_to_map [("p1", 4); ("p2", 24); ("p3", 72); ("p4", 168)].

Definition calculate_sla_deadline (alert : dict) : Clk Z :=
  let priority := default (VStr "p3") (alert !! "priority") in
  now0 ← utcnow;
  let created_at := default (VDatetime now0) (alert !! "created_at") in
  created_at ← lift (parse_if_str created_at);
  sla_hours ← lift (lookup_val SLA_TARGETS priority 72);
  lift (add_hours created_at sla_hours).

Definition check_sla_breach (alert : dict) : Clk dict :=
  deadline ← calculate_sla_deadline alert;
  now ← utcnow;
  let time_remaining := (total_seconds (deadline - now) / 3600)%float in
  let '(sla_status, breach_risk) :=
    if (time_remaining <? 0)%float then ("breached", "high")
    else if (time_remaining <? 2)%float then ("critical", "high")
    else if (time_remaining <? 12)%float then ("warning", "medium")
    else ("ok", "low") in
  mret (list_to_map
          [("sla_status", VStr sla_status);
           ("sla_deadline", VStr (isoformat deadline));
           ("time_remaining_hours", VFloat (py_round time_remaining 2));
           ("breach_risk", VStr breach_risk)] : dict).

Definition determine_escalation (alert : dict) : Clk (option string) :=
  sla_check ← check_sla_breach alert;
  let priority := default (VStr "p3") (alert !! "priority") in
  if py_eq priority (VStr "p1") then
    sla_status ← lift (getitem sla_check "sla_status");
    if py_eq sla_status (VStr "breached") then mret (Some "executive")
    else if py_eq sla_status (VStr "critical") then mret (Some "director")
    else mret (Some "manager")
  else if py_eq priority (VStr "p2") then
    breach_risk ← lift (getitem sla_check "breach_risk");
    if py_eq breach_risk (VStr "high") then mret (Some "director")
    else if py_eq breach_risk (VStr "medium") then mret (Some "manager")
    else mret None
  else if py_eq priority (VStr "p3") then
    sla_status ← lift (getitem sla_check "sla_status");
    if py_eq sla_status (VStr "breached") then mret (Some "manager")
    else mret None
  else mret None.

(** *** [DecisionEngine] *)

Definition generate_recommendations (alert : dict) : list string :=
  let priority := default (VStr "p3") (alert !! "priority") in
  let category := default (VStr "") (alert !! "category") in
  ((if py_eq priority (VStr "p1") then
     ["Immediate investigation required"; "Notify relevant stakeholders"]
   else [])
  ++ (if py_eq category (VStr "quality") then
        ["Review recent quality inspection reports";
         "Check batch/lot numbers for affected products"]
      else if py_eq category (VStr "supply") then
        ["Contact supplier for status update";
         "Identify alternative suppliers if needed"]
      else if py_eq category (VStr "demand") then
        ["Adjust inventory orders"; "Review demand forecast models"]
      else [])
  ++ (if py_eq (dict_get alert "stock_health") (VStr "critical") then
        ["Expedite reorder or switch to backup supplier"]
      else [])
  ++ (if truthy (dict_get alert "is_recurring") then
        ["Investigate root cause (recurring issue)"]
      else []))%list.

Definition process_alert (alert : dict) (product : option dict)
    (history : option (list dict)) : Clk dict :=
  let processed := alert in
  (* Step 1: score *)
  score_result ← calculate_alert_score alert;
  let processed := score_result ∪ processed in
  (* Step 2: enrich *)
  processed ←
    match product with
    | Some p =>
        if dict_truthy p then lift (enrich_with_product_context processed p)
        else mret processed
    | None => mret processed
    end;
  processed ←
    match history with
    | Some (h :: hs) =>
        lift (enrich_with_historical_context processed (h :: hs))
    | _ => mret processed
    end;
  (* Step 3: SLA *)
  sla_deadline ← calculate_sla_deadline processed;
  sla_check ← check_sla_breach processed;
  let processed := <["sla_deadline" := VDatetime sla_deadline]> processed in
  let processed := sla_check ∪ processed in
  (* Step 4: escalation *)
  escalation_level ← determine_escalation processed;
  let processed :=
    <["escalation_level" := of_option escalation_level]> processed in
  let processed :=
    <["requires_escalation" :=
        VBool (match escalation_level with Some _ => true | None => false end)]>
      processed in
  (* Step 5: recommended actions *)
  let processed :=
    <["recommended_actions" :=
        VList (map VStr (generate_recommendations processed))]> processed in
  mret processed.

End Engine.

(** ** The specification's tables *)

Inductive tier : Type := P1 | P2 | P3 | P4.
Inductive sla_state : Type := SlaOk | SlaWarning | SlaCritical | SlaBreached.
Inductive risk : Type := RiskLow | RiskMedium | RiskHigh.
Inductive escalation : Type := NoEscalation | Manager | Director | Executive.

Definition tier_name (p : tier) : string :=
  match p with P1 => "p1" | P2 => "p2" | P3 => "p3" | P4 => "p4" end.

Definition sla_state_name (s : sla_state) : string :=
  match s with
  | SlaOk => "ok"
  | SlaWarning => "warning"
  | SlaCritical => "critical"
  | SlaBreached => "breached"
  end.

Definition risk_name (r : risk) : string :=
  match r with RiskLow => "low" | RiskMedium => "medium" | RiskHigh => "high" end.

Definition escalation_name (l : escalation) : option string :=
  match l with
  | NoEscalation => None
  | Manager => Some "manager"
  | Director => Some "director"
  | Executive => Some "executive"
  end.

(** The transition table of the escalation resolver, row by row as the
    specification gives it. *)
Definition escalation_table (p : tier) (s : sla_state) (r : risk) : escalation :=
  match p with
  | P1 =>
      match s with
      | SlaBreached => Executive
      | SlaCritical => Director
      | _ => Manager
      end
  | P2 =>
      match r with
      | RiskHigh => Director
      | RiskMedium => Manager
      | RiskLow => NoEscalation
      end
  | P3 =>
      match s with
      | SlaBreached => Manager
      | _ => NoEscalation
      end
  | P4 => NoEscalation
  end.

(** The breach risk that goes with an SLA state. *)
Definition risk_of_state (s : sla_state) : risk :=
  match s with
  | SlaBreached | SlaCritical => RiskHigh
  | SlaWarning => RiskMedium
  | SlaOk => RiskLow
  end.

(** Reading a tier back from the value of a record. *)
Definition tier_of (v : pyval) : option tier :=
  match v with
  | VStr s =>
      if String.eqb s "p1" then Some P1
      else if String.eqb s "p2" then Some P2
      else if String.eqb s "p3" then Some P3
      else if String.eqb s "p4" then Some P4
      else None
  | _ => None
  end.

(** ** Accessors used in the statements *)

(** The [sla_status] that [check_sla_breach] reports, if it returns. *)
Definition sla_status_of (r : result dict * nat) : option pyval :=
  match fst r with
  | Ok d => d !! "sla_status"
  | Raise _ => None
  end.

(** The key [batch_score_alerts] sorts by. *)
Definition score_key (x : dict) : pyval :=
  default (VInt 0) (x !! "composite_score").

Definition confidence_of (d : dict) : pyval :=
  default (VInt 0) (d !! "confidence").

(** Two confidence entries are the same: both absent, or the same number. *)
Definition same_confidence (a b : option pyval) : Prop :=
  match a, b with
  | None, None => True
  | Some v, Some w => v = w \/ py_eq v w = true
  | _, _ => False
  end.

(** The rank [merge_alerts] gives the severity of an alert. *)
Definition severity_rank (d : dict) : result Z :=
  lookup_val severity_order (default (VStr "low") (d !! "severity")) 0.

(** ** Sample data for the closed examples *)

(** A clock that stands still, and one that advances by a microsecond at
    every reading. *)
Definition frozen (t : Z) : nat → Z := fun _ => t.
Definition ticking (t : Z) : nat → Z := fun n => t + Z.of_nat n.

(** 2024-01-01 12:00:00 *)
Definition sample_now : Z := (738885 * 24 + 12) * hour_us.

(** No text is taken for a date in the samples, and none is printed. *)
Definition sample_fromisoformat : string → option Z := fun _ => None.
Definition sample_isoformat : Z → string := fun _ => "".
Definition sample_str : pyval → string := fun _ => "".
Definition sample_exn_str : exn → string := fun _ => "".

Definition p1_alert (created_at : Z) : dict :=
  list_to_map [("priority", VStr "p1"); ("created_at", VDatetime created_at)].

Definition sample_alert : dict :=
  list_to_map
    [("id", VInt 17); ("product_id", VInt 7); ("category", VStr "quality");
     ("severity", VStr "high"); ("description", VStr "defect rate above limit");
     ("confidence", VFloat 0.89); ("impact_score", VFloat 0.85);
     ("likelihood", VFloat 0.8); ("source", VStr "sensor");
     ("created_at", VDatetime sample_now)].

Definition sample_product (current_stock reorder_point : pyval) : dict :=
  list_to_map
    [("id", VInt 7); ("name", VStr "Widget"); ("sku", VStr "W-7");
     ("category", VStr "parts"); ("current_stock", current_stock);
     ("reorder_point", reorder_point)].

Definition sample_batch : list dict :=
  [<["severity" := VStr "low"]> sample_alert;
   <["severity" := VStr "critical"]> sample_alert;
   sample_alert].

(** A primary alert and two duplicates of it. *)
Definition sample_duplicate_1 : dict :=
  <["id" := VInt 18]>
    (<["severity" := VStr "critical"]>
       (<["confidence" := VFloat 0.7]> sample_alert)).

Definition sample_duplicate_2 : dict :=
  <["id" := VInt 19]>
    (<["severity" := VStr "medium"]>
       (<["confidence" := VFloat 0.95]> sample_alert)).

(** ** Further notions used in the statements *)

(** The order of two values of numbers; [false] when one is NaN. *)
Definition lt_val (a b : option xreal) : bool :=
  match a, b with
  | Some x, Some y => match xreal_compare x y with Lt => true | _ => false end
  | _, _ => false
  end.

Definition xle (x y : xreal) : Prop := xreal_compare x y <> Gt.

(** An entry of a list being sorted whose key is a number other than NaN,
    and the order of two such entries. *)
Definition valued {A} (p : pyval * A) : Prop :=
  is_number (fst p) = true /\ is_Some (num_val (fst p)).

Definition key_le {A} (p q : pyval * A) : Prop :=
  match num_val (fst p), num_val (fst q) with
  | Some x, Some y => xle x y
  | _, _ => False
  end.

(** [y]'s key is at most [x]'s. *)
Definition key_ge {A} (key : A → pyval) (x y : A) : Prop :=
  match num_val (key y), num_val (key x) with
  | Some v, Some w => xle v w
  | _, _ => False
  end.

(** [y]'s score is at most [x]'s. *)
Definition score_ge : dict → dict → Prop := key_ge score_key.

(** [x] is the record that the alert [a] becomes in a scored batch:
    [{**a, **score}] for a score of [a]. *)
Definition scored_as (clock : nat → Z) (fromisoformat : string → option Z)
    (exn_str : exn → string) (a x : dict) : Prop :=
  exists m m' d,
    calculate_alert_score clock fromisoformat exn_str a m = (Ok d, m') /\
    x = d ∪ a.

(** The severity weight reported among the components of a score. *)
Definition severity_component (r : result dict * nat) : option pyval :=
  match fst r with
  | Ok d =>
      match d !! "components" with
      | Some (VDict c) => alist_get "severity" c
      | _ => None
      end
  | Raise _ => None
  end.

Definition is_float (v : option pyval) (f : float) : bool :=
  match v with
  | Some (VFloat g) => (g =? f)%float
  | _ => false
  end.

Definition stock_health_of (r : result dict) : result (option pyval) :=
  d ← r; Ok (d !! "stock_health").

(** Merging two duplicates into a primary, one after the other. *)
Definition merge_both (py_str : pyval → string) (primary d1 d2 : dict)
  : result dict :=
  merged ← merge_alerts py_str primary d1; merge_alerts py_str merged d2.

(** The [sla_status] reported at the [n]-th reading of the clock for
    [alert] when it was created at [created_at]. *)
Definition status_at (clock : nat → Z) (fromisoformat : string → option Z)
    (isoformat : Z → string) (alert : dict) (n : nat) (created_at : Z)
  : option pyval :=
  sla_status_of
    (check_sla_breach clock fromisoformat isoformat
       (<["created_at" := VDatetime created_at]> alert) n).

(** An alert as the deduplicator expects it: a severity that is text, a
    numeric confidence, a description that is text, and the absorbed
    identifiers, if any, in a list. *)
Definition mergeable (d : dict) : bool :=
  match d !! "severity" with Some (VStr _) => true | _ => false end
  && match d !! "confidence" with Some v => is_number v | None => false end
  && match d !! "description" with Some (VStr _) => true | _ => false end
  && match d !! "merged_alert_ids" with
     | None | Some (VList _) => true
     | _ => false
     end.

(** The composite score of an alert of severity [s] whose likelihood, impact
    and confidence are the floats [l], [i] and [c]. *)
Definition formula_of (s : string) (l i c ts : float) : result float :=
  w ← severity_score_of (VStr s);
  composite_formula w (VFloat l) (VFloat i) (VFloat c) ts.

(** The second score is not below the first. *)
Definition not_decreased (a b : result float) : Prop :=
  match a, b with
  | Ok x, Ok y => (y <? x)%float = false
  | _, _ => False
  end.

(** The scores of the records of a scored batch are numbers: none is NaN. *)
Definition scores_are_numbers (r : result (list dict) * nat) : bool :=
  match fst r with
  | Ok scored =>
      forallb
        (fun x =>
           match num_val (score_key x) with Some _ => true | None => false end)
        scored
  | Raise _ => false
  end.

(** ** Binary64 rounding

    The notions in which the rounding of [SpecFloat] is described. *)

(** The record after [k] one-bit shifts of [m0]. *)
Definition shifted (m0 k : Z) (mrs : shr_record) : Prop :=
  shr_m mrs = m0 / 2 ^ k /\
  shr_r mrs = Z.odd (m0 / 2 ^ (k - 1)) && (0 <? k) /\
  shr_s mrs = negb (m0 mod 2 ^ (k - 1) =? 0) && (0 <? k).

(** Rounding [m / 2^k] to the nearest integer, ties to even. *)
Definition RNE (m k : Z) : Z :=
  let q := m / 2 ^ k in
  match 2 * (m mod 2 ^ k) ?= 2 ^ k with
  | Lt => q
  | Eq => if Z.even q then q else q + 1
  | Gt => q + 1
  end.

Definition fexp64 (e : Z) : Z := Z.max (e - 53) (-1074).

(** The last steps of [binary_round_aux]: a mantissa that reached [2^53] is
    renormalised, zero and overflow are told apart. *)
Definition finish (s : bool) (q E : Z) : spec_float :=
  let '(qf, ef) := if q =? 2 ^ 53 then (2 ^ 52, E + 1) else (q, E) in
  match qf with
  | Z0 => S754_zero s
  | Zpos p => if ef <=? 971 then S754_finite s p ef else S754_infinity s
  | Zneg _ => S754_nan
  end.

(** The binary64 number nearest to [m * 2^e], with sign [s]. *)
Definition RN (s : bool) (m e : Z) : spec_float :=
  let E := fexp64 (Zdigits2 m + e) in
  finish s (RNE m (E - e)) E.

Inductive rounded (s : bool) : spec_float -> Prop :=
| rounded_zero : rounded s (S754_zero s)
| rounded_finite m e : rounded s (S754_finite s m e)
| rounded_infinity : rounded s (S754_infinity s).

(** The value of a finite number, in units of [2^-1074]. *)
Definition sval (x : spec_float) : Z :=
  match x with
  | S754_finite s m e => cond_Zopp s (Zpos m * 2 ^ (e + 1074))
  | _ => 0
  end.

(** The binary64 number nearest to [N * 2^-1074]. *)
Definition norm (N : Z) : spec_float :=
  if N =? 0 then S754_zero false
  else if 0 <? N then RN false N (-1074)
  else RN true (- N) (-1074).

(** A finite number or a zero. *)
Definition is_finite_or_zero (x : spec_float) : bool :=
  match x with
  | S754_zero _ | S754_finite _ _ _ => true
  | _ => false
  end.

(** Two zeros of any sign compare alike. *)
Definition same_value (a b : spec_float) : Prop :=
  a = b \/ (exists s s', a = S754_zero s /\ b = S754_zero s').

(** ** The rest of the deduplicator and of the risk calculator *)

Section Deduplicator.
Variable clock : nat → Z.
Variable fromisoformat : string → option Z.
Variable py_str : pyval → string.
(** [hashlib.md5(s.encode()).hexdigest()] *)
Variable md5_hexdigest : string → string.

Definition generate_alert_fingerprint (alert : dict) : string :=
  let product_id := default (VStr "") (alert !! "product_id") in
  let category := default (VStr "") (alert !! "category") in
  let severity := default (VStr "") (alert !! "severity") in
  let fingerprint_str :=
    (format py_str product_id ++ ":" ++ format py_str category ++ ":"
     ++ format py_str severity)%string in
  md5_hexdigest fingerprint_str.

(** The inner loop of [find_duplicates]: the alert [a], at index [i],
    against the alerts from index [j] on. *)
Fixpoint find_duplicates_of (a : dict) (i j : nat) (rest : list dict)
    (similarity_threshold : float) : Clk (list (nat * nat * float)) :=
  match rest with
  | [] => mret []
  | b :: rest' =>
      similarity ← calculate_similarity clock fromisoformat a b;
      duplicates ← find_duplicates_of a i (S j) rest' similarity_threshold;
      mret (if (similarity_threshold <=? similarity)%float
            then (i, j, similarity) :: duplicates
            else duplicates)
  end.

(** The outer loop, from index [i] on. *)
Fixpoint find_duplicates_from (i : nat) (alerts : list dict)
    (similarity_threshold : float) : Clk (list (nat * nat * float)) :=
  match alerts with
  | [] => mret []
  | a :: rest =>
      here ← find_duplicates_of a i (S i) rest similarity_threshold;
      later ← find_duplicates_from (S i) rest similarity_threshold;
      mret (here ++ later)%list
  end.

Definition find_duplicates (alerts : list dict) (similarity_threshold : float)
  : Clk (list (nat * nat * float)) :=
  find_duplicates_from 0 alerts similarity_threshold.

End Deduplicator.

(** [c - v] for a float [c]. *)
Definition py_rsub_f (c : float) (v : pyval) : result float :=
  f ← to_float v; Ok (c - f)%float.

(** [min(a, b)] on floats: the first argument unless the second is less. *)
Definition py_min (a b : float) : float := if (b <? a)%float then b else a.

Definition financial_scores : gmap string float :=
  list_to_map
    [("excellent", 0.0%float); ("good", 0.1%float); ("fair", 0.3%float);
     ("poor", 0.6%float); ("critical", 0.9%float)].

(** The supplier risk formula, before it is rounded for the report. *)
Definition supplier_formula (delivery_risk quality_risk lead_time_risk
    financial_score : float) (geopolitical_risk : pyval) : result float :=
  g ← py_mul_f geopolitical_risk 0.15;
  Ok (delivery_risk * 0.25 + quality_risk * 0.25 + lead_time_risk * 0.15
      + financial_score * 0.20 + g)%float.

Definition risk_level_of (risk_score : float) : string :=
  if (0.7 <=? risk_score)%float then "critical"
  else if (0.5 <=? risk_score)%float then "high"
  else if (0.3 <=? risk_score)%float then "medium"
  else "low".

Definition calculate_supplier_risk
    (on_time_rate quality_rating lead_time_days financial_health
       geopolitical_risk : pyval) : result dict :=
  health ← str_lower financial_health;
  let financial_score := default 0.5%float (financial_scores !! health) in
  delivery_risk ← py_rsub_f 1.0 on_time_rate;
  quality_risk ← py_rsub_f 1.0 quality_rating;
  lead ← py_div_f lead_time_days 30.0;
  let lead_time_risk := py_min lead 1.0 in
  risk_score ←
    supplier_formula delivery_risk quality_risk lead_time_risk financial_score
      geopolitical_risk;
  let risk_level := risk_level_of risk_score in
  Ok (list_to_map
        [("risk_score", VFloat (py_round risk_score 3));
         ("risk_level", VStr risk_level);
         ("breakdown",
           VDict [("delivery_risk", VFloat (py_round delivery_risk 3));
                  ("quality_risk", VFloat (py_round quality_risk 3));
                  ("lead_time_risk", VFloat (py_round lead_time_risk 3));
                  ("financial_risk", VFloat financial_score);
                  ("geopolitical_risk", geopolitical_risk)])]).

(** ** Notions used in the further properties *)

(** The fields the pipeline writes. *)
Definition score_keys : list string :=
  ["composite_score"; "priority"; "priority_label"; "components";
   "age_hours"; "category"; "source"; "error"].

Definition product_keys : list string :=
  ["product_name"; "product_sku"; "product_category"; "current_stock";
   "reorder_point"; "stock_health"].

Definition history_keys : list string :=
  ["similar_alerts_past_30_days"; "is_recurring"; "avg_resolution_hours"].

Definition sla_keys : list string :=
  ["sla_deadline"; "sla_status"; "time_remaining_hours"; "breach_risk"].

Definition pipeline_keys : list string :=
  (score_keys ++ product_keys ++ history_keys ++ sla_keys
   ++ ["escalation_level"; "requires_escalation"; "recommended_actions"])%list.

(** An alert on which the status that is recorded and the escalation
    disagree when the clock moves: created two hours less four microseconds
    before the first reading. *)
Definition race_alert : dict :=
  <["severity" := VStr "critical"]>
    (<["created_at" := VDatetime (sample_now + 4 - 2 * hour_us)]> sample_alert).

(** A field of the record [process_alert] returns. *)
Definition processed_field (r : result dict * nat) (k : string)
  : option pyval :=
  match fst r with
  | Ok d => d !! k
  | Raise _ => None
  end.

(** An entry of the history that counts for the average resolution time:
    resolved, with both of its times. *)
Definition resolved_with_times (h : dict) : bool :=
  py_eq (dict_get h "status") (VStr "resolved")
  && truthy (dict_get h "resolved_at")
  && truthy (dict_get h "created_at").

(** The entries of the history of the category of the alert. *)
Definition similar_count (alert : dict) (history : list dict) : Z :=
  Z.of_nat
    (length
       (List.filter
          (fun h => py_eq (dict_get h "category") (dict_get alert "category"))
          history)).

(** The fields a merge writes. *)
Definition merge_keys : list string :=
  ["severity"; "confidence"; "description"; "merged_alert_ids"].

(** The identifiers an alert has absorbed so far. *)
Definition merged_ids (d : dict) : list pyval :=
  match d !! "merged_alert_ids" with
  | Some (VList l) => l
  | _ => []
  end.

(** The pairs of positions [i < j] below [n], in the order of the two loops
    of [find_duplicates]: [pairs_of i j k] pairs [i] with the [k] positions
    from [j] on, [pairs_from i k] pairs the [k] positions from [i] on. *)
Definition pairs_of (i j k : nat) : list (nat * nat) :=
  map (fun d => (i, j + d)%nat) (seq 0 k).

Fixpoint pairs_from (i k : nat) : list (nat * nat) :=
  match k with
  | O => []
  | S k' => (pairs_of i (S i) k' ++ pairs_from (S i) k')%list
  end.

Definition all_pairs (n : nat) : list (nat * nat) := pairs_from 0 n.

(** ** Rounding a quotient *)

(** The fraction [n / d] rounded to the nearest integer, ties to even. *)
Definition rnd (n d : Z) : Z :=
  let q := n / d in
  match 2 * (n mod d) ?= d with
  | Lt => q
  | Eq => if Z.even q then q else q + 1
  | Gt => q + 1
  end.

(** The fraction [n / d] in half units with a sticky last bit: twice its
    integer part, plus one when a remainder is left. *)
Definition stk (n d : Z) : Z := 2 * (n / d) + (if n mod d =? 0 then 0 else 1).

(** The two bits below the mantissa that a location stands for. *)
Definition loc_code (l : location) : Z :=
  match l with
  | loc_Exact => 0
  | loc_Inexact Lt => 1
  | loc_Inexact Eq => 2
  | loc_Inexact Gt => 3
  end.

(** The exponent at which [SFdiv] takes the integer quotient of the
    mantissas. *)
Definition div_exp (mx ex my ey : Z) : Z :=
  Z.min (fexp64 (Zdigits2 mx + ex - (Zdigits2 my + ey))) (ex - ey).

(** ** Order and ranges of floats *)

(** [x <= y] holds; neither of the two is NaN then. *)
Definition fle (x y : float) : Prop := (x <=? y)%float = true.

(** Neither an infinity nor NaN. *)
Definition is_finite_float (x : float) : bool := is_finite_or_zero (Prim2SF x).

(** ** Notions used in the properties of exact time, similarity and risk *)

(** The SLA state by the time that remains, in microseconds: breached once
    the deadline has passed, critical with less than two hours left,
    warning with less than twelve. *)
Definition sla_state_of_remaining (us : Z) : sla_state :=
  if us <? 0 then SlaBreached
  else if us <? 2 * hour_us then SlaCritical
  else if us <? 12 * hour_us then SlaWarning
  else SlaOk.

(** The two alerts agree on the product, the category and the severity (an
    absent field is [None]). *)
Definition same_key_fields (a b : dict) : bool :=
  py_eq (dict_get a "product_id") (dict_get b "product_id")
  && py_eq (dict_get a "category") (dict_get b "category")
  && py_eq (dict_get a "severity") (dict_get b "severity").

(** The pairs of positions, in the order of the two loops, whose alerts
    agree on the three fields. *)
Fixpoint matching_of (a : dict) (i j : nat) (rest : list dict)
  : list (nat * nat) :=
  match rest with
  | [] => []
  | b :: rest' =>
      if same_key_fields a b then (i, j) :: matching_of a i (S j) rest'
      else matching_of a i (S j) rest'
  end.

Fixpoint matching_from (i : nat) (alerts : list dict) : list (nat * nat) :=
  match alerts with
  | [] => []
  | a :: rest => (matching_of a i (S i) rest ++ matching_from (S i) rest)%list
  end.

(** A value that is a number between 0 and 1. *)
Definition in_unit_range (v : pyval) : bool :=
  match to_float v with
  | Ok f => (0 <=? f)%float && (f <=? 1)%float
  | Raise _ => false
  end.

(** An entry of the components that a score reports. *)
Definition component (d : dict) (k : string) : option pyval :=
  match d !! "components" with
  | Some (VDict c) => alist_get k c
  | _ => None
  end.

(** The rank of a supplier risk level, from low to critical. *)
Definition risk_level_rank (level : string) : Z :=
  if String.eqb level "critical" then 3
  else if String.eqb level "high" then 2
  else if String.eqb level "medium" then 1
  else 0.

(** The risk level that [calculate_supplier_risk] reports. *)
Definition risk_level_in (r : result dict) : option string :=
  match r with
  | Ok d => match d !! "risk_level" with Some (VStr s) => Some s | _ => None end
  | Raise _ => None
  end.

(** * Properties *)

(** ** Binary64 rounding: what [binary_round_aux] computes *)

Lemma digits2_pos_bounds (p : positive) :
  2 ^ (Zpos (digits2_pos p) - 1) <= Zpos p < 2 ^ Zpos (digits2_pos p).
Proof.
  induction p as [p IH|p IH|]; cbn [digits2_pos].
  - rewrite Pos2Z.inj_succ.
    replace (Z.succ (Zpos (digits2_pos p)) - 1) with (Z.succ (Zpos (digits2_pos p) - 1)) by lia.
    rewrite !Z.pow_succ_r by lia. lia.
  - rewrite Pos2Z.inj_succ.
    replace (Z.succ (Zpos (digits2_pos p)) - 1) with (Z.succ (Zpos (digits2_pos p) - 1)) by lia.
    rewrite !Z.pow_succ_r by lia. lia.
  - cbn. lia.
Qed.

Lemma shr_1_nonneg (m : Z) (r s : bool) :
  0 <= m ->
  shr_1 (Build_shr_record m r s) = Build_shr_record (m / 2) (Z.odd m) (r || s).
Proof.
  intros Hm. destruct m as [|p|p]; [reflexivity| |lia].
  destruct p as [p|p|]; cbn [shr_1].
  - replace (Zpos p~1 / 2) with (Zpos p); [reflexivity|].
    rewrite Pos2Z.inj_xI. apply Z.div_unique with 1; lia.
  - replace (Zpos p~0 / 2) with (Zpos p); [reflexivity|].
    rewrite Pos2Z.inj_xO. apply Z.div_unique with 0; lia.
  - reflexivity.
Qed.

Lemma mod_pow2_succ (m k : Z) :
  0 <= k ->
  m mod 2 ^ (k + 1) = m mod 2 ^ k + 2 ^ k * ((m / 2 ^ k) mod 2).
Proof.
  intros Hk. rewrite Z.pow_add_r by lia. change (2 ^ 1) with 2.
  apply Z.rem_mul_r; lia.
Qed.

Lemma shifted_step (m0 k : Z) (mrs : shr_record) :
  0 <= m0 -> 0 <= k -> shifted m0 k mrs -> shifted m0 (k + 1) (shr_1 mrs).
Proof.
  intros Hm Hk. destruct mrs as [m r s]. unfold shifted. cbn [shr_m shr_r shr_s].
  intros (-> & -> & ->).
  rewrite shr_1_nonneg by (apply Z.div_pos; lia).
  cbn [shr_m shr_r shr_s]. replace (k + 1 - 1) with k by lia.
  replace (0 <? k + 1) with true by (symmetry; apply Z.ltb_lt; lia).
  rewrite !andb_true_r. split; [|split; [reflexivity|]].
  - rewrite Z.pow_add_r by lia. rewrite Z.div_div by lia. reflexivity.
  - destruct (Z.ltb_spec 0 k) as [Hlt|Hge].
    + rewrite !andb_true_r.
      replace k with (k - 1 + 1) at 3 by lia.
      rewrite (mod_pow2_succ m0 (k - 1)) by lia.
      rewrite Zmod_odd.
      pose proof (Z.mod_pos_bound m0 (2 ^ (k - 1)) ltac:(lia)) as B.
      assert (0 < 2 ^ (k - 1)) by lia.
      destruct (Z.odd (m0 / 2 ^ (k - 1))); cbn [orb].
      * symmetry. apply negb_true_iff, Z.eqb_neq. nia.
      * rewrite Z.mul_0_r, Z.add_0_r. reflexivity.
    + assert (k = 0) as -> by lia. rewrite !andb_false_r. cbn [orb].
      change (2 ^ 0) with 1. rewrite Z.mod_1_r. reflexivity.
Qed.

Lemma shifted_iter (m0 : Z) (n : positive) :
  0 <= m0 ->
  forall (k : Z) (mrs : shr_record),
    0 <= k -> shifted m0 k mrs -> shifted m0 (k + Zpos n) (SpecFloat.iter_pos shr_1 n mrs).
Proof.
  intros Hm. induction n as [n IH|n IH|]; intros k mrs Hk H; cbn [SpecFloat.iter_pos].
  - rewrite Pos2Z.inj_xI.
    replace (k + (2 * Zpos n + 1)) with (k + 1 + Zpos n + Zpos n) by lia.
    apply IH; [lia|]. apply IH; [lia|]. now apply shifted_step.
  - rewrite Pos2Z.inj_xO.
    replace (k + 2 * Zpos n) with (k + Zpos n + Zpos n) by lia.
    apply IH; [lia|]. now apply IH.
  - now apply shifted_step.
Qed.

Lemma shifted_0 (m0 : Z) : shifted m0 0 (Build_shr_record m0 false false).
Proof.
  unfold shifted. cbn [shr_m shr_r shr_s]. change (0 <? 0) with false.
  rewrite !andb_false_r. change (2 ^ 0) with 1. rewrite Z.div_1_r. tauto.
Qed.

Lemma round_shifted_succ (m0 j q : Z) (r s : bool) :
  0 <= m0 -> 0 <= j ->
  q = m0 / 2 ^ (j + 1) -> r = Z.odd (m0 / 2 ^ j) ->
  s = negb (m0 mod 2 ^ j =? 0) ->
  round_nearest_even q (loc_of_shr_record (Build_shr_record q r s))
  = RNE m0 (j + 1).
Proof.
  intros Hm Hj -> -> ->. unfold RNE.
  rewrite (mod_pow2_succ m0 j) by lia.
  rewrite (Z.pow_add_r 2 j 1) by lia. change (2 ^ 1) with 2.
  rewrite Zmod_odd.
  pose proof (Z.mod_pos_bound m0 (2 ^ j) ltac:(lia)) as B.
  assert (0 < 2 ^ j) by lia.
  destruct (Z.odd (m0 / 2 ^ j)).
  - destruct (Z.eqb_spec (m0 mod 2 ^ j) 0) as [E0|N0]; cbn [negb].
    + rewrite E0.
      replace (2 * (0 + 2 ^ j * 1) ?= 2 ^ j * 2) with Eq
        by (symmetry; apply Z.compare_eq_iff; lia).
      reflexivity.
    + replace (2 * (m0 mod 2 ^ j + 2 ^ j * 1) ?= 2 ^ j * 2)
        with Gt by (symmetry; apply Z.compare_gt_iff; lia).
      reflexivity.
  - replace (2 * (m0 mod 2 ^ j + 2 ^ j * 0) ?= 2 ^ j * 2)
      with Lt by (symmetry; apply Z.compare_lt_iff; lia).
    destruct (m0 mod 2 ^ j =? 0); reflexivity.
Qed.

Lemma round_shifted (m0 k : Z) (mrs : shr_record) :
  0 <= m0 -> 0 <= k -> shifted m0 k mrs ->
  round_nearest_even (shr_m mrs) (loc_of_shr_record mrs) = RNE m0 k.
Proof.
  intros Hm Hk. destruct mrs as [m r s]. unfold shifted.
  cbn [shr_m shr_r shr_s]. intros (Em & Er & Es).
  destruct (Z.ltb_spec 0 k) as [Hlt|Hge].
  - rewrite andb_true_r in Er, Es.
    assert (H : round_nearest_even m
                  (loc_of_shr_record (Build_shr_record m r s))
                = RNE m0 (k - 1 + 1)).
    { apply round_shifted_succ; try lia; try assumption.
      now replace (k - 1 + 1) with k by lia. }
    now replace (k - 1 + 1) with k in H by lia.
  - assert (k = 0) as -> by lia. rewrite andb_false_r in Er, Es.
    subst. unfold RNE.
    change (2 ^ 0) with 1. rewrite Z.mod_1_r, Z.div_1_r. reflexivity.
Qed.

Lemma fexp64_eq (e : Z) : fexp prec emax e = fexp64 e.
Proof. reflexivity. Qed.

Lemma Zdigits2_bounds (x : Z) :
  0 < x -> 2 ^ (Zdigits2 x - 1) <= x < 2 ^ Zdigits2 x.
Proof.
  destruct x as [|p|p]; try lia. intros _. apply digits2_pos_bounds.
Qed.

Lemma Zdigits2_pos (x : Z) : 0 < x -> 0 < Zdigits2 x.
Proof. destruct x; cbn; lia. Qed.

Lemma Zdigits2_unique (x n : Z) :
  2 ^ (n - 1) <= x < 2 ^ n -> 0 < n -> Zdigits2 x = n.
Proof.
  intros [Hl Hu] Hn.
  assert (Hx : 0 < x) by (pose proof (Z.pow_pos_nonneg 2 (n - 1)); lia).
  pose proof (Zdigits2_bounds x Hx) as [Bl Bu].
  pose proof (Zdigits2_pos x Hx) as Hd.
  destruct (Z.lt_trichotomy (Zdigits2 x) n) as [Hlt|[Heq|Hgt]]; [|exact Heq|].
  - assert (2 ^ Zdigits2 x <= 2 ^ (n - 1)) by (apply Z.pow_le_mono_r; lia). lia.
  - assert (2 ^ n <= 2 ^ (Zdigits2 x - 1)) by (apply Z.pow_le_mono_r; lia). lia.
Qed.

Lemma Zdigits2_le (x n : Z) : 0 < x -> x < 2 ^ n -> 0 <= n -> Zdigits2 x <= n.
Proof.
  intros Hx Hu Hn. pose proof (Zdigits2_bounds x Hx) as [Bl Bu].
  destruct (Z.le_gt_cases (Zdigits2 x) n) as [H|H]; [exact H|].
  assert (2 ^ n <= 2 ^ (Zdigits2 x - 1)) by (apply Z.pow_le_mono_r; lia). lia.
Qed.

Lemma RNE_bounds (m k : Z) : m / 2 ^ k <= RNE m k <= m / 2 ^ k + 1.
Proof.
  unfold RNE. destruct (2 * (m mod 2 ^ k) ?= 2 ^ k); [|lia|lia].
  destruct (Z.even (m / 2 ^ k)); lia.
Qed.

Lemma div_pow2_bounds (m d k : Z) :
  0 <= k -> k < d -> 2 ^ (d - 1) <= m < 2 ^ d ->
  2 ^ (d - 1 - k) <= m / 2 ^ k < 2 ^ (d - k).
Proof.
  intros Hk Hd [Hl Hu].
  assert (P : 0 < 2 ^ k) by (apply Z.pow_pos_nonneg; lia).
  split.
  - apply Z.div_le_lower_bound; [exact P|].
    rewrite <- Z.pow_add_r by lia. now replace (k + (d - 1 - k)) with (d - 1) by lia.
  - apply Z.div_lt_upper_bound; [exact P|].
    rewrite <- Z.pow_add_r by lia. now replace (k + (d - k)) with d by lia.
Qed.

Lemma shr_exact (m e k : Z) :
  0 <= m -> 0 <= k ->
  shifted m k (fst (shr (Build_shr_record m false false) e k)) /\
  snd (shr (Build_shr_record m false false) e k) = e + k.
Proof.
  intros Hm Hk. destruct k as [|p|p]; cbn [shr fst snd]; [| |lia].
  - split; [apply shifted_0|lia].
  - split; [|reflexivity].
    apply (shifted_iter m p Hm 0); [lia|apply shifted_0].
Qed.

(** The mantissa after the first rounding, in the two ranges. *)
Lemma RNE_range (m e : Z) :
  0 < m -> e <= fexp64 (Zdigits2 m + e) ->
  let E := fexp64 (Zdigits2 m + e) in
  (E = Zdigits2 m + e - 53 /\ 2 ^ 52 <= RNE m (E - e) <= 2 ^ 53) \/
  (E = -1074 /\ Zdigits2 m + e - 53 < -1074 /\ 0 <= RNE m (E - e) <= 2 ^ 52).
Proof.
  intros Hm Hk E. pose proof (Zdigits2_bounds m Hm) as B.
  pose proof (Zdigits2_pos m Hm) as Hd.
  pose proof (RNE_bounds m (E - e)) as R.
  unfold fexp64 in *. subst E.
  destruct (Z.max_spec (Zdigits2 m + e - 53) (-1074)) as [[Hlt Hmax]|[Hge Hmax]];
    rewrite Hmax in *.
  - right. split; [reflexivity|]. split; [lia|].
    assert (P : 0 < 2 ^ (-1074 - e)) by (apply Z.pow_pos_nonneg; lia).
    assert (Q : m / 2 ^ (-1074 - e) < 2 ^ 52).
    { apply Z.div_lt_upper_bound; [exact P|].
      rewrite <- Z.pow_add_r by lia.
      apply Z.lt_le_trans with (2 ^ Zdigits2 m); [lia|].
      apply Z.pow_le_mono_r; lia. }
    assert (0 <= m / 2 ^ (-1074 - e)) by (apply Z.div_pos; lia).
    lia.
  - left. split; [reflexivity|].
    replace (Zdigits2 m + e - 53 - e) with (Zdigits2 m - 53) in * by lia.
    destruct (Z.eq_dec (Zdigits2 m) 53) as [E53|N53].
    + rewrite E53 in *. change (53 - 53) with 0 in *. change (2 ^ 0) with 1 in *.
      rewrite Z.div_1_r in R. change (53 - 1) with 52 in B. lia.
    + pose proof (div_pow2_bounds m (Zdigits2 m) (Zdigits2 m - 53)
                    ltac:(lia) ltac:(lia) B) as D.
      replace (Zdigits2 m - 1 - (Zdigits2 m - 53)) with 52 in D by lia.
      replace (Zdigits2 m - (Zdigits2 m - 53)) with 53 in D by lia.
      lia.
Qed.

Lemma binary_round_aux_exact (s : bool) (m : positive) (e : Z) :
  e <= fexp64 (Zdigits2 (Zpos m) + e) ->
  binary_round_aux prec emax s (Zpos m) e loc_Exact = RN s (Zpos m) e.
Proof.
  intros Hk. unfold binary_round_aux, RN, shr_fexp.
  rewrite !fexp64_eq. cbn [shr_record_of_loc].
  set (E := fexp64 (Zdigits2 (Zpos m) + e)) in *.
  assert (Hm : 0 <= Zpos m) by lia.
  assert (Hk' : 0 <= E - e) by (clearbody E; lia).
  destruct (shr_exact (Zpos m) e (E - e) Hm Hk') as [Sh Ee].
  destruct (shr (Build_shr_record (Zpos m) false false) e (E - e))
    as [mrs e'] eqn:E1. cbn [fst snd] in Sh, Ee.
  rewrite (round_shifted _ _ _ Hm Hk' Sh).
  replace e' with E by (clearbody E; lia).
  rewrite ?fexp64_eq.
  assert (HEmin : -1074 <= E) by (unfold E, fexp64; lia).
  destruct (RNE_range (Zpos m) e ltac:(lia) Hk) as [[HE R]|[HE [Hs R]]];
    fold E in HE, R; set (q := RNE (Zpos m) (E - e)) in *; unfold finish;
    clearbody q; clearbody E.
  - destruct (Z.eqb_spec q (2 ^ 53)) as [Eq|Nq].
    + rewrite Eq. change (Zdigits2 (2 ^ 53)) with 54.
      replace (fexp64 (54 + E) - E) with 1 by (unfold fexp64; lia).
      change (2 ^ 53) with 9007199254740992.
      cbn [shr SpecFloat.iter_pos shr_1 shr_m Z.add].
      reflexivity.
    + assert (D : Zdigits2 q = 53) by (apply Zdigits2_unique; lia).
      rewrite D. replace (fexp64 (53 + E) - E) with 0 by (unfold fexp64; lia).
      cbn [shr shr_m]. destruct q as [|p|p]; try lia. reflexivity.
  - assert (Nq : q <> 2 ^ 53) by lia.
    destruct (Z.eqb_spec q (2 ^ 53)) as [Eq|_]; [contradiction|].
    destruct (Z.eq_dec q 0) as [Z0|NZ].
    + rewrite Z0. change (Zdigits2 0) with 0.
      replace (fexp64 (0 + E) - E) with 0 by (unfold fexp64; lia).
      reflexivity.
    + assert (D : Zdigits2 q <= 53) by (apply Zdigits2_le; lia).
      pose proof (Zdigits2_pos q ltac:(lia)).
      replace (fexp64 (Zdigits2 q + E) - E) with 0 by (unfold fexp64; lia).
      cbn [shr shr_m]. destruct q as [|p|p]; try lia. reflexivity.
Qed.

(** *** Rescaling and monotonicity of [RN] *)

Lemma Zdigits2_mul_pow2 (m j : Z) :
  0 < m -> 0 <= j -> Zdigits2 (m * 2 ^ j) = Zdigits2 m + j.
Proof.
  intros Hm Hj. pose proof (Zdigits2_bounds m Hm) as [Bl Bu].
  pose proof (Zdigits2_pos m Hm) as Hd.
  assert (P : 0 < 2 ^ j) by (apply Z.pow_pos_nonneg; lia).
  apply Zdigits2_unique; [|lia]. split.
  - replace (Zdigits2 m + j - 1) with (Zdigits2 m - 1 + j) by lia.
    rewrite Z.pow_add_r by lia. nia.
  - rewrite Z.pow_add_r by lia. nia.
Qed.

Lemma compare_mul_r (a b c : Z) : 0 < c -> (a * c ?= b * c) = (a ?= b).
Proof.
  intros Hc. destruct (Z.compare_spec a b) as [H|H|H].
  - apply Z.compare_eq_iff. now subst.
  - apply Z.compare_lt_iff. nia.
  - apply Z.compare_gt_iff. nia.
Qed.

Lemma RNE_mul_pow2 (m k j : Z) :
  0 <= k -> 0 <= j -> RNE (m * 2 ^ j) (k + j) = RNE m k.
Proof.
  intros Hk Hj. unfold RNE.
  assert (P : 0 < 2 ^ j) by (apply Z.pow_pos_nonneg; lia).
  assert (Q : 0 < 2 ^ k) by (apply Z.pow_pos_nonneg; lia).
  rewrite (Z.pow_add_r 2 k j) by lia.
  rewrite Z.div_mul_cancel_r by lia.
  rewrite Z.mul_mod_distr_r by lia.
  replace (2 * (m mod 2 ^ k * 2 ^ j)) with (2 * (m mod 2 ^ k) * 2 ^ j) by lia.
  rewrite compare_mul_r by lia. reflexivity.
Qed.

Lemma RN_rescale (s : bool) (m e j : Z) :
  0 < m -> 0 <= j -> e <= fexp64 (Zdigits2 m + e) ->
  RN s (m * 2 ^ j) (e - j) = RN s m e.
Proof.
  intros Hm Hj Hk. unfold RN. rewrite Zdigits2_mul_pow2 by assumption.
  replace (Zdigits2 m + j + (e - j)) with (Zdigits2 m + e) by lia.
  replace (fexp64 (Zdigits2 m + e) - (e - j))
    with (fexp64 (Zdigits2 m + e) - e + j) by lia.
  rewrite RNE_mul_pow2 by lia. reflexivity.
Qed.

Lemma RNE_mono (m1 m2 k : Z) : 0 <= k -> m1 <= m2 -> RNE m1 k <= RNE m2 k.
Proof.
  intros Hk Hm. unfold RNE.
  assert (P : 0 < 2 ^ k) by (apply Z.pow_pos_nonneg; lia).
  pose proof (Z.div_le_mono m1 m2 (2 ^ k) P Hm) as D.
  pose proof (Z.div_mod m1 (2 ^ k) ltac:(lia)) as E1.
  pose proof (Z.div_mod m2 (2 ^ k) ltac:(lia)) as E2.
  pose proof (Z.mod_pos_bound m1 (2 ^ k) P) as B1.
  pose proof (Z.mod_pos_bound m2 (2 ^ k) P) as B2.
  destruct (Z.eq_dec (m1 / 2 ^ k) (m2 / 2 ^ k)) as [Eq|Ne].
  - rewrite Eq in *.
    assert (m1 mod 2 ^ k <= m2 mod 2 ^ k) by nia.
    destruct (Z.compare_spec (2 * (m1 mod 2 ^ k)) (2 ^ k)),
      (Z.compare_spec (2 * (m2 mod 2 ^ k)) (2 ^ k));
      destruct (Z.even (m2 / 2 ^ k)); lia.
  - assert (m1 / 2 ^ k + 1 <= m2 / 2 ^ k) by lia.
    destruct (2 * (m1 mod 2 ^ k) ?= 2 ^ k), (2 * (m2 mod 2 ^ k) ?= 2 ^ k);
      destruct (Z.even (m1 / 2 ^ k)), (Z.even (m2 / 2 ^ k)); lia.
Qed.

Lemma Zdigits2_mono (m1 m2 : Z) : 0 < m1 -> m1 <= m2 -> Zdigits2 m1 <= Zdigits2 m2.
Proof.
  intros H1 H2. pose proof (Zdigits2_bounds m1 H1) as [L1 U1].
  pose proof (Zdigits2_bounds m2 ltac:(lia)) as [L2 U2].
  pose proof (Zdigits2_pos m2 ltac:(lia)) as P2.
  destruct (Z.le_gt_cases (Zdigits2 m1) (Zdigits2 m2)) as [H|H]; [exact H|].
  assert (2 ^ Zdigits2 m2 <= 2 ^ (Zdigits2 m1 - 1)) by (apply Z.pow_le_mono_r; lia).
  lia.
Qed.

Lemma compare_cont_Eq (p q : positive) :
  Pos.compare_cont Eq p q = (Zpos p ?= Zpos q).
Proof. reflexivity. Qed.

(** Case analysis on a comparison of spec floats whose constructors are
    known: every comparison of exponents and mantissas is split. *)
Ltac sf_cases :=
  repeat match goal with
    | s : bool |- _ => destruct s
    end;
  cbn [SFcompare SFleb SFltb SFeqb];
  rewrite ?compare_cont_Eq;
  repeat match goal with
    | |- context [Z.compare ?a ?b] =>
        destruct (Z.compare_spec a b); cbn [CompOpp]
    end;
  intros; try discriminate; try reflexivity; try congruence; try lia.

Lemma finish_mono_q (q1 q2 E : Z) :
  0 <= q1 -> q1 <= q2 -> q2 <= 2 ^ 53 ->
  SFleb (finish false q1 E) (finish false q2 E) = true.
Proof.
  intros H0 H12 H2. unfold finish.
  assert (T : 2 ^ 53 = 2 * 2 ^ 52) by reflexivity.
  assert (P : 0 < 2 ^ 52) by reflexivity.
  revert H2 T P. generalize (2 ^ 53) (2 ^ 52). intros T53 T52 H2 T P.
  destruct T52 as [|t|t]; try lia.
  destruct (Z.eqb_spec q1 T53) as [E1|N1], (Z.eqb_spec q2 T53) as [E2|N2];
    try lia.
  - destruct (E + 1 <=? 971); sf_cases.
  - destruct q1 as [|p1|p1]; try lia;
      destruct (Z.leb_spec (E + 1) 971), (Z.leb_spec E 971); try lia; sf_cases.
  - destruct q1 as [|p1|p1], q2 as [|p2|p2]; try lia;
      destruct (Z.leb_spec E 971); sf_cases.
Qed.

Lemma finish_mono_E (q1 q2 E1 E2 : Z) :
  0 <= q1 <= 2 ^ 53 -> 2 ^ 52 <= q2 <= 2 ^ 53 -> E1 < E2 ->
  SFleb (finish false q1 E1) (finish false q2 E2) = true.
Proof.
  intros H1 H2 HE. unfold finish.
  assert (T : 2 ^ 53 = 2 * 2 ^ 52) by reflexivity.
  assert (P : 0 < 2 ^ 52) by reflexivity.
  revert H1 H2 T P. generalize (2 ^ 53) (2 ^ 52). intros T53 T52 H1 H2 T P.
  destruct T52 as [|t|t]; try lia.
  destruct (Z.eqb_spec q1 T53) as [Q1|N1], (Z.eqb_spec q2 T53) as [Q2|N2];
    destruct q1 as [|p1|p1], q2 as [|p2|p2]; try lia;
    repeat match goal with
      | |- context [Z.leb ?a ?b] => destruct (Z.leb_spec a b)
      end; try lia; sf_cases.
Qed.

Lemma fexp64_mono (a b : Z) : a <= b -> fexp64 a <= fexp64 b.
Proof. unfold fexp64. lia. Qed.

Lemma RN_mono (m1 m2 e : Z) :
  0 < m1 -> m1 <= m2 -> e <= fexp64 (Zdigits2 m1 + e) ->
  SFleb (RN false m1 e) (RN false m2 e) = true.
Proof.
  intros H1 H12 Hk.
  pose proof (Zdigits2_mono m1 m2 H1 H12) as D.
  pose proof (fexp64_mono (Zdigits2 m1 + e) (Zdigits2 m2 + e) ltac:(lia)) as HE.
  assert (Hk2 : e <= fexp64 (Zdigits2 m2 + e)) by lia.
  pose proof (RNE_range m1 e H1 Hk) as R1.
  pose proof (RNE_range m2 e ltac:(lia) Hk2) as R2.
  unfold RN. cbv zeta in R1, R2.
  assert (Hmin : -1074 <= fexp64 (Zdigits2 m1 + e)) by (unfold fexp64; lia).
  revert HE R1 R2 Hmin Hk Hk2.
  generalize (fexp64 (Zdigits2 m1 + e)) (fexp64 (Zdigits2 m2 + e)).
  intros E1 E2 HE R1 R2 Hmin Hk Hk2.
  destruct (Z.eq_dec E1 E2) as [<-|NE].
  - apply finish_mono_q.
    + destruct R1 as [[_ R]|[_ [_ R]]]; [|lia].
      assert (0 < 2 ^ 52) by reflexivity. lia.
    + apply RNE_mono; lia.
    + destruct R2 as [[_ R]|[_ [_ R]]]; [lia|].
      assert (2 ^ 52 < 2 ^ 53) by reflexivity. lia.
  - apply finish_mono_E; [| |lia].
    + assert (0 < 2 ^ 52 < 2 ^ 53) by (split; reflexivity).
      destruct R1 as [[_ R]|[_ [_ R]]]; lia.
    + destruct R2 as [[_ R]|[E2min _]]; [exact R|lia].
Qed.

(** *** Valid binary64 numbers and their order *)

Lemma bounded_canonical (m : positive) (e : Z) :
  bounded prec emax m e = true ->
  fexp64 (Zdigits2 (Zpos m) + e) = e /\ e <= 971.
Proof.
  unfold bounded, canonical_mantissa. rewrite fexp64_eq.
  intros H. apply andb_true_iff in H as [H1 H2].
  apply Z.eqb_eq in H1. apply Z.leb_le in H2. split; [exact H1|exact H2].
Qed.

Lemma RN_canonical (s : bool) (m : positive) (e : Z) :
  bounded prec emax m e = true -> RN s (Zpos m) e = S754_finite s m e.
Proof.
  intros H. destruct (bounded_canonical m e H) as [HE He].
  unfold RN. rewrite HE. replace (e - e) with 0 by lia.
  assert (R : RNE (Zpos m) 0 = Zpos m).
  { unfold RNE. change (2 ^ 0) with 1. rewrite Z.mod_1_r, Z.div_1_r. reflexivity. }
  rewrite R. unfold finish.
  pose proof (Zdigits2_bounds (Zpos m) ltac:(lia)) as [_ U].
  assert (D : Zdigits2 (Zpos m) <= 53) by (unfold fexp64 in HE; lia).
  assert (Zpos m < 2 ^ 53).
  { apply Z.lt_le_trans with (2 ^ Zdigits2 (Zpos m)); [exact U|].
    apply Z.pow_le_mono_r; lia. }
  destruct (Z.eqb_spec (Zpos m) (2 ^ 53)) as [Q|_]; [lia|].
  replace (e <=? 971) with true by (symmetry; apply Z.leb_le; lia).
  reflexivity.
Qed.

(** The order of two valid positive numbers is the order of their values. *)
Lemma canonical_le_value (m1 m2 : positive) (e1 e2 b : Z) :
  bounded prec emax m1 e1 = true -> bounded prec emax m2 e2 = true ->
  b <= e1 -> b <= e2 ->
  SFleb (S754_finite false m1 e1) (S754_finite false m2 e2) = true ->
  Zpos m1 * 2 ^ (e1 - b) <= Zpos m2 * 2 ^ (e2 - b).
Proof.
  intros B1 B2 Hb1 Hb2.
  destruct (bounded_canonical m1 e1 B1) as [C1 _].
  destruct (bounded_canonical m2 e2 B2) as [C2 _].
  pose proof (Zdigits2_bounds (Zpos m1) ltac:(lia)) as [L1 U1].
  pose proof (Zdigits2_bounds (Zpos m2) ltac:(lia)) as [L2 U2].
  unfold SFleb. cbn [SFcompare]. rewrite compare_cont_Eq.
  destruct (Z.compare_spec e1 e2) as [->|Hlt|Hgt].
  - destruct (Z.compare_spec (Zpos m1) (Zpos m2)); try discriminate; intros _;
      assert (0 < 2 ^ (e2 - b)) by (apply Z.pow_pos_nonneg; lia); nia.
  - intros _.
    assert (D2 : Zdigits2 (Zpos m2) = 53 + 0) by (unfold fexp64 in *; lia).
    assert (D1 : Zdigits2 (Zpos m1) <= 53) by (unfold fexp64 in *; lia).
    rewrite D2 in L2. change (53 + 0 - 1) with 52 in L2.
    assert (Zpos m1 < 2 ^ 53).
    { apply Z.lt_le_trans with (2 ^ Zdigits2 (Zpos m1)); [exact U1|].
      apply Z.pow_le_mono_r; lia. }
    replace (e2 - b) with (e1 - b + (e2 - e1)) by lia.
    rewrite Z.pow_add_r by lia.
    assert (0 < 2 ^ (e1 - b)) by (apply Z.pow_pos_nonneg; lia).
    assert (2 ^ 1 <= 2 ^ (e2 - e1)) by (apply Z.pow_le_mono_r; lia).
    change (2 ^ 1) with 2 in *.
    assert (T : 2 ^ 53 = 2 * 2 ^ 52) by reflexivity.
    revert H H0 H1 L2 T. generalize (2 ^ 53) (2 ^ 52) (2 ^ (e1 - b)) (2 ^ (e2 - e1)).
    intros T53 T52 P Q H H0 H1 L2 T.
    apply Z.le_trans with (T53 * P); [nia|].
    apply Z.le_trans with (Zpos m2 * (P * 2)); nia.
  - discriminate.
Qed.

(** *** The shape of a rounded number, and negation *)

Lemma RNE_nonneg (m k : Z) : 0 <= m -> 0 <= RNE m k.
Proof.
  intros Hm. pose proof (RNE_bounds m k) as B.
  assert (0 <= m / 2 ^ k).
  { destruct (Z.le_gt_cases 0 k) as [Hk|Hk].
    - apply Z.div_pos; [lia|]. apply Z.pow_pos_nonneg; lia.
    - rewrite Z.pow_neg_r by lia. now rewrite Z.div_0_r. }
  lia.
Qed.

Lemma finish_rounded (s : bool) (q E : Z) : 0 <= q -> rounded s (finish s q E).
Proof.
  intros Hq. unfold finish. assert (P : 0 < 2 ^ 52) by reflexivity.
  revert P. generalize (2 ^ 52) (2 ^ 53). intros T52 T53 P.
  destruct (q =? T53).
  - destruct T52 as [|t|t]; try lia. destruct (E + 1 <=? 971); constructor.
  - destruct q as [|p|p]; try lia; [constructor|].
    destruct (E <=? 971); constructor.
Qed.

Lemma RN_rounded (s : bool) (m e : Z) : 0 <= m -> rounded s (RN s m e).
Proof. intros Hm. apply finish_rounded. now apply RNE_nonneg. Qed.

Lemma finish_opp (q E : Z) : finish true q E = SFopp (finish false q E).
Proof.
  unfold finish. destruct (q =? 2 ^ 53).
  - destruct (2 ^ 52); try reflexivity. now destruct (E + 1 <=? 971).
  - destruct q; try reflexivity. now destruct (E <=? 971).
Qed.

Lemma RN_opp (m e : Z) : RN true m e = SFopp (RN false m e).
Proof. apply finish_opp. Qed.

Lemma SFcompare_opp (a b : spec_float) :
  SFcompare (SFopp a) (SFopp b) = SFcompare b a.
Proof.
  destruct a as [sa|sa| |sa ma ea], b as [sb|sb| |sb mb eb];
    cbn [SFopp]; try reflexivity; sf_cases.
Qed.

Lemma RN_mono_neg (m1 m2 e : Z) :
  0 < m1 -> m1 <= m2 -> e <= fexp64 (Zdigits2 m1 + e) ->
  SFleb (RN true m2 e) (RN true m1 e) = true.
Proof.
  intros H1 H12 Hk. rewrite !RN_opp. unfold SFleb. rewrite SFcompare_opp.
  now apply RN_mono.
Qed.

(** A number that is not negative is never below one that is not positive. *)
Lemma rounded_signs (a b : spec_float) :
  rounded false a -> rounded true b -> SFltb a b = false.
Proof. intros [] []; reflexivity. Qed.

Lemma SFltb_of_leb (a b : spec_float) : SFleb a b = true -> SFltb b a = false.
Proof.
  unfold SFleb, SFltb.
  destruct a as [sa|sa| |sa ma ea], b as [sb|sb| |sb mb eb]; sf_cases.
Qed.

(** *** Multiplication *)

Lemma Zdigits2_pow2 (n : Z) : 0 <= n -> Zdigits2 (2 ^ n) = n + 1.
Proof.
  intros Hn. apply Zdigits2_unique; [|lia].
  replace (n + 1 - 1) with n by lia. split; [lia|].
  apply Z.pow_lt_mono_r; lia.
Qed.

Lemma product_shift (mx mc : positive) (ex ec : Z) :
  bounded prec emax mx ex = true -> bounded prec emax mc ec = true ->
  ex + ec <= fexp64 (Zdigits2 (Zpos mx * Zpos mc) + (ex + ec)).
Proof.
  intros Bx Bc.
  destruct (bounded_canonical mx ex Bx) as [Cx _].
  destruct (bounded_canonical mc ec Bc) as [Cc _].
  pose proof (Zdigits2_bounds (Zpos mx) ltac:(lia)) as [Lx _].
  pose proof (Zdigits2_bounds (Zpos mc) ltac:(lia)) as [Lc _].
  pose proof (Zdigits2_pos (Zpos mx) ltac:(lia)) as Px.
  pose proof (Zdigits2_pos (Zpos mc) ltac:(lia)) as Pc.
  assert (D : Zdigits2 (Zpos mx) + Zdigits2 (Zpos mc) - 1
              <= Zdigits2 (Zpos mx * Zpos mc)).
  { assert (Hn : 0 <= Zdigits2 (Zpos mx) - 1 + (Zdigits2 (Zpos mc) - 1)) by lia.
    assert (Hp : 2 ^ (Zdigits2 (Zpos mx) - 1 + (Zdigits2 (Zpos mc) - 1))
                 <= Zpos mx * Zpos mc)
      by (rewrite Z.pow_add_r by lia; nia).
    pose proof (Zdigits2_mono _ _ (Z.pow_pos_nonneg 2 _ ltac:(lia) Hn) Hp) as M.
    rewrite Zdigits2_pow2 in M by lia. lia. }
  unfold fexp64 in *. lia.
Qed.

Lemma SFmul_finite (sx : bool) (mx mc : positive) (ex ec : Z) :
  bounded prec emax mx ex = true -> bounded prec emax mc ec = true ->
  SFmul prec emax (S754_finite sx mx ex) (S754_finite false mc ec)
  = RN sx (Zpos mx * Zpos mc) (ex + ec).
Proof.
  intros Bx Bc. cbn [SFmul]. rewrite xorb_false_r.
  rewrite binary_round_aux_exact; [now rewrite Pos2Z.inj_mul|].
  rewrite Pos2Z.inj_mul. now apply product_shift.
Qed.

Lemma product_mono (mx my mc : positive) (ex ey ec : Z) :
  bounded prec emax mx ex = true -> bounded prec emax my ey = true ->
  bounded prec emax mc ec = true ->
  SFleb (S754_finite false mx ex) (S754_finite false my ey) = true ->
  SFleb (RN false (Zpos mx * Zpos mc) (ex + ec))
        (RN false (Zpos my * Zpos mc) (ey + ec)) = true.
Proof.
  intros Bx By Bc Hle.
  pose proof (product_shift mx mc ex ec Bx Bc) as Kx.
  pose proof (product_shift my mc ey ec By Bc) as Ky.
  set (b := Z.min ex ey).
  pose proof (canonical_le_value mx my ex ey b Bx By ltac:(lia) ltac:(lia) Hle) as V.
  rewrite <- (RN_rescale false (Zpos mx * Zpos mc) (ex + ec) (ex - b))
    by (try assumption; lia).
  rewrite <- (RN_rescale false (Zpos my * Zpos mc) (ey + ec) (ey - b))
    by (try assumption; lia).
  replace (ex + ec - (ex - b)) with (b + ec) by lia.
  replace (ey + ec - (ey - b)) with (b + ec) by lia.
  assert (Px : 0 < 2 ^ (ex - b)) by (apply Z.pow_pos_nonneg; lia).
  apply RN_mono; [nia|nia|].
  rewrite Zdigits2_mul_pow2 by lia.
  replace (Zdigits2 (Zpos mx * Zpos mc) + (ex - b) + (b + ec))
    with (Zdigits2 (Zpos mx * Zpos mc) + (ex + ec)) by lia.
  lia.
Qed.

Lemma SFltb_infinity_l (r : spec_float) : SFltb (S754_infinity false) r = false.
Proof. destruct r as [s|s| |s m e]; try reflexivity; now destruct s. Qed.

Lemma SFltb_infinity_r (r : spec_float) : SFltb r (S754_infinity true) = false.
Proof. destruct r as [s|s| |s m e]; try reflexivity; now destruct s. Qed.

Lemma SFltb_nan_l (r : spec_float) : SFltb S754_nan r = false.
Proof. reflexivity. Qed.

Lemma SFltb_nan_r (r : spec_float) : SFltb r S754_nan = false.
Proof. now destruct r. Qed.

Lemma SFleb_of_not_ltb_finite (sa sb : bool) (ma mb : positive) (ea eb : Z) :
  SFltb (S754_finite sb mb eb) (S754_finite sa ma ea) = false ->
  SFleb (S754_finite sa ma ea) (S754_finite sb mb eb) = true.
Proof. unfold SFltb, SFleb. sf_cases. Qed.

Lemma SFleb_abs_neg (ma mb : positive) (ea eb : Z) :
  SFleb (S754_finite true ma ea) (S754_finite true mb eb) = true ->
  SFleb (S754_finite false mb eb) (S754_finite false ma ea) = true.
Proof. unfold SFleb. sf_cases. Qed.

Theorem SFmul_mono (x y c : spec_float) :
  valid_binary x = true -> valid_binary y = true -> valid_binary c = true ->
  SFleb (S754_zero false) c = true ->
  SFltb y x = false ->
  SFltb (SFmul prec emax y c) (SFmul prec emax x c) = false.
Proof.
  intros Vx Vy Vc Hc Hxy.
  destruct c as [sc|sc| |sc mc ec]; try discriminate.
  - destruct x as [sx|sx| |sx mx ex], y as [sy|sy| |sy my ey]; reflexivity.
  - destruct sc; [discriminate|].
    destruct x as [sx|sx| |sx mx ex], y as [sy|sy| |sy my ey];
      try reflexivity; revert Hxy; sf_cases.
  - destruct sc; [discriminate|]. cbn [valid_binary] in Vc.
    destruct x as [sx|sx| |sx mx ex]; cbn [valid_binary] in Vx.
    + (* x is a zero *)
      destruct y as [sy|sy| |sy my ey]; cbn [valid_binary] in Vy;
        try reflexivity.
      * destruct sy; [discriminate|]. cbn [SFmul]. now destruct sx.
      * destruct sy; [discriminate|]. rewrite SFmul_finite by assumption.
        cbn [SFmul].
        destruct (RN_rounded false (Zpos my * Zpos mc) (ey + ec) ltac:(lia));
          now destruct sx.
    + (* x is an infinity *)
      destruct sx.
      * cbn [SFmul xorb]. apply SFltb_infinity_r.
      * destruct y as [sy|sy| |sy my ey]; try discriminate; try reflexivity;
          destruct sy; (discriminate || reflexivity).
    + (* x is NaN *)
      cbn [SFmul]. destruct y; apply SFltb_nan_r.
    + (* x is finite *)
      destruct y as [sy|sy| |sy my ey]; cbn [valid_binary] in Vy.
      * destruct sx; [|discriminate]. rewrite SFmul_finite by assumption.
        cbn [SFmul].
        destruct (RN_rounded true (Zpos mx * Zpos mc) (ex + ec) ltac:(lia));
          now destruct sy.
      * destruct sy; [now destruct sx|]. cbn [SFmul xorb].
        apply SFltb_infinity_l.
      * reflexivity.
      * rewrite !SFmul_finite by assumption.
        apply SFleb_of_not_ltb_finite in Hxy.
        destruct sx, sy.
        -- apply SFltb_of_leb. rewrite !RN_opp. unfold SFleb.
           rewrite SFcompare_opp. apply product_mono; try assumption.
           now apply SFleb_abs_neg.
        -- apply rounded_signs; apply RN_rounded; lia.
        -- discriminate.
        -- apply SFltb_of_leb. now apply product_mono.
Qed.

(** *** Addition *)

Lemma iter_xO (m d : positive) : Zpos (Pos.iter xO m d) = Zpos m * 2 ^ Zpos d.
Proof.
  induction d as [|d IH] using Pos.peano_ind.
  - cbn [Pos.iter]. rewrite Pos2Z.inj_xO. change (2 ^ 1) with 2. lia.
  - rewrite Pos.iter_succ, Pos2Z.inj_xO, IH, Pos2Z.inj_succ.
    rewrite Z.pow_succ_r by lia. lia.
Qed.

Lemma shl_align_value (m : positive) (e e' : Z) :
  e' <= e -> Zpos (fst (shl_align m e e')) = Zpos m * 2 ^ (e - e').
Proof.
  intros H. unfold shl_align.
  destruct (e' - e) as [|p|p] eqn:D; cbn [fst]; try lia.
  - replace (e - e') with 0 by lia. change (2 ^ 0) with 1. lia.
  - rewrite iter_xO. replace (e - e') with (Zpos p) by lia. reflexivity.
Qed.

Lemma binary_round_value (s : bool) (m : positive) (e : Z) :
  -1074 <= e ->
  binary_round prec emax s m e = RN s (Zpos m * 2 ^ (e + 1074)) (-1074).
Proof.
  intros He. unfold binary_round. rewrite fexp64_eq.
  change (Zpos (digits2_pos m)) with (Zdigits2 (Zpos m)).
  set (E := fexp64 (Zdigits2 (Zpos m) + e)).
  assert (HE : -1074 <= E) by (unfold E, fexp64; lia).
  assert (EE : E = fexp64 (Zdigits2 (Zpos m) + e)) by reflexivity.
  clearbody E. unfold shl_align.
  destruct (E - e) as [|p|p] eqn:D.
  - rewrite binary_round_aux_exact by lia.
    rewrite <- (RN_rescale s (Zpos m) e (e + 1074)) by lia.
    now replace (e - (e + 1074)) with (-1074) by lia.
  - rewrite binary_round_aux_exact by lia.
    rewrite <- (RN_rescale s (Zpos m) e (e + 1074)) by lia.
    now replace (e - (e + 1074)) with (-1074) by lia.
  - assert (K : Zdigits2 (Zpos (Pos.iter xO m p)) + E = Zdigits2 (Zpos m) + e).
    { rewrite iter_xO, Zdigits2_mul_pow2 by lia. lia. }
    rewrite binary_round_aux_exact by (rewrite K; lia).
    rewrite <- (RN_rescale s (Zpos (Pos.iter xO m p)) E (E + 1074))
      by (try rewrite K; lia).
    replace (E - (E + 1074)) with (-1074) by lia.
    rewrite iter_xO, <- Z.mul_assoc, <- Z.pow_add_r by lia.
    now replace (Zpos p + (E + 1074)) with (e + 1074) by lia.
Qed.

Lemma binary_normalize_value (M e : Z) :
  -1074 <= e ->
  binary_normalize prec emax M e false = norm (M * 2 ^ (e + 1074)).
Proof.
  intros He. assert (P : 0 < 2 ^ (e + 1074)) by (apply Z.pow_pos_nonneg; lia).
  unfold norm. destruct M as [|p|p]; cbn [binary_normalize].
  - reflexivity.
  - destruct (Z.eqb_spec (Zpos p * 2 ^ (e + 1074)) 0); [nia|].
    destruct (Z.ltb_spec 0 (Zpos p * 2 ^ (e + 1074))); [|nia].
    now apply binary_round_value.
  - destruct (Z.eqb_spec (Zneg p * 2 ^ (e + 1074)) 0); [nia|].
    destruct (Z.ltb_spec 0 (Zneg p * 2 ^ (e + 1074))); [nia|].
    rewrite binary_round_value by assumption. f_equal. lia.
Qed.

Lemma SFadd_finite (sx sz : bool) (mx mz : positive) (ex ez : Z) :
  bounded prec emax mx ex = true -> bounded prec emax mz ez = true ->
  SFadd prec emax (S754_finite sx mx ex) (S754_finite sz mz ez)
  = norm (sval (S754_finite sx mx ex) + sval (S754_finite sz mz ez)).
Proof.
  intros Bx Bz.
  destruct (bounded_canonical mx ex Bx) as [Cx _].
  destruct (bounded_canonical mz ez Bz) as [Cz _].
  assert (Hx : -1074 <= ex) by (unfold fexp64 in Cx; lia).
  assert (Hz : -1074 <= ez) by (unfold fexp64 in Cz; lia).
  cbn [SFadd sval]. rewrite binary_normalize_value by lia.
  rewrite !shl_align_value by lia. f_equal.
  rewrite Z.mul_add_distr_r. f_equal.
  - destruct sx; cbn [cond_Zopp]; rewrite ?Z.mul_opp_l, <- Z.mul_assoc,
      <- Z.pow_add_r by lia;
      now replace (ex - Z.min ex ez + (Z.min ex ez + 1074)) with (ex + 1074) by lia.
  - destruct sz; cbn [cond_Zopp]; rewrite ?Z.mul_opp_l, <- Z.mul_assoc,
      <- Z.pow_add_r by lia;
      now replace (ez - Z.min ex ez + (Z.min ex ez + 1074)) with (ez + 1074) by lia.
Qed.

Lemma fexp64_min (e : Z) : -1074 <= fexp64 e.
Proof. unfold fexp64. lia. Qed.

Lemma rounded_leb_signs (a b : spec_float) :
  rounded true a -> rounded false b -> SFleb a b = true.
Proof. intros [] []; reflexivity. Qed.

Lemma rounded_leb_zero_r (a : spec_float) :
  rounded true a -> SFleb a (S754_zero false) = true.
Proof. intros []; reflexivity. Qed.

Lemma rounded_leb_zero_l (b : spec_float) :
  rounded false b -> SFleb (S754_zero false) b = true.
Proof. intros []; reflexivity. Qed.

Lemma norm_mono (N1 N2 : Z) : N1 <= N2 -> SFleb (norm N1) (norm N2) = true.
Proof.
  intros H. unfold norm.
  destruct (Z.eqb_spec N1 0) as [Z1|NZ1], (Z.eqb_spec N2 0) as [Z2|NZ2].
  - reflexivity.
  - destruct (Z.ltb_spec 0 N2); [|lia].
    apply rounded_leb_zero_l, RN_rounded. lia.
  - destruct (Z.ltb_spec 0 N1); [lia|].
    apply rounded_leb_zero_r, RN_rounded. lia.
  - destruct (Z.ltb_spec 0 N1), (Z.ltb_spec 0 N2); try lia.
    + apply RN_mono; [lia|lia|apply fexp64_min].
    + apply rounded_leb_signs; apply RN_rounded; lia.
    + apply RN_mono_neg; [lia|lia|apply fexp64_min].
Qed.

Lemma norm_canonical (s : bool) (m : positive) (e : Z) :
  bounded prec emax m e = true ->
  norm (sval (S754_finite s m e)) = S754_finite s m e.
Proof.
  intros B. destruct (bounded_canonical m e B) as [C _].
  assert (He : -1074 <= e) by (unfold fexp64 in C; lia).
  assert (P : 0 < 2 ^ (e + 1074)) by (apply Z.pow_pos_nonneg; lia).
  assert (R : RN s (Zpos m * 2 ^ (e + 1074)) (-1074) = S754_finite s m e).
  { rewrite <- (RN_canonical s m e B).
    rewrite <- (RN_rescale s (Zpos m) e (e + 1074)) by lia.
    now replace (e - (e + 1074)) with (-1074) by lia. }
  unfold norm, sval. destruct s; cbn [cond_Zopp].
  - destruct (Z.eqb_spec (- (Zpos m * 2 ^ (e + 1074))) 0); [nia|].
    destruct (Z.ltb_spec 0 (- (Zpos m * 2 ^ (e + 1074)))); [nia|].
    now rewrite Z.opp_involutive.
  - destruct (Z.eqb_spec (Zpos m * 2 ^ (e + 1074)) 0); [nia|].
    destruct (Z.ltb_spec 0 (Zpos m * 2 ^ (e + 1074))); [|nia].
    exact R.
Qed.

Lemma SFltb_same_value (a a' b b' : spec_float) :
  same_value a a' -> same_value b b' -> SFltb a b = SFltb a' b'.
Proof.
  intros [->|(s & s' & -> & ->)] [->|(t & t' & -> & ->)]; try reflexivity.
Qed.

Lemma SFadd_value (x z : spec_float) :
  valid_binary x = true -> valid_binary z = true ->
  is_finite_or_zero x = true -> is_finite_or_zero z = true ->
  same_value (SFadd prec emax x z) (norm (sval x + sval z)).
Proof.
  intros Vx Vz Fx Fz.
  destruct x as [sx|sx| |sx mx ex], z as [sz|sz| |sz mz ez]; try discriminate.
  - right. cbn [SFadd sval]. change (norm (0 + 0)) with (S754_zero false).
    destruct sx, sz; eauto.
  - left. cbn [SFadd]. change (sval (S754_zero sx)) with 0. rewrite Z.add_0_l.
    symmetry. now apply norm_canonical.
  - left. cbn [SFadd]. change (sval (S754_zero sz)) with 0. rewrite Z.add_0_r.
    symmetry. now apply norm_canonical.
  - left. now apply SFadd_finite.
Qed.

Lemma sval_mono (x y : spec_float) :
  valid_binary x = true -> valid_binary y = true ->
  is_finite_or_zero x = true -> is_finite_or_zero y = true ->
  SFltb y x = false -> sval x <= sval y.
Proof.
  intros Vx Vy Fx Fy.
  destruct x as [sx|sx| |sx mx ex], y as [sy|sy| |sy my ey]; try discriminate;
    cbn [sval valid_binary] in *.
  - destruct sy; [discriminate|]. intros _. cbn [cond_Zopp].
    assert (0 <= 2 ^ (ey + 1074)) by (apply Z.pow_nonneg; lia). nia.
  - destruct sx; [|discriminate]. intros _. cbn [cond_Zopp].
    assert (0 <= 2 ^ (ex + 1074)) by (apply Z.pow_nonneg; lia). nia.
  - intros H. apply SFleb_of_not_ltb_finite in H.
    destruct (bounded_canonical mx ex Vx) as [Cx _].
    destruct (bounded_canonical my ey Vy) as [Cy _].
    assert (Hx : -1074 <= ex) by (unfold fexp64 in Cx; lia).
    assert (Hy : -1074 <= ey) by (unfold fexp64 in Cy; lia).
    assert (0 <= 2 ^ (ex + 1074)) by (apply Z.pow_nonneg; lia).
    assert (0 <= 2 ^ (ey + 1074)) by (apply Z.pow_nonneg; lia).
    destruct sx, sy; cbn [cond_Zopp].
    + apply SFleb_abs_neg in H.
      pose proof (canonical_le_value my mx ey ex (-1074) Vy Vx Hy Hx H) as V.
      replace (ey - -1074) with (ey + 1074) in V by lia.
      replace (ex - -1074) with (ex + 1074) in V by lia. lia.
    + nia.
    + discriminate.
    + pose proof (canonical_le_value mx my ex ey (-1074) Vx Vy Hx Hy H) as V.
      replace (ey - -1074) with (ey + 1074) in V by lia.
      replace (ex - -1074) with (ex + 1074) in V by lia. lia.
Qed.

Theorem SFadd_mono (x y z : spec_float) :
  valid_binary x = true -> valid_binary y = true -> valid_binary z = true ->
  SFltb y x = false ->
  SFltb (SFadd prec emax y z) (SFadd prec emax x z) = false.
Proof.
  intros Vx Vy Vz Hxy.
  destruct (is_finite_or_zero x) eqn:Fx, (is_finite_or_zero y) eqn:Fy,
    (is_finite_or_zero z) eqn:Fz.
  1: { rewrite (SFltb_same_value _ _ _ _ (SFadd_value y z Vy Vz Fy Fz)
               (SFadd_value x z Vx Vz Fx Fz)).
       apply SFltb_of_leb, norm_mono.
       pose proof (sval_mono x y Vx Vy Fx Fy Hxy). lia. }
  all: destruct x as [sx|sx| |sx mx ex], y as [sy|sy| |sy my ey],
      z as [sz|sz| |sz mz ez]; try discriminate;
    repeat match goal with s : bool |- _ => destruct s end;
    try discriminate; cbn [SFadd]; try reflexivity;
    try apply SFltb_infinity_r; try apply SFltb_infinity_l;
    try apply SFltb_nan_l; try apply SFltb_nan_r.
Qed.

Lemma SFadd_comm (x y : spec_float) : SFadd prec emax x y = SFadd prec emax y x.
Proof.
  destruct x as [sx|sx| |sx mx ex], y as [sy|sy| |sy my ey]; cbn [SFadd];
    try reflexivity; try (destruct sx, sy; reflexivity).
  rewrite (Z.min_comm ey ex). f_equal. apply Z.add_comm.
Qed.

(** *** Primitive floats *)

Lemma float_add_mono_l (x y z : float) :
  (y <? x)%float = false -> (y + z <? x + z)%float = false.
Proof.
  rewrite !ltb_spec, !add_spec. apply SFadd_mono; apply Prim2SF_valid.
Qed.

Lemma float_add_mono_r (x y z : float) :
  (y <? x)%float = false -> (z + y <? z + x)%float = false.
Proof.
  rewrite !ltb_spec, !add_spec. unfold SF64add.
  rewrite (SFadd_comm (Prim2SF z) (Prim2SF y)), (SFadd_comm (Prim2SF z) (Prim2SF x)).
  apply SFadd_mono; apply Prim2SF_valid.
Qed.

Lemma float_mul_mono (x y c : float) :
  (0 <=? c)%float = true -> (y <? x)%float = false ->
  (y * c <? x * c)%float = false.
Proof.
  rewrite leb_spec, !ltb_spec, !mul_spec.
  apply SFmul_mono; apply Prim2SF_valid.
Qed.

(** *** The order of binary64 numbers *)

Lemma SFcompare_trans (c : comparison) (x y z : spec_float) :
  SFcompare x y = Some c -> SFcompare y z = Some c -> SFcompare x z = Some c.
Proof.
  destruct c, x as [sx|sx| |sx mx ex], y as [sy|sy| |sy my ey],
    z as [sz|sz| |sz mz ez]; cbn [SFcompare]; try discriminate;
    try reflexivity; sf_cases.
Qed.

Lemma SFcompare_Eq_r (c : comparison) (x y z : spec_float) :
  SFcompare x y = Some c -> SFcompare y z = Some Eq -> SFcompare x z = Some c.
Proof.
  destruct c, x as [sx|sx| |sx mx ex], y as [sy|sy| |sy my ey],
    z as [sz|sz| |sz mz ez]; cbn [SFcompare]; try discriminate;
    try reflexivity; sf_cases.
Qed.

Lemma SFcompare_antisym (x y : spec_float) :
  SFcompare y x = option_map CompOpp (SFcompare x y).
Proof.
  destruct x as [sx|sx| |sx mx ex], y as [sy|sy| |sy my ey];
    cbn [SFcompare option_map CompOpp]; try reflexivity; sf_cases.
Qed.

Lemma float_ltb_leb_false (x y : float) :
  (x <? y)%float = true -> (y <=? x)%float = false.
Proof.
  rewrite ltb_spec, leb_spec. unfold SFltb, SFleb.
  rewrite (SFcompare_antisym (Prim2SF x) (Prim2SF y)).
  destruct (SFcompare (Prim2SF x) (Prim2SF y)) as [[| |]|]; now cbn.
Qed.

Lemma float_ltb_leb_trans (x y z : float) :
  (x <? y)%float = true -> (y <=? z)%float = true -> (x <? z)%float = true.
Proof.
  rewrite !ltb_spec, leb_spec. unfold SFltb, SFleb.
  destruct (SFcompare (Prim2SF x) (Prim2SF y)) as [[| |]|] eqn:E1;
    try discriminate.
  destruct (SFcompare (Prim2SF y) (Prim2SF z)) as [[| |]|] eqn:E2;
    try discriminate; intros _ _.
  - now rewrite (SFcompare_Eq_r _ _ _ _ E1 E2).
  - now rewrite (SFcompare_trans _ _ _ _ E1 E2).
Qed.

Lemma float_leb_above (a b s : float) :
  (a <? b)%float = true -> (s <? a)%float = true -> (b <=? s)%float = false.
Proof.
  intros Hab Hs. destruct (b <=? s)%float eqn:E; [|reflexivity].
  pose proof (float_ltb_leb_trans _ _ _ Hab E) as H.
  apply float_ltb_leb_false in H.
  rewrite ltb_spec in Hs. rewrite leb_spec in H. unfold SFltb, SFleb in *.
  destruct (SFcompare (Prim2SF s) (Prim2SF a)) as [[| |]|]; discriminate.
Qed.

Lemma float_leb_not_ltb (x y : float) :
  (x <=? y)%float = true -> (y <? x)%float = false.
Proof.
  rewrite leb_spec, ltb_spec. apply SFltb_of_leb.
Qed.


Lemma float_ltb_leb (x y : float) :
  (x <? y)%float = true → (x <=? y)%float = true.
Proof.
  rewrite ltb_spec, leb_spec. unfold SFltb, SFleb.
  destruct (SFcompare (Prim2SF x) (Prim2SF y)) as [[| |]|]; now cbn.
Qed.

(** [max(0.5, x)] is never negative, whatever [x] is. *)
Lemma py_max_nonneg (x : float) : (0 <=? py_max 0.5 x)%float = true.
Proof.
  unfold py_max. destruct (0.5 <? x)%float eqn:E; [|reflexivity].
  apply float_ltb_leb.
  apply (float_ltb_leb_trans 0 0.5 x); [reflexivity|].
  now apply float_ltb_leb.
Qed.

(** ** The result and clock monads *)

Lemma result_bind_ok {A B} (m : result A) (f : A → result B) (b : B) :
  (m ≫= f) = Ok b → ∃ a, m = Ok a ∧ f a = Ok b.
Proof. destruct m as [a|e]; [eauto|discriminate]. Qed.

Lemma Clk_bind_eq {A B} (m : Clk A) (f : A → Clk B) (n : nat) :
  (m ≫= f) n =
  match m n with
  | (Ok a, n') => f a n'
  | (Raise e, n') => (Raise e, n')
  end.
Proof. reflexivity. Qed.

(** One step of a computation that returned: the first bound computation
    returned too. *)
Ltac clk_step H :=
  rewrite Clk_bind_eq in H;
  match type of H with
  | match ?m ?n with _ => _ end = _ =>
      let E := fresh "E" in
      destruct (m n) as [[?|?] ?] eqn:E; [|discriminate H]
  end.

(** ** Comparisons of Python values *)

Lemma py_eq_str (v : pyval) (s : string) :
  py_eq v (VStr s) = match v with VStr t => String.eqb t s | _ => false end.
Proof.
  destruct v as [| b | z | f | t | t | l | d]; try reflexivity.
  cbn. destruct (float_val f); reflexivity.
Qed.

Lemma xreal_compare_antisym (x y : xreal) :
  xreal_compare y x = CompOpp (xreal_compare x y).
Proof.
  destruct x, y; try reflexivity. cbn. symmetry. apply Qcompare_antisym.
Qed.

Lemma xreal_compare_Lt_trans (x y z : xreal) :
  xreal_compare x y = Lt → xreal_compare y z = Lt → xreal_compare x z = Lt.
Proof.
  destruct x, y, z; cbn; try discriminate; try reflexivity.
  rewrite <- !Qlt_alt. apply Qlt_trans.
Qed.

Lemma lt_val_irrefl (a : option xreal) : lt_val a a = false.
Proof.
  destruct a as [x|]; [|reflexivity]. cbn.
  pose proof (xreal_compare_antisym x x) as H.
  destruct (xreal_compare x x); try reflexivity; discriminate.
Qed.

Lemma lt_val_asym (a b : option xreal) : lt_val a b = true → lt_val b a = false.
Proof.
  destruct a as [x|], b as [y|]; cbn; try discriminate; try reflexivity.
  rewrite (xreal_compare_antisym x y).
  destruct (xreal_compare x y); cbn; congruence.
Qed.

Lemma lt_val_trans (a b c : option xreal) :
  lt_val a b = true → lt_val b c = true → lt_val a c = true.
Proof.
  destruct a as [x|], b as [y|], c as [z|]; cbn; try discriminate.
  destruct (xreal_compare x y) eqn:E1; try discriminate.
  destruct (xreal_compare y z) eqn:E2; try discriminate.
  now rewrite (xreal_compare_Lt_trans _ _ _ E1 E2).
Qed.

(** The greater of three, taken two at a time, is below none of them. *)
Lemma lt_val_max3 {A} (f : A → option xreal) (p d1 d2 x : A) :
  x = p ∨ x = d1 ∨ x = d2 →
  lt_val
    (f (if lt_val (f (if lt_val (f p) (f d1) then d1 else p)) (f d2)
        then d2 else if lt_val (f p) (f d1) then d1 else p))
    (f x) = false.
Proof.
  intros Hx. destruct (lt_val (f p) (f d1)) eqn:Hab.
  - destruct (lt_val (f d1) (f d2)) eqn:Hbc;
      destruct Hx as [-> | [-> | ->]].
    + apply lt_val_asym. by apply (lt_val_trans _ (f d1)).
    + by apply lt_val_asym.
    + apply lt_val_irrefl.
    + by apply lt_val_asym.
    + apply lt_val_irrefl.
    + exact Hbc.
  - destruct (lt_val (f p) (f d2)) eqn:Hac;
      destruct Hx as [-> | [-> | ->]].
    + by apply lt_val_asym.
    + destruct (lt_val (f d2) (f d1)) eqn:Hcb; [|reflexivity].
      by rewrite (lt_val_trans _ _ _ Hac Hcb) in Hab.
    + apply lt_val_irrefl.
    + apply lt_val_irrefl.
    + exact Hab.
    + exact Hac.
Qed.

Lemma xle_trans (x y z : xreal) : xle x y → xle y z → xle x z.
Proof.
  unfold xle. destruct x, y, z; cbn; try congruence.
  rewrite <- !Qle_alt. apply Qle_trans.
Qed.

Lemma xle_of_lt (x y : xreal) : xreal_compare x y = Lt → xle x y.
Proof. unfold xle. congruence. Qed.

Lemma xle_of_not_lt (x y : xreal) : xreal_compare x y ≠ Lt → xle y x.
Proof.
  unfold xle. rewrite (xreal_compare_antisym x y).
  destruct (xreal_compare x y); cbn; congruence.
Qed.

Lemma py_lt_numbers (a b : pyval) :
  is_number a = true → is_number b = true →
  py_lt a b = Ok (lt_val (num_val a) (num_val b)).
Proof.
  destruct a, b; try discriminate; intros _ _; cbn;
    repeat match goal with |- context [float_val ?f] => destruct (float_val f) end;
    reflexivity.
Qed.

Lemma py_gt_numbers (a b : pyval) :
  is_number a = true → is_number b = true →
  py_gt a b = Ok (lt_val (num_val b) (num_val a)).
Proof. intros Ha Hb. unfold py_gt. now apply py_lt_numbers. Qed.

Lemma py_eq_numbers (a b : pyval) (x y : xreal) :
  is_number a = true → is_number b = true →
  num_val a = Some x → num_val b = Some y →
  lt_val (Some x) (Some y) = false → lt_val (Some y) (Some x) = false →
  py_eq a b = true.
Proof.
  intros Ha Hb Hx Hy. cbn. rewrite (xreal_compare_antisym x y).
  intros H1 H2.
  assert (E : xreal_compare x y = Eq)
    by (destruct (xreal_compare x y); cbn in *; congruence).
  destruct a, b; try discriminate; cbn in Hx, Hy |- *;
    try (injection Hx as <-); try (injection Hy as <-);
    rewrite ?Hx, ?Hy; cbn in E |- *; now rewrite E.
Qed.

(** ** The SLA check and the escalation *)

Section SLA.
Variable clock : nat → Z.
Variable fromisoformat : string → option Z.
Variable isoformat : Z → string.

(** The status of an alert that carries its creation time as a datetime. *)
Lemma check_sla_breach_datetime (alert : dict) (n : nat) (p : string)
    (h c : Z) :
  alert !! "priority" = Some (VStr p) →
  SLA_TARGETS !! p = Some h →
  alert !! "created_at" = Some (VDatetime c) →
  0 <= c + h * hour_us <= MAXDT →
  sla_status_of (check_sla_breach clock fromisoformat isoformat alert n) =
  Some (VStr
          (let time_remaining :=
             (total_seconds (c + h * hour_us - clock (S n)) / 3600)%float in
           if (time_remaining <? 0)%float then "breached"
           else if (time_remaining <? 2)%float then "critical"
           else if (time_remaining <? 12)%float then "warning"
           else "ok")).
Proof.
  intros Hp Hh Hc Hr.
  unfold sla_status_of, check_sla_breach, calculate_sla_deadline.
  rewrite Hp, Hc. cbn [default from_option id].
  unfold mbind, Clk_bind, utcnow, lift, parse_if_str, lookup_val, add_hours.
  cbv beta iota. rewrite Hh. cbn [default from_option id].
  replace ((0 <=? c + h * hour_us) && (c + h * hour_us <=? MAXDT)) with true
    by (symmetry; apply andb_true_intro; split; apply Z.leb_le; lia).
  set (tr := (total_seconds _ / 3600)%float).
  cbn zeta.
  destruct (tr <? 0)%float; [reflexivity|].
  destruct (tr <? 2)%float; [reflexivity|].
  destruct (tr <? 12)%float; reflexivity.
Qed.

(** The status and the breach risk always go together. *)
Lemma check_sla_breach_shape (alert : dict) (n n' : nat) (sla : dict) :
  check_sla_breach clock fromisoformat isoformat alert n = (Ok sla, n') →
  ∃ s,
    sla !! "sla_status" = Some (VStr (sla_state_name s)) ∧
    sla !! "breach_risk" = Some (VStr (risk_name (risk_of_state s))).
Proof.
  unfold check_sla_breach. rewrite Clk_bind_eq.
  destruct (calculate_sla_deadline clock fromisoformat alert n)
    as [[deadline|e] m]; [|discriminate].
  unfold mbind, Clk_bind, utcnow, mret, Clk_ret.
  set (tr := (total_seconds _ / 3600)%float).
  destruct (tr <? 0)%float;
    [|destruct (tr <? 2)%float; [|destruct (tr <? 12)%float]];
    intros [= <- <-];
    [exists SlaBreached | exists SlaCritical | exists SlaWarning | exists SlaOk];
    split; reflexivity.
Qed.

Lemma determine_escalation_table (alert : dict) (n : nat) :
  match check_sla_breach clock fromisoformat isoformat alert n with
  | (Ok sla, n') =>
      ∃ s,
        sla !! "sla_status" = Some (VStr (sla_state_name s)) ∧
        sla !! "breach_risk" = Some (VStr (risk_name (risk_of_state s))) ∧
        determine_escalation clock fromisoformat isoformat alert n =
          (Ok (escalation_name
                 match tier_of (default (VStr "p3") (alert !! "priority")) with
                 | Some p => escalation_table p s (risk_of_state s)
                 | None => NoEscalation
                 end), n')
  | (Raise e, n') =>
      determine_escalation clock fromisoformat isoformat alert n = (Raise e, n')
  end.
Proof.
  unfold determine_escalation.
  destruct (check_sla_breach clock fromisoformat isoformat alert n)
    as [[sla|e] n'] eqn:E; rewrite Clk_bind_eq, E; [|reflexivity].
  destruct (check_sla_breach_shape _ _ _ _ E) as [s [Hs Hr]].
  exists s. split; [exact Hs|]. split; [exact Hr|].
  rewrite !py_eq_str. unfold getitem, lift, mbind, Clk_bind, mret, Clk_ret.
  rewrite Hs, Hr.
  destruct (default (VStr "p3") (alert !! "priority"))
    as [| b | z | f | t | t | l | d]; try reflexivity.
  unfold tier_of.
  destruct (String.eqb t "p1"); [destruct s; reflexivity|].
  destruct (String.eqb t "p2"); [destruct s; reflexivity|].
  destruct (String.eqb t "p3"); [destruct s; reflexivity|].
  destruct (String.eqb t "p4"); reflexivity.
Qed.

Variable exn_str : exn → string.
Variable py_sum : list float → float.

(** The last steps of the pipeline: the level recorded is the one
    [determine_escalation] finds for the record as it stands after the SLA
    check, and the flag says whether there is one. *)
Lemma process_alert_escalation (alert : dict) (product : option dict)
    (history : option (list dict)) (n n' : nat) (processed : dict) :
  process_alert clock fromisoformat isoformat exn_str py_sum alert product
    history n = (Ok processed, n') →
  ∃ (level : option string) (pre : dict) (m : nat),
    determine_escalation clock fromisoformat isoformat pre m = (Ok level, n') ∧
    pre !! "priority" = processed !! "priority" ∧
    processed !! "escalation_level" = Some (of_option level) ∧
    processed !! "requires_escalation" =
      Some (VBool (match level with Some _ => true | None => false end)).
Proof.
  unfold process_alert. intros H.
  do 6 clk_step H.
  injection H as <- <-.
  eexists _, _, _. split; [eassumption|].
  split; [|split].
  - by rewrite !lookup_insert_ne.
  - rewrite lookup_insert_ne by done. rewrite lookup_insert_ne by done.
    by rewrite lookup_insert_eq.
  - rewrite lookup_insert_ne by done. by rewrite lookup_insert_eq.
Qed.
End SLA.

(** ** Merging duplicates *)

Lemma severity_rank_positive_inj (v w : pyval) (r : Z) :
  lookup_val severity_order v 0 = Ok r →
  lookup_val severity_order w 0 = Ok r →
  r ≠ 0 → v = w.
Proof.
  assert (K : ∀ u, lookup_val severity_order u 0 = Ok r → r ≠ 0 →
            (u = VStr "critical" ∧ r = 4) ∨ (u = VStr "high" ∧ r = 3) ∨
            (u = VStr "medium" ∧ r = 2) ∨ (u = VStr "low" ∧ r = 1)).
  { intros u Hu Hr. destruct u; try (cbn in Hu; congruence).
    unfold lookup_val in Hu. injection Hu as Hu.
    destruct (severity_order !! s) as [k|] eqn:E;
      cbn [from_option id] in Hu; [|congruence].
    subst k. unfold severity_order in E.
    apply elem_of_list_to_map_2 in E.
    repeat (apply elem_of_cons in E as [E|E]; [injection E as -> ->; tauto|]).
    by apply elem_of_nil in E. }
  intros Hv Hw Hr.
  destruct (K v Hv Hr) as [[-> ?]|[[-> ?]|[[-> ?]|[-> ?]]]];
  destruct (K w Hw Hr) as [[-> ?]|[[-> ?]|[[-> ?]|[-> ?]]]]; congruence.
Qed.

Lemma severity_rank_nonneg (v : pyval) (r : Z) :
  lookup_val severity_order v 0 = Ok r → 0 <= r.
Proof.
  destruct v; try (cbn; intros [= <-]; lia); try discriminate.
  unfold lookup_val. intros [= <-].
  destruct (severity_order !! s) as [k|] eqn:E; cbn [from_option id]; [|lia].
  unfold severity_order in E. apply elem_of_list_to_map_2 in E.
  repeat (apply elem_of_cons in E as [E|E]; [injection E as -> ->; lia|]).
  by apply elem_of_nil in E.
Qed.

Section Merge.
Variable py_str : pyval → string.

(** What a merge that returns has done to the severity and the confidence. *)
Lemma merge_alerts_inv (P D M : dict) :
  merge_alerts py_str P D = Ok M →
  ∃ rd rp h,
    severity_rank D = Ok rd ∧ severity_rank P = Ok rp ∧
    py_gt (confidence_of D) (confidence_of P) = Ok h ∧
    M !! "severity" = (if rp <? rd then D !! "severity" else P !! "severity") ∧
    ((rp <? rd) = true → is_Some (D !! "severity")) ∧
    M !! "confidence" = (if h then D !! "confidence" else P !! "confidence") ∧
    (h = true → is_Some (D !! "confidence")).
Proof.
  unfold merge_alerts. intros H.
  apply result_bind_ok in H as [rd [Hrd H]].
  apply result_bind_ok in H as [rp [Hrp H]].
  apply result_bind_ok in H as [M1 [H1 H]].
  apply result_bind_ok in H as [h [Hh H]].
  apply result_bind_ok in H as [M2 [H2 H]].
  apply result_bind_ok in H as [M3 [H3 H]].
  apply result_bind_ok in H as [ids [Hids H]].
  injection H as <-.
  exists rd, rp, h. repeat (split; [assumption|]).
  assert (S3 : M3 !! "severity" = M2 !! "severity" ∧
               M3 !! "confidence" = M2 !! "confidence").
  { destruct (truthy (dict_get D "description")).
    - apply result_bind_ok in H3 as [old [_ H3]].
      apply result_bind_ok in H3 as [d [_ H3]].
      apply result_bind_ok in H3 as [new [_ H3]].
      injection H3 as <-. by rewrite !lookup_insert_ne.
    - by injection H3 as <-. }
  destruct S3 as [S3 C3].
  rewrite !lookup_insert_ne by done. rewrite S3, C3. clear S3 C3 H3 Hids.
  assert (S1 : M1 !! "severity" =
                 (if rp <? rd then D !! "severity" else P !! "severity") ∧
               ((rp <? rd) = true → is_Some (D !! "severity")) ∧
               M1 !! "confidence" = P !! "confidence").
  { destruct (rp <? rd).
    - apply result_bind_ok in H1 as [v [Hv H1]]. injection H1 as <-.
      unfold getitem in Hv. destruct (D !! "severity") as [w|] eqn:E;
        [|discriminate]. injection Hv as ->.
      rewrite lookup_insert_eq. by rewrite lookup_insert_ne.
    - injection H1 as <-. split; [done|]. split; [discriminate|done]. }
  destruct S1 as [S1 [K1 C1]]. clear H1.
  destruct h.
  - apply result_bind_ok in H2 as [v [Hv H2]]. injection H2 as <-.
    unfold getitem in Hv. destruct (D !! "confidence") as [w|] eqn:E;
      [|discriminate]. injection Hv as ->.
    rewrite lookup_insert_eq. rewrite lookup_insert_ne by done.
    by rewrite S1.
  - injection H2 as <-. rewrite S1, C1. repeat split; try done.
Qed.

(** The rank and the confidence of the merged alert. *)
Lemma merge_alerts_keys (P D M : dict) :
  merge_alerts py_str P D = Ok M →
  ∃ rd rp h,
    severity_rank D = Ok rd ∧ severity_rank P = Ok rp ∧
    py_gt (confidence_of D) (confidence_of P) = Ok h ∧
    M !! "severity" = (if rp <? rd then D !! "severity" else P !! "severity") ∧
    ((rp <? rd) = true → is_Some (D !! "severity")) ∧
    M !! "confidence" = (if h then D !! "confidence" else P !! "confidence") ∧
    (h = true → is_Some (D !! "confidence")) ∧
    severity_rank M = Ok (Z.max rp rd) ∧
    confidence_of M = (if h then confidence_of D else confidence_of P).
Proof.
  intros H. destruct (merge_alerts_inv _ _ _ H)
    as (rd & rp & h & Hrd & Hrp & Hh & Hs & Ks & Hc & Kc).
  exists rd, rp, h. repeat (split; [assumption|]). split.
  - unfold severity_rank in *. rewrite Hs.
    destruct (Z.ltb_spec rp rd).
    + rewrite Hrd. f_equal. lia.
    + rewrite Hrp. f_equal. lia.
  - unfold confidence_of. rewrite Hc. by destruct h.
Qed.

(** Merging well-formed alerts returns a well-formed alert. *)
Lemma merge_alerts_ok (P D : dict) :
  mergeable P = true → mergeable D = true →
  ∃ M, merge_alerts py_str P D = Ok M ∧ mergeable M = true.
Proof.
  unfold mergeable. intros HP HD.
  destruct (P !! "severity") as [[| | | |sp| | |]|] eqn:SP; try discriminate.
  destruct (P !! "confidence") as [cp|] eqn:CP; try discriminate.
  destruct (P !! "description") as [[| | | |dp| | |]|] eqn:DP;
    try (rewrite andb_false_r in HP; discriminate).
  destruct (D !! "severity") as [[| | | |sd| | |]|] eqn:SD; try discriminate.
  destruct (D !! "confidence") as [cd|] eqn:CD; try discriminate.
  destruct (D !! "description") as [[| | | |dd| | |]|] eqn:DD;
    try (rewrite andb_false_r in HD; discriminate).
  cbn [andb] in HP, HD. rewrite andb_true_r in HP, HD.
  apply andb_true_iff in HP as [NP IP]. apply andb_true_iff in HD as [ND _].
  unfold merge_alerts. rewrite SP, SD, CP, CD.
  cbn [default from_option id lookup_val mbind result_bind].
  rewrite (py_gt_numbers _ _ ND NP). cbn [mbind result_bind].
  unfold getitem, dict_get. rewrite SD, CD, DD.
  cbn [default from_option id mbind result_bind truthy].
  set (M1 := if _ <? _ then _ else _).
  assert (K1 : ∃ s1 c1 M1', M1 = Ok M1' ∧ M1' !! "severity" = Some (VStr s1) ∧
                 M1' !! "confidence" = Some c1 ∧ is_number c1 = true ∧
                 M1' !! "description" = Some (VStr dp) ∧
                 M1' !! "merged_alert_ids" = P !! "merged_alert_ids").
  { subst M1. destruct (_ <? _).
    - exists sd, cp, (<["severity" := VStr sd]> P). split; [reflexivity|].
      rewrite lookup_insert_eq. by rewrite !lookup_insert_ne.
    - by exists sp, cp, P. }
  destruct K1 as (s1 & c1 & M1' & -> & S1 & C1 & N1 & D1 & I1).
  cbn [mbind result_bind].
  set (M2 := if lt_val _ _ then _ else _).
  assert (K2 : ∃ c2 M2', M2 = Ok M2' ∧ M2' !! "severity" = Some (VStr s1) ∧
                 M2' !! "confidence" = Some c2 ∧ is_number c2 = true ∧
                 M2' !! "description" = Some (VStr dp) ∧
                 M2' !! "merged_alert_ids" = P !! "merged_alert_ids").
  { subst M2. destruct (lt_val _ _).
    - exists cd, (<["confidence" := cd]> M1'). split; [reflexivity|].
      rewrite lookup_insert_eq. by rewrite !lookup_insert_ne.
    - by exists c1, M1'. }
  destruct K2 as (c2 & M2' & -> & S2 & C2 & N2 & D2 & I2).
  cbn [mbind result_bind]. clear M1' S1 C1 N1 D1 I1.
  set (M3 := if negb _ then _ else _).
  assert (K3 : ∃ d3 M3', M3 = Ok M3' ∧ M3' !! "severity" = Some (VStr s1) ∧
                 M3' !! "confidence" = Some c2 ∧
                 M3' !! "description" = Some (VStr d3) ∧
                 M3' !! "merged_alert_ids" = P !! "merged_alert_ids").
  { subst M3. destruct (negb _).
    - rewrite D2. cbn [mbind result_bind iadd_str format]. eexists _, _.
      split; [reflexivity|]. rewrite lookup_insert_eq.
      by rewrite !lookup_insert_ne.
    - by exists dp, M2'. }
  destruct K3 as (d3 & M3' & -> & S3 & C3 & D3 & I3).
  cbn [mbind result_bind]. rewrite I3.
  assert (K4 : ∃ ids,
            add_list (default (VList []) (P !! "merged_alert_ids"))
              (default VNone (D !! "id")) = Ok (VList ids)).
  { destruct (P !! "merged_alert_ids") as [[| | | | | |l|]|];
      try discriminate; by eexists. }
  destruct K4 as [ids ->]. cbn [mbind result_bind].
  eexists. split; [reflexivity|].
  rewrite lookup_insert_eq. rewrite !lookup_insert_ne by done.
  by rewrite S3, C3, D3, N2.
Qed.
End Merge.

(** ** Scoring *)

Lemma priority_tier_name (c : float) : ∃ p, fst (priority_tier c) = tier_name p.
Proof.
  unfold priority_tier.
  destruct (0.8 <=? c)%float; [by exists P1|].
  destruct (0.6 <=? c)%float; [by exists P2|].
  destruct (0.4 <=? c)%float; [by exists P3|by exists P4].
Qed.

Lemma calculate_composite_risk_keys (severity likelihood impact confidence : pyval)
    (ts : float) (d : dict) :
  calculate_composite_risk severity likelihood impact confidence ts = Ok d →
  ∃ w c,
    severity_score_of severity = Ok w ∧
    composite_formula w likelihood impact confidence ts = Ok c ∧
    d !! "composite_score" = Some (VFloat (py_round c 3)) ∧
    d !! "priority" = Some (VStr (fst (priority_tier c))).
Proof.
  unfold calculate_composite_risk. intros H.
  apply result_bind_ok in H as [w [Hw H]].
  apply result_bind_ok in H as [c [Hc H]].
  destruct (priority_tier c) as [p l] eqn:E. injection H as <-.
  exists w, c. rewrite E. repeat split; try assumption; reflexivity.
Qed.

Lemma formula_of_eq (s : string) (l i c ts : float) :
  formula_of s l i c ts =
  Ok ((default 0.5%float (severity_weights !! lower s) * 0.3
       + l * 0.25 + i * 0.25 + c * 0.2) * ts)%float.
Proof. reflexivity. Qed.

(** The weights follow the ranks of the severities. *)
Lemma severity_weight_mono (s s' : string) (r r' : Z) :
  severity_order !! s = Some r → severity_order !! s' = Some r' → r <= r' →
  (default 0.5 (severity_weights !! lower s')
   <? default 0.5 (severity_weights !! lower s))%float = false.
Proof.
  intros Hs Hs' Hr. unfold severity_order in Hs, Hs'.
  apply elem_of_list_to_map_2 in Hs, Hs'.
  repeat (apply elem_of_cons in Hs as [Hs|Hs]; [injection Hs as -> ->|]);
    try (by apply elem_of_nil in Hs);
    repeat (apply elem_of_cons in Hs' as [Hs'|Hs']; [injection Hs' as -> ->|]);
    try (by apply elem_of_nil in Hs'); try lia; reflexivity.
Qed.

Section Scoring.
Variable clock : nat → Z.
Variable fromisoformat : string → option Z.
Variable exn_str : exn → string.

Lemma score_attempt_keys (alert : dict) (n n' : nat) (d : dict) :
  score_attempt clock fromisoformat alert n = (Ok d, n') →
  ∃ c, d !! "composite_score" = Some (VFloat (py_round c 3)) ∧
    d !! "priority" = Some (VStr (fst (priority_tier c))).
Proof.
  unfold score_attempt. intros H.
  do 5 clk_step H. injection H as <- <-.
  unfold lift in E3. injection E3 as E3 _.
  apply calculate_composite_risk_keys in E3 as (w & c & _ & _ & Hs & Hp).
  exists c. by rewrite !lookup_insert_ne.
Qed.

(** Scoring returns, and the score it reports is a float. *)
Lemma calculate_alert_score_ok (alert : dict) (n : nat) :
  ∃ d n' f,
    calculate_alert_score clock fromisoformat exn_str alert n = (Ok d, n') ∧
    d !! "composite_score" = Some (VFloat f) ∧
    ∃ p, d !! "priority" = Some (VStr (tier_name p)).
Proof.
  unfold calculate_alert_score, try_except.
  destruct (score_attempt clock fromisoformat alert n) as [[d|e] n'] eqn:E.
  - apply score_attempt_keys in E as [c [Hs Hp]].
    destruct (priority_tier_name c) as [p Hn].
    exists d, n', (py_round c 3). split; [reflexivity|]. split; [exact Hs|].
    exists p. by rewrite Hp, Hn.
  - eexists _, _, _. split; [reflexivity|]. split; [reflexivity|by exists P3].
Qed.

Lemma score_each_ok (alerts : list dict) (n : nat) :
  ∃ scored n',
    score_each clock fromisoformat exn_str alerts n = (Ok scored, n') ∧
    Forall2 (scored_as clock fromisoformat exn_str) alerts scored.
Proof.
  revert n. induction alerts as [|a rest IH]; intros n.
  - exists [], n. split; [reflexivity|constructor].
  - destruct (calculate_alert_score_ok a n) as (d & n1 & f & E & _).
    destruct (IH n1) as (scored & n2 & Er & F).
    exists ((d ∪ a) :: scored), n2. cbn [score_each].
    rewrite Clk_bind_eq, E, Clk_bind_eq, Er. split; [reflexivity|].
    constructor; [|exact F]. by exists n, n1, d.
Qed.
End Scoring.

(** ** Sorting *)

Section SortFacts.
Context {A : Type}.
Implicit Types (x y : pyval * A) (l : list (pyval * A)).

Lemma key_le_trans x y z : key_le x y → key_le y z → key_le x z.
Proof.
  unfold key_le. destruct (num_val x.1), (num_val y.1), (num_val z.1);
    try tauto. apply xle_trans.
Qed.

(** Inserting into a sorted list of numbers returns, keeps the elements and
    keeps the list sorted. *)
Lemma insert_by_sorted x l :
  valued x → Forall valued l →
  ∃ l',
    insert_by x l = Ok l' ∧ Permutation (x :: l) l' ∧
    (StronglySorted key_le l → StronglySorted key_le l').
Proof.
  intros [Nx [vx Vx]]. induction l as [|y r IH]; intros Hl.
  - exists [x]. repeat split; [reflexivity|]. repeat constructor.
  - apply Forall_cons in Hl as [[Ny [vy Vy]] Hr].
    destruct (IH Hr) as (r' & Er & Pr & Sr).
    cbn [insert_by]. rewrite (py_lt_numbers _ _ Nx Ny), Vx, Vy.
    cbn [mbind result_bind lt_val].
    destruct (xreal_compare vx vy) eqn:C.
    + rewrite Er. cbn [mbind result_bind]. eexists. split; [reflexivity|].
      split; [rewrite perm_swap; by constructor|].
      intros S. apply StronglySorted_inv in S as [S F].
      constructor; [by apply Sr|].
      eapply Permutation_Forall; [exact Pr|]. constructor; [|exact F].
      unfold key_le. rewrite Vx, Vy. apply xle_of_not_lt. congruence.
    + eexists. split; [reflexivity|]. split; [reflexivity|].
      intros S. constructor; [exact S|].
      assert (Kxy : key_le x y)
        by (unfold key_le; rewrite Vx, Vy; by apply xle_of_lt).
      constructor; [exact Kxy|].
      apply StronglySorted_inv in S as [_ F].
      eapply Forall_impl; [exact F|]. intros z. by apply key_le_trans.
    + rewrite Er. cbn [mbind result_bind]. eexists. split; [reflexivity|].
      split; [rewrite perm_swap; by constructor|].
      intros S. apply StronglySorted_inv in S as [S F].
      constructor; [by apply Sr|].
      eapply Permutation_Forall; [exact Pr|]. constructor; [|exact F].
      unfold key_le. rewrite Vx, Vy. apply xle_of_not_lt. congruence.
Qed.

Lemma sort_from_sorted l acc :
  Forall valued acc → Forall valued l → StronglySorted key_le acc →
  ∃ out,
    sort_from acc l = Ok out ∧ Permutation (acc ++ l) out ∧
    StronglySorted key_le out.
Proof.
  revert acc. induction l as [|x r IH]; intros acc Va Vl Sa.
  - exists acc. rewrite app_nil_r. by repeat split.
  - apply Forall_cons in Vl as [Vx Vr].
    destruct (insert_by_sorted x acc Vx Va) as (acc' & E & P & S).
    destruct (IH acc') as (out & Eo & Po & So);
      [eapply Permutation_Forall; [exact P|by constructor]|exact Vr|by apply S|].
    exists out. cbn [sort_from]. rewrite E. cbn [mbind result_bind].
    split; [exact Eo|]. split; [|exact So].
    etransitivity; [symmetry; apply Permutation_middle|].
    etransitivity; [|exact Po]. exact (Permutation_app_tail r P).
Qed.

Lemma StronglySorted_snoc (R : relation (pyval * A)) l x :
  StronglySorted R l → Forall (fun y => R y x) l →
  StronglySorted R (l ++ [x]).
Proof.
  induction 1 as [|y l S IH F]; intros H; cbn.
  - repeat constructor.
  - apply Forall_cons in H as [Hy Hl]. constructor; [by apply IH|].
    apply Forall_app. split; [exact F|by repeat constructor].
Qed.

Lemma StronglySorted_rev (R : relation (pyval * A)) l :
  StronglySorted R l → StronglySorted (flip R) (rev l).
Proof.
  induction 1 as [|x l S IH F]; cbn [rev]; [constructor|].
  apply StronglySorted_snoc; [exact IH|].
  apply Forall_rev. exact F.
Qed.

Variable key : A → pyval.

Lemma sorted_map_snd l :
  Forall (fun p => fst p = key (snd p)) l →
  StronglySorted (flip key_le) l → StronglySorted (key_ge key) (map snd l).
Proof.
  intros F S. induction S as [|p l S IH H]; cbn [map]; [constructor|].
  apply Forall_cons in F as [Fp Fl]. constructor; [by apply IH|].
  apply Forall_map. revert H Fl. clear -Fp. induction 1 as [|q l Hq _ IH];
    intros Fl; [constructor|].
  apply Forall_cons in Fl as [Fq Fl]. constructor; [|by apply IH].
  unfold flip, key_le in Hq. unfold key_ge. cbn [snd]. by rewrite <- Fp, <- Fq.
Qed.

(** [list.sort(key=..., reverse=True)] on keys that are numbers: it
    returns, keeps the elements and puts them in descending order. *)
Lemma list_sort_descending (l : list A) :
  Forall (fun a => is_number (key a) = true ∧ is_Some (num_val (key a))) l →
  ∃ out,
    list_sort key true l = Ok out ∧ Permutation l out ∧
    StronglySorted (key_ge key) out.
Proof.
  intros V. unfold list_sort.
  set (keyed := map (fun a => (key a, a)) l).
  assert (Vk : Forall valued (rev keyed)).
  { apply Forall_rev. unfold keyed. apply Forall_map.
    eapply Forall_impl; [exact V|]. by intros a [? ?]. }
  destruct (sort_from_sorted (rev keyed) [] (List.Forall_nil _) Vk
              (SSorted_nil _)) as (out & E & P & S).
  rewrite E. cbn [mbind result_bind app] in *. eexists. split; [reflexivity|].
  assert (Pk : Permutation keyed (rev out)).
  { rewrite <- (Permutation_rev out), <- P. apply Permutation_rev. }
  split.
  - rewrite <- (Permutation_map snd Pk). unfold keyed.
    rewrite map_map. cbn [snd]. by rewrite map_id.
  - apply sorted_map_snd; [|by apply StronglySorted_rev].
    eapply Permutation_Forall; [exact Pk|]. unfold keyed.
    apply Forall_map. by apply Forall_forall.
Qed.
End SortFacts.

(** * The claims of the specification *)

(** C1, as the code decides it. For an alert of priority p1 whose SLA is
    checked at the time [now]: created exactly 4 hours before [now] it is
    "critical" (no time remains, and 0 is not below 0; it is "breached" one
    microsecond later); created 2.5 hours before, it is "critical"; created
    1 hour before, it is "warning"; created at [now], it is "warning".
    [now] is the second reading of the clock that the check makes. *)
Theorem sla_boundary_p1 (clock : nat → Z) (fromisoformat : string → option Z)
    (isoformat : Z → string) (alert : dict) (n : nat) :
  let now := clock (S n) in
  let status := status_at clock fromisoformat isoformat alert n in
  alert !! "priority" = Some (VStr "p1") →
  4 * hour_us < now <= MAXDT - 4 * hour_us →
  status (now - 4 * hour_us) = Some (VStr "critical") ∧
  status (now - 4 * hour_us - 1) = Some (VStr "breached") ∧
  status (now - 5 * hour_us / 2) = Some (VStr "critical") ∧
  status (now - hour_us) = Some (VStr "warning") ∧
  status now = Some (VStr "warning").
Proof.
  intros now status Hp Hnow.
  assert (Hh : SLA_TARGETS !! "p1" = Some 4) by reflexivity.
  assert (K : ∀ c, 0 <= c + 4 * hour_us <= MAXDT →
            status c =
            Some (VStr
                    (let time_remaining :=
                       (total_seconds (c + 4 * hour_us - now) / 3600)%float in
                     if (time_remaining <? 0)%float then "breached"
                     else if (time_remaining <? 2)%float then "critical"
                     else if (time_remaining <? 12)%float then "warning"
                     else "ok"))).
  { intros c Hc. unfold status, status_at.
    apply (check_sla_breach_datetime _ _ _ _ _ "p1" 4 c);
      [|exact Hh| |exact Hc].
    - by rewrite lookup_insert_ne.
    - by rewrite lookup_insert_eq. }
  clearbody status now. clear Hp Hh.
  change hour_us with 3600000000 in *.
  change MAXDT with 315537897599999999 in *.
  change (5 * 3600000000 / 2) with 9000000000.
  repeat split; (rewrite K; [|lia]).
  - replace (now - 4 * 3600000000 + 4 * 3600000000 - now) with 0 by lia.
    reflexivity.
  - replace (now - 4 * 3600000000 - 1 + 4 * 3600000000 - now) with (-1) by lia.
    vm_compute. reflexivity.
  - replace (now - 9000000000 + 4 * 3600000000 - now) with 5400000000 by lia.
    vm_compute. reflexivity.
  - replace (now - 3600000000 + 4 * 3600000000 - now) with 10800000000 by lia.
    vm_compute. reflexivity.
  - replace (now + 4 * 3600000000 - now) with 14400000000 by lia.
    vm_compute. reflexivity.
Qed.

(** At noon of 2024-01-01, on a clock that stands still. *)
Lemma sla_boundary_p1_witness :
  status_at (frozen sample_now) sample_fromisoformat sample_isoformat
    (p1_alert sample_now) 0%nat (sample_now - 4 * hour_us)
  = Some (VStr "critical") ∧
  status_at (frozen sample_now) sample_fromisoformat sample_isoformat
    (p1_alert sample_now) 0%nat (sample_now - hour_us)
  = Some (VStr "warning").
Proof.
  pose proof (sla_boundary_p1 (frozen sample_now) sample_fromisoformat
                sample_isoformat (p1_alert sample_now) 0%nat) as H.
  cbv zeta in H. destruct H as (H4 & _ & _ & H1 & _).
  - vm_compute. reflexivity.
  - vm_compute. split; [reflexivity|discriminate].
  - split; [exact H4|exact H1].
Defined.

(** C1 as it is stated fails on the code: a p1 alert created exactly 4 hours
    before the check is not "breached", and one created 1 hour before, or at
    the time of the check, is not "ok". *)
Lemma sla_boundary_p1_counterexample :
  status_at (frozen sample_now) sample_fromisoformat sample_isoformat
    (p1_alert sample_now) 0%nat (sample_now - 4 * hour_us)
  ≠ Some (VStr "breached") ∧
  status_at (frozen sample_now) sample_fromisoformat sample_isoformat
    (p1_alert sample_now) 0%nat (sample_now - hour_us)
  ≠ Some (VStr "ok") ∧
  status_at (frozen sample_now) sample_fromisoformat sample_isoformat
    (p1_alert sample_now) 0%nat sample_now
  ≠ Some (VStr "ok").
Proof. vm_compute. repeat split; discriminate. Qed.

(** C2. The priority follows inclusive lower bounds on the composite score:
    at least 0.8 is p1, from 0.6 up to but not 0.8 is p2, from 0.4 up to but
    not 0.6 is p3, below 0.4 is p4; so 0.8 is p1, 0.79999 is p2, 0.6 is p2,
    0.4 is p3 and 0.0 is p4. The score that is tested is the one the formula
    gives, before it is rounded for the report. *)
Theorem priority_tier_thresholds (s : float) :
  ((0.8 <=? s)%float = true → fst (priority_tier s) = "p1") ∧
  ((0.6 <=? s)%float = true → (s <? 0.8)%float = true →
   fst (priority_tier s) = "p2") ∧
  ((0.4 <=? s)%float = true → (s <? 0.6)%float = true →
   fst (priority_tier s) = "p3") ∧
  ((s <? 0.4)%float = true → fst (priority_tier s) = "p4") ∧
  fst (priority_tier 0.8) = "p1" ∧
  fst (priority_tier 0.79999) = "p2" ∧
  fst (priority_tier 0.6) = "p2" ∧
  fst (priority_tier 0.4) = "p3" ∧
  fst (priority_tier 0.0) = "p4" ∧
  (∀ severity likelihood impact confidence ts d,
      calculate_composite_risk severity likelihood impact confidence ts = Ok d →
      ∃ w c, severity_score_of severity = Ok w ∧
        composite_formula w likelihood impact confidence ts = Ok c ∧
        d !! "priority" = Some (VStr (fst (priority_tier c)))).
Proof.
  split; [|split; [|split; [|split]]]; [unfold priority_tier..|].
  - intros ->. reflexivity.
  - intros H6 H8. apply float_ltb_leb_false in H8. rewrite H8, H6. reflexivity.
  - intros H4 H6.
    rewrite (float_leb_above 0.6 0.8 s eq_refl H6).
    rewrite (float_ltb_leb_false _ _ H6), H4. reflexivity.
  - intros H4.
    rewrite (float_leb_above 0.4 0.8 s eq_refl H4).
    rewrite (float_leb_above 0.4 0.6 s eq_refl H4).
    rewrite (float_ltb_leb_false _ _ H4). reflexivity.
  - repeat split; try reflexivity.
    intros severity likelihood impact confidence ts d H.
    apply calculate_composite_risk_keys in H as (w & c & Hw & Hc & _ & Hp).
    by exists w, c.
Qed.

(** C3. Whenever the SLA check returns, the escalation level is the entry
    of the transition table for the priority of the alert and the state the
    check reports: p1 gives executive when breached, director when critical
    and manager otherwise, so p1 always escalates; p2 gives director at high
    breach risk, manager at medium and none otherwise; p3 gives manager
    when breached and none otherwise; p4, like any other priority, gives
    none. The pipeline records this level, and [requires_escalation] is
    true exactly when there is one. *)
Theorem escalation_follows_table (clock : nat → Z)
    (fromisoformat : string → option Z) (isoformat : Z → string)
    (exn_str : exn → string) (py_sum : list float → float) :
  (∀ (alert : dict) (n : nat),
      match check_sla_breach clock fromisoformat isoformat alert n with
      | (Ok sla, n') =>
          ∃ s,
            sla !! "sla_status" = Some (VStr (sla_state_name s)) ∧
            sla !! "breach_risk" = Some (VStr (risk_name (risk_of_state s))) ∧
            determine_escalation clock fromisoformat isoformat alert n =
              (Ok (escalation_name
                     match tier_of (default (VStr "p3") (alert !! "priority"))
                     with
                     | Some p => escalation_table p s (risk_of_state s)
                     | None => NoEscalation
                     end), n')
      | (Raise e, n') =>
          determine_escalation clock fromisoformat isoformat alert n
          = (Raise e, n')
      end) ∧
  (∀ s r, escalation_table P1 s r ≠ NoEscalation) ∧
  (∀ s r, escalation_table P4 s r = NoEscalation) ∧
  (∀ (alert : dict) (product : option dict) (history : option (list dict))
     (n n' : nat) (processed : dict),
      process_alert clock fromisoformat isoformat exn_str py_sum alert product
        history n = (Ok processed, n') →
      ∃ (level : option string) (pre : dict) (m : nat),
        determine_escalation clock fromisoformat isoformat pre m
        = (Ok level, n') ∧
        pre !! "priority" = processed !! "priority" ∧
        processed !! "escalation_level" = Some (of_option level) ∧
        processed !! "requires_escalation" =
          Some (VBool (match level with Some _ => true | None => false end))).
Proof.
  split; [|split; [|split]].
  - apply determine_escalation_table.
  - intros s r. destruct s; discriminate.
  - reflexivity.
  - apply process_alert_escalation.
Qed.

(** C4. Merging two duplicates into a primary in either order gives the
    same final severity and the same final confidence. The severity is the
    one of highest rank and the confidence the greatest number among the
    three alerts; on well-formed alerts both orders return. *)
Theorem merge_order_independent (py_str : pyval → string) (P D1 D2 : dict) :
  is_number (confidence_of P) = true →
  is_number (confidence_of D1) = true →
  is_number (confidence_of D2) = true →
  match merge_both py_str P D1 D2, merge_both py_str P D2 D1 with
  | Ok R1, Ok R2 =>
      R1 !! "severity" = R2 !! "severity" ∧
      same_confidence (R1 !! "confidence") (R2 !! "confidence") ∧
      (∃ rp r1 r2,
          severity_rank P = Ok rp ∧ severity_rank D1 = Ok r1 ∧
          severity_rank D2 = Ok r2 ∧
          severity_rank R1 = Ok (Z.max (Z.max rp r1) r2)) ∧
      confidence_of R1 ∈ [confidence_of P; confidence_of D1; confidence_of D2] ∧
      (∀ X, X ∈ [P; D1; D2] →
            lt_val (num_val (confidence_of R1)) (num_val (confidence_of X))
            = false)
  | _, _ => True
  end ∧
  (mergeable P = true → mergeable D1 = true → mergeable D2 = true →
   is_ok (merge_both py_str P D1 D2) = true ∧
   is_ok (merge_both py_str P D2 D1) = true).
Proof.
  intros NP N1 N2. split.
  - destruct (merge_both py_str P D1 D2) as [R1|] eqn:H1; [|exact I].
    destruct (merge_both py_str P D2 D1) as [R2|] eqn:H2; [|exact I].
    unfold merge_both in H1, H2.
    apply result_bind_ok in H1 as [M1 [HM1 HR1]].
    apply result_bind_ok in H2 as [M2 [HM2 HR2]].
    destruct (merge_alerts_keys _ _ _ _ HM1)
      as (r1 & rp & h1 & Er1 & Erp & Eh1 & S1 & K1 & C1 & L1 & RM1 & CM1).
    destruct (merge_alerts_keys _ _ _ _ HM2)
      as (r2 & rp' & h2 & Er2 & Erp' & Eh2 & S2 & K2 & C2 & L2 & RM2 & CM2).
    destruct (merge_alerts_keys _ _ _ _ HR1)
      as (r2' & m1 & h12 & Er2' & Em1 & Eh12 & S12 & K12 & C12 & L12 & RR1 & CR1).
    destruct (merge_alerts_keys _ _ _ _ HR2)
      as (r1' & m2 & h21 & Er1' & Em2 & Eh21 & S21 & K21 & C21 & L21 & _ & _).
    assert (rp' = rp) as -> by congruence.
    assert (r1' = r1) as -> by congruence.
    assert (r2' = r2) as -> by congruence.
    assert (m1 = Z.max rp r1) as -> by congruence.
    assert (m2 = Z.max rp r2) as -> by congruence.
    rewrite py_gt_numbers in Eh1, Eh2 by assumption.
    rewrite py_gt_numbers in Eh12, Eh21
      by (rewrite ?CM1, ?CM2; try assumption; destruct h1, h2; assumption).
    rewrite CM1 in Eh12. rewrite CM2 in Eh21.
    injection Eh1 as <-. injection Eh2 as <-.
    injection Eh12 as <-. injection Eh21 as <-.
    split; [|split; [|split; [|split]]].
    + rewrite S12, S21, S1, S2.
      destruct (Z.ltb_spec (Z.max rp r1) r2), (Z.ltb_spec (Z.max rp r2) r1),
        (Z.ltb_spec rp r1), (Z.ltb_spec rp r2); try reflexivity; try lia.
      assert (r1 = r2) as -> by lia.
      destruct (K1 eq_refl) as [v1 Hv1]. destruct (K2 eq_refl) as [v2 Hv2].
      rewrite Hv1, Hv2. f_equal.
      unfold severity_rank in Er1, Er2, Erp.
      rewrite Hv1 in Er1. rewrite Hv2 in Er2.
      apply severity_rank_nonneg in Erp.
      apply (severity_rank_positive_inj _ _ r2); [assumption..|lia].
    + rewrite C12, C21, C1, C2.
      remember (num_val (confidence_of P)) as a eqn:Ea.
      remember (num_val (confidence_of D1)) as b eqn:Eb.
      remember (num_val (confidence_of D2)) as c eqn:Ec.
      destruct (lt_val a b) eqn:Hab, (lt_val a c) eqn:Hac;
        cbv iota; rewrite <- ?Ea, <- ?Eb, <- ?Ec.
      * destruct (L1 eq_refl) as [v1 Hv1]. destruct (L2 eq_refl) as [v2 Hv2].
        destruct (lt_val b c) eqn:Hbc.
        -- rewrite (lt_val_asym _ _ Hbc), Hv2. by left.
        -- destruct (lt_val c b) eqn:Hcb; rewrite Hv1; [by left|].
           rewrite Hv2. right.
           unfold confidence_of in *. rewrite Hv1, Hv2 in *.
           cbn [from_option id] in *.
           destruct a as [z|], b as [x|], c as [y|]; try discriminate.
           by apply (py_eq_numbers v1 v2 x y).
      * assert (lt_val b c = false) as ->.
        { destruct (lt_val b c) eqn:Hbc; [|reflexivity].
          rewrite (lt_val_trans _ _ _ Hab Hbc) in Hac. discriminate. }
        rewrite Hab. destruct (D1 !! "confidence"); [by left|done].
      * assert (lt_val c b = false) as ->.
        { destruct (lt_val c b) eqn:Hcb; [|reflexivity].
          rewrite (lt_val_trans _ _ _ Hac Hcb) in Hab. discriminate. }
        rewrite Hac. destruct (P !! "confidence"), (D2 !! "confidence");
          try done; by left.
      * rewrite Hab, Hac. destruct (P !! "confidence"); [by left|done].
    + exists rp, r1, r2. by rewrite RR1.
    + rewrite CR1, CM1. rewrite !elem_of_cons.
      match goal with |- (if ?t then _ else _) = _ ∨ _ => destruct t end;
        [auto|].
      match goal with |- (if ?t then _ else _) = _ ∨ _ => destruct t end; auto.
    + intros X HX. rewrite CR1, CM1.
      apply (lt_val_max3 num_val (confidence_of P) (confidence_of D1)
               (confidence_of D2)).
      rewrite !elem_of_cons in HX.
      destruct HX as [-> | [-> | [-> | HX]]]; auto.
      by apply elem_of_nil in HX.
  - intros WP W1 W2. unfold merge_both.
    destruct (merge_alerts_ok py_str P D1 WP W1) as (M1 & -> & WM1).
    destruct (merge_alerts_ok py_str P D2 WP W2) as (M2 & -> & WM2).
    cbn [mbind result_bind].
    destruct (merge_alerts_ok py_str M1 D2 WM1 W2) as (R1 & -> & _).
    destruct (merge_alerts_ok py_str M2 D1 WM2 W1) as (R2 & -> & _).
    split; reflexivity.
Qed.


(** The sample alert and its two duplicates merge in both orders. *)
Lemma merge_order_independent_witness :
  is_ok (merge_both sample_str sample_alert sample_duplicate_1
           sample_duplicate_2) = true ∧
  is_ok (merge_both sample_str sample_alert sample_duplicate_2
           sample_duplicate_1) = true.
Proof.
  refine (proj2 (merge_order_independent sample_str sample_alert
                   sample_duplicate_1 sample_duplicate_2 _ _ _) _ _ _);
    vm_compute; reflexivity.
Defined.

(** C5. With the other inputs and a time sensitivity that is not negative
    held fixed, a severity of higher rank (low, medium, high, critical), a
    greater likelihood, a greater impact or a greater confidence never gives
    a lower composite score. The score is the one the formula gives in
    binary64 arithmetic; the report gives it rounded to three decimals.
    The time sensitivity the scorer passes is never negative. *)
Theorem composite_score_monotone (ts : float) :
  (0 <=? ts)%float = true →
  (∀ s s' r r' l i c,
      severity_order !! s = Some r → severity_order !! s' = Some r' → r <= r' →
      not_decreased (formula_of s l i c ts) (formula_of s' l i c ts)) ∧
  (∀ s l l' i c,
      (l <=? l')%float = true →
      not_decreased (formula_of s l i c ts) (formula_of s l' i c ts)) ∧
  (∀ s l i i' c,
      (i <=? i')%float = true →
      not_decreased (formula_of s l i c ts) (formula_of s l i' c ts)) ∧
  (∀ s l i c c',
      (c <=? c')%float = true →
      not_decreased (formula_of s l i c ts) (formula_of s l i c' ts)) ∧
  (∀ x, (0 <=? py_max 0.5 x)%float = true) ∧
  (∀ s l i c d,
      calculate_composite_risk (VStr s) (VFloat l) (VFloat i) (VFloat c) ts
      = Ok d →
      ∃ x, formula_of s l i c ts = Ok x ∧
           d !! "composite_score" = Some (VFloat (py_round x 3))).
Proof.
  intros Hts.
  split; [|split; [|split; [|split; [|split]]]]; intros;
    try (rewrite !formula_of_eq; cbn [not_decreased];
         apply float_mul_mono; [assumption|]).
  - do 3 apply float_add_mono_l. apply float_mul_mono; [reflexivity|].
    eapply severity_weight_mono; eassumption.
  - do 2 apply float_add_mono_l. apply float_add_mono_r.
    apply float_mul_mono; [reflexivity|]. now apply float_leb_not_ltb.
  - apply float_add_mono_l. apply float_add_mono_r.
    apply float_mul_mono; [reflexivity|]. now apply float_leb_not_ltb.
  - apply float_add_mono_r.
    apply float_mul_mono; [reflexivity|]. now apply float_leb_not_ltb.
  - apply py_max_nonneg.
  - match goal with
    | H : calculate_composite_risk _ _ _ _ _ = Ok _ |- _ =>
        apply calculate_composite_risk_keys in H as (w & x & Hw & Hx & Hd & _)
    end.
    exists x. split; [|exact Hd].
    unfold formula_of. rewrite Hw. exact Hx.
Qed.

(** At the time sensitivity 1: from "low" to "critical", and from the
    likelihood 0.2 to 0.8. *)
Lemma composite_score_monotone_witness :
  not_decreased (formula_of "low" 0.8 0.85 0.89 1)
    (formula_of "critical" 0.8 0.85 0.89 1) ∧
  not_decreased (formula_of "high" 0.2 0.85 0.89 1)
    (formula_of "high" 0.8 0.85 0.89 1).
Proof.
  pose proof (composite_score_monotone 1 eq_refl) as (Hs & Hl & _).
  split.
  - apply (Hs "low" "critical" 1 4); [reflexivity|reflexivity|lia].
  - apply Hl. reflexivity.
Defined.

(** C6, as the code decides it. A severity that is none of critical, high,
    medium and low (in any case of the letters) does not make scoring fail,
    and it is scored with the default weight 0.5, that is, exactly as
    "medium" is; it is an alert with no severity at all that is scored as
    "low". *)
Theorem unknown_severity_scored_as_medium (clock : nat → Z)
    (fromisoformat : string → option Z) (exn_str : exn → string)
    (alert : dict) (n : nat) (s : string) :
  severity_weights !! lower s = None →
  severity_score_of (VStr s) = Ok 0.5%float ∧
  severity_score_of (VStr "medium") = Ok 0.5%float ∧
  calculate_alert_score clock fromisoformat exn_str
    (<["severity" := VStr s]> alert) n =
  calculate_alert_score clock fromisoformat exn_str
    (<["severity" := VStr "medium"]> alert) n ∧
  is_ok (fst (calculate_alert_score clock fromisoformat exn_str
                (<["severity" := VStr s]> alert) n)) = true ∧
  calculate_alert_score clock fromisoformat exn_str (delete "severity" alert) n =
  calculate_alert_score clock fromisoformat exn_str
    (<["severity" := VStr "low"]> alert) n.
Proof.
  intros Hs. split; [|split; [|split; [|split]]].
  - unfold severity_score_of, str_lower. cbn [mbind result_bind].
    by rewrite Hs.
  - reflexivity.
  - unfold calculate_alert_score, score_attempt.
    rewrite !lookup_insert_eq. rewrite !lookup_insert_ne by done.
    cbn [from_option id].
    unfold calculate_composite_risk, severity_score_of, str_lower.
    cbn [mbind result_bind]. rewrite Hs. reflexivity.
  - unfold calculate_alert_score, try_except.
    by destruct (score_attempt _ _ _ _) as [[d|e] n'].
  - unfold calculate_alert_score, score_attempt.
    rewrite lookup_delete_eq, lookup_insert_eq.
    by rewrite !lookup_delete_ne, !lookup_insert_ne.
Qed.

(** The severity "urgent" is unknown and scored as "medium". *)
Lemma unknown_severity_witness :
  calculate_alert_score (frozen sample_now) sample_fromisoformat sample_exn_str
    (<["severity" := VStr "urgent"]> sample_alert) 0%nat =
  calculate_alert_score (frozen sample_now) sample_fromisoformat sample_exn_str
    (<["severity" := VStr "medium"]> sample_alert) 0%nat.
Proof.
  exact (proj1 (proj2 (proj2
           (unknown_severity_scored_as_medium (frozen sample_now)
              sample_fromisoformat sample_exn_str sample_alert 0%nat
              "urgent" eq_refl)))).
Defined.

(** C6 as it is stated fails on the code: the unknown severity "urgent" is
    given the weight 0.5, not the 0.25 of "low", and its score is not the
    score of "low". *)
Lemma unknown_severity_counterexample :
  is_float
    (severity_component
       (calculate_alert_score (frozen sample_now) sample_fromisoformat
          sample_exn_str (<["severity" := VStr "urgent"]> sample_alert) 0%nat))
    0.5 = true ∧
  is_float
    (severity_component
       (calculate_alert_score (frozen sample_now) sample_fromisoformat
          sample_exn_str (<["severity" := VStr "low"]> sample_alert) 0%nat))
    0.25 = true ∧
  calculate_alert_score (frozen sample_now) sample_fromisoformat
    sample_exn_str (<["severity" := VStr "urgent"]> sample_alert) 0%nat
  ≠ calculate_alert_score (frozen sample_now) sample_fromisoformat
      sample_exn_str (<["severity" := VStr "low"]> sample_alert) 0%nat.
Proof.
  split; [vm_compute; reflexivity|]. split; [vm_compute; reflexivity|].
  intros H.
  apply (f_equal (fun r => is_float (severity_component r) 0.25)) in H.
  vm_compute in H. discriminate.
Qed.

(** C7, where the code departs from it. A product whose current stock is 0,
    or whose reorder point is 0, gets no stock health at all: the enrichment
    returns and leaves the field as the alert had it, because the guard
    tests the two numbers for truth before the ratio is formed. With stock
    0 and reorder point 10 nothing is set (the ratio, 0, would be
    "critical"), with stock 5 and reorder point 0 nothing is set (the ratio
    would be "healthy"), while stock 1 and reorder point 10 give
    "critical". *)
Theorem stock_health_skipped_at_zero (alert product : dict) :
  stock_health_of
    (enrich_with_product_context alert (<["current_stock" := VInt 0]> product))
  = Ok (alert !! "stock_health") ∧
  stock_health_of
    (enrich_with_product_context alert (<["reorder_point" := VInt 0]> product))
  = Ok (alert !! "stock_health") ∧
  stock_health_of
    (enrich_with_product_context sample_alert
       (sample_product (VInt 0) (VInt 10)))
  = Ok None ∧
  stock_health_of
    (enrich_with_product_context sample_alert
       (sample_product (VInt 5) (VInt 0)))
  = Ok None ∧
  stock_health_of
    (enrich_with_product_context sample_alert
       (sample_product (VInt 1) (VInt 10)))
  = Ok (Some (VStr "critical")).
Proof.
  split; [|split; [|repeat split; vm_compute; reflexivity]].
  - unfold enrich_with_product_context, dict_get.
    rewrite lookup_insert_eq. cbn [default from_option id truthy Z.eqb negb andb].
    cbn [stock_health_of mbind result_bind]. by rewrite !lookup_insert_ne.
  - unfold enrich_with_product_context, dict_get.
    rewrite lookup_insert_eq. cbn [default from_option id truthy Z.eqb negb].
    rewrite andb_false_r.
    cbn [stock_health_of mbind result_bind]. by rewrite !lookup_insert_ne.
Qed.

(** C8. Scoring is total: for every alert, [calculate_alert_score] returns
    a record with a composite score and one of the four priorities. An
    absent confidence, impact or likelihood is scored as 0.5 is; and when
    anything fails inside, the record returned is the neutral one, with the
    score 0.5 and the priority p3. *)
Theorem calculate_alert_score_total (clock : nat → Z)
    (fromisoformat : string → option Z) (exn_str : exn → string)
    (alert : dict) (n : nat) :
  (∃ d n',
      calculate_alert_score clock fromisoformat exn_str alert n = (Ok d, n') ∧
      (∃ f, d !! "composite_score" = Some (VFloat f)) ∧
      (∃ p, d !! "priority" = Some (VStr (tier_name p)))) ∧
  calculate_alert_score clock fromisoformat exn_str (delete "confidence" alert) n =
    calculate_alert_score clock fromisoformat exn_str
      (<["confidence" := VFloat 0.5]> alert) n ∧
  calculate_alert_score clock fromisoformat exn_str (delete "impact_score" alert) n =
    calculate_alert_score clock fromisoformat exn_str
      (<["impact_score" := VFloat 0.5]> alert) n ∧
  calculate_alert_score clock fromisoformat exn_str (delete "likelihood" alert) n =
    calculate_alert_score clock fromisoformat exn_str
      (<["likelihood" := VFloat 0.5]> alert) n ∧
  (∀ e n',
      score_attempt clock fromisoformat alert n = (Raise e, n') →
      calculate_alert_score clock fromisoformat exn_str alert n =
        (Ok (scoring_error exn_str e), n') ∧
      scoring_error exn_str e !! "composite_score" = Some (VFloat 0.5) ∧
      scoring_error exn_str e !! "priority" = Some (VStr "p3")).
Proof.
  split; [|split; [|split; [|split]]].
  - destruct (calculate_alert_score_ok clock fromisoformat exn_str alert n)
      as (d & n' & f & E & Hf & Hp).
    exists d, n'. split; [exact E|]. split; [by exists f|exact Hp].
  - unfold calculate_alert_score, score_attempt.
    rewrite lookup_delete_eq, lookup_insert_eq.
    by rewrite !lookup_delete_ne, !lookup_insert_ne.
  - unfold calculate_alert_score, score_attempt.
    rewrite lookup_delete_eq, lookup_insert_eq.
    by rewrite !lookup_delete_ne, !lookup_insert_ne.
  - unfold calculate_alert_score, score_attempt.
    rewrite lookup_delete_eq, lookup_insert_eq.
    by rewrite !lookup_delete_ne, !lookup_insert_ne.
  - intros e n' E. unfold calculate_alert_score, try_except. rewrite E.
    repeat split; reflexivity.
Qed.

(** C9, where the code departs from it. The similarity of an alert with
    itself is never 1.0: for every alert that carries its creation time the
    function returns a number strictly below 1.0. When the product, the
    category and the severity all match, the sum 0.4 + 0.3 + 0.2 + 0.1 is
    taken in binary64 arithmetic and is 0.9999999999999999; and an alert
    without a creation time is given two separate readings of the clock, so
    that a clock that moves between them lowers the result further. *)
Theorem self_similarity_below_one (clock : nat → Z)
    (fromisoformat : string → option Z) (alert : dict) (c : Z) (n : nat) :
  (∃ f,
      calculate_similarity clock fromisoformat
        (<["created_at" := VDatetime c]> alert)
        (<["created_at" := VDatetime c]> alert) n = (Ok f, S (S n)) ∧
      (f <? 1.0)%float = true) ∧
  calculate_similarity (frozen sample_now) sample_fromisoformat sample_alert
    sample_alert 0%nat = (Ok 0.9999999999999999%float, 2%nat) ∧
  (0.9999999999999999 <? 1.0)%float = true ∧
  calculate_similarity (ticking sample_now) sample_fromisoformat
    (delete "created_at" sample_alert) (delete "created_at" sample_alert) 0%nat
  = (Ok 0.99999999999884248%float, 2%nat).
Proof.
  split; [|repeat split; vm_compute; reflexivity].
  unfold calculate_similarity.
  rewrite !Clk_bind_eq. unfold utcnow. rewrite !Clk_bind_eq. unfold utcnow.
  rewrite lookup_insert_eq. cbn [default from_option id].
  unfold lift, parse_if_str. rewrite !Clk_bind_eq.
  unfold sub_total_seconds. rewrite Z.sub_diag.
  unfold mret, Clk_ret.
  destruct (py_eq (dict_get _ "product_id") _),
    (py_eq (dict_get _ "category") _), (py_eq (dict_get _ "severity") _);
    eexists; (split; [reflexivity|vm_compute; reflexivity]).
Qed.

(** C10. For every batch of alerts whose scores are numbers (none is NaN),
    [batch_score_alerts] returns; what it returns is a permutation of the
    scored records, one for each alert of the batch ([{**alert, **score}]),
    in descending order of their composite scores, the highest first. *)
Theorem batch_score_alerts_sorted (clock : nat → Z)
    (fromisoformat : string → option Z) (exn_str : exn → string)
    (alerts : list dict) (n : nat) :
  scores_are_numbers (score_each clock fromisoformat exn_str alerts n) = true →
  ∃ scored out n',
    score_each clock fromisoformat exn_str alerts n = (Ok scored, n') ∧
    Forall2 (scored_as clock fromisoformat exn_str) alerts scored ∧
    batch_score_alerts clock fromisoformat exn_str alerts n = (Ok out, n') ∧
    Permutation scored out ∧
    StronglySorted score_ge out.
Proof.
  intros Hnum.
  destruct (score_each_ok clock fromisoformat exn_str alerts n)
    as (scored & n' & E & F).
  rewrite E in Hnum. cbn [scores_are_numbers fst] in Hnum.
  assert (N : Forall (fun x => is_number (score_key x) = true) scored).
  { clear E Hnum.
    induction F as [|a x rest scored' [m [m' [d [Ed ->]]]] F IH];
      constructor; [|exact IH].
    destruct (calculate_alert_score_ok clock fromisoformat exn_str a m)
      as (d' & m2 & f & Ed' & Hf & _).
    rewrite Ed in Ed'. injection Ed' as <- <-.
    unfold score_key. by rewrite (lookup_union_Some_l _ _ _ _ Hf). }
  assert (V : Forall (fun x => is_number (score_key x) = true ∧
                               is_Some (num_val (score_key x))) scored).
  { rewrite Forall_forall in N. apply Forall_forall. intros x Hx.
    split; [by apply N|].
    rewrite forallb_forall in Hnum. apply list_elem_of_In in Hx.
    specialize (Hnum x Hx). by destruct (num_val (score_key x)). }
  destruct (list_sort_descending score_key scored V) as (out & Eo & P & S).
  exists scored, out, n'. split; [exact E|]. split; [exact F|].
  split; [|split; [exact P|exact S]].
  unfold batch_score_alerts. rewrite Clk_bind_eq, E. unfold lift.
  fold score_key. by rewrite Eo.
Qed.

(** The sample batch of three alerts is scored and sorted. *)
Lemma batch_score_alerts_sorted_witness :
  ∃ scored out n',
    score_each (frozen sample_now) sample_fromisoformat sample_exn_str
      sample_batch 0%nat = (Ok scored, n') ∧
    Forall2 (scored_as (frozen sample_now) sample_fromisoformat sample_exn_str)
      sample_batch scored ∧
    batch_score_alerts (frozen sample_now) sample_fromisoformat sample_exn_str
      sample_batch 0%nat = (Ok out, n') ∧
    Permutation scored out ∧
    StronglySorted score_ge out.
Proof.
  apply batch_score_alerts_sorted. vm_compute. reflexivity.
Defined.

(** * Further properties of the code *)

(** ** What the steps of the pipeline leave alone *)

Lemma not_elem_of_cons_inv {A} (x y : A) (l : list A) :
  x ∉ y :: l → x ≠ y ∧ x ∉ l.
Proof. intros H. split; intros K; apply H; [subst; left|by right]. Qed.

(** A key that is not in a list of names differs from each of them. *)
Ltac split_keys H :=
  repeat match type of H with
    | _ ∉ _ :: _ =>
        let N := fresh "N" in
        apply not_elem_of_cons_inv in H as [N H]
    end.

Lemma calculate_composite_risk_frame (severity likelihood impact confidence :
    pyval) (ts : float) (d : dict) (k : string) :
  calculate_composite_risk severity likelihood impact confidence ts = Ok d →
  k ∉ score_keys → d !! k = None.
Proof.
  unfold calculate_composite_risk. intros H Hk.
  apply result_bind_ok in H as [w [_ H]].
  apply result_bind_ok in H as [c [_ H]].
  destruct (priority_tier c) as [p l]. injection H as <-.
  unfold score_keys in Hk. split_keys Hk.
  cbn [list_to_map foldr uncurry]. by rewrite !lookup_insert_ne.
Qed.

Section Frames.
Variable clock : nat → Z.
Variable fromisoformat : string → option Z.
Variable isoformat : Z → string.
Variable py_str : pyval → string.
Variable exn_str : exn → string.
Variable py_sum : list float → float.

Lemma calculate_alert_score_frame (alert : dict) (n n' : nat) (d : dict)
    (k : string) :
  calculate_alert_score clock fromisoformat exn_str alert n = (Ok d, n') →
  k ∉ score_keys → d !! k = None.
Proof.
  unfold calculate_alert_score, try_except. intros H Hk.
  destruct (score_attempt clock fromisoformat alert n) as [[r|e] m] eqn:E.
  - injection H as <- <-. unfold score_attempt in E.
    do 5 clk_step E. injection E as <- <-.
    unfold lift in E4. injection E4 as E4 _.
    pose proof (calculate_composite_risk_frame _ _ _ _ _ _ k E4 Hk) as K.
    unfold score_keys in Hk. split_keys Hk.
    by rewrite !lookup_insert_ne.
  - injection H as <- <-. unfold score_keys in Hk. split_keys Hk.
    unfold scoring_error. cbn [list_to_map foldr uncurry].
    by rewrite !lookup_insert_ne.
Qed.

Lemma enrich_with_product_context_frame (alert product enriched : dict)
    (k : string) :
  enrich_with_product_context alert product = Ok enriched →
  k ∉ product_keys → enriched !! k = alert !! k.
Proof.
  unfold enrich_with_product_context. intros H Hk.
  unfold product_keys in Hk. split_keys Hk.
  destruct (truthy _ && truthy _).
  - apply result_bind_ok in H as [cs [_ H]].
    apply result_bind_ok in H as [rp [_ H]].
    apply result_bind_ok in H as [dn [_ H]].
    apply result_bind_ok in H as [sr [_ H]].
    injection H as <-. by rewrite !lookup_insert_ne.
  - injection H as <-. by rewrite !lookup_insert_ne.
Qed.

Lemma enrich_with_historical_context_frame (alert enriched : dict)
    (history : list dict) (k : string) :
  enrich_with_historical_context fromisoformat py_sum alert history = Ok enriched →
  k ∉ history_keys → enriched !! k = alert !! k.
Proof.
  unfold enrich_with_historical_context. intros H Hk.
  unfold history_keys in Hk. split_keys Hk.
  destruct (List.filter _ history) as [|h hs].
  - injection H as <-. by rewrite !lookup_insert_ne.
  - apply result_bind_ok in H as [times [_ H]].
    destruct times as [|t ts].
    + injection H as <-. by rewrite !lookup_insert_ne.
    + apply result_bind_ok in H as [count [_ H]].
      apply result_bind_ok in H as [average [_ H]].
      injection H as <-. by rewrite !lookup_insert_ne.
Qed.

Lemma check_sla_breach_frame (alert sla : dict) (n n' : nat) (k : string) :
  check_sla_breach clock fromisoformat isoformat alert n = (Ok sla, n') →
  k ∉ sla_keys → sla !! k = None.
Proof.
  unfold check_sla_breach. intros H Hk. clk_step H.
  unfold mbind, Clk_bind, utcnow, mret, Clk_ret in H.
  unfold sla_keys in Hk. split_keys Hk.
  destruct (_ <? 0)%float; [|destruct (_ <? 2)%float; [|destruct (_ <? 12)%float]];
    injection H as <- <-; cbn [list_to_map foldr uncurry];
    by rewrite !lookup_insert_ne.
Qed.
End Frames.

(** ** The pipeline as a whole *)

(** One step of a computation that returned, with names for the value, the
    state and the equation of the first bound computation. *)
Ltac clk_bind H a m E :=
  rewrite Clk_bind_eq in H;
  match type of H with
  | match ?c ?n with _ => _ end = _ =>
      destruct (c n) as [[a|?] m] eqn:E; [|discriminate H]
  end.

Section Pipeline.
Variable clock : nat → Z.
Variable fromisoformat : string → option Z.
Variable isoformat : Z → string.
Variable exn_str : exn → string.
Variable py_sum : list float → float.

(** The steps of a run of the pipeline that returns. *)
Lemma process_alert_inv (alert : dict) (product : option dict)
    (history : option (list dict)) (n n' : nat) (processed : dict) :
  process_alert clock fromisoformat isoformat exn_str py_sum alert product
    history n = (Ok processed, n') →
  ∃ score n1 p1 p2 deadline n2 sla n3 level,
    calculate_alert_score clock fromisoformat exn_str alert n
    = (Ok score, n1) ∧
    match product with
    | Some p =>
        if dict_truthy p then enrich_with_product_context (score ∪ alert) p
        else Ok (score ∪ alert)
    | None => Ok (score ∪ alert)
    end = Ok p1 ∧
    match history with
    | Some (h :: hs) =>
        enrich_with_historical_context fromisoformat py_sum p1 (h :: hs)
    | _ => Ok p1
    end = Ok p2 ∧
    calculate_sla_deadline clock fromisoformat p2 n1 = (Ok deadline, n2) ∧
    check_sla_breach clock fromisoformat isoformat p2 n2 = (Ok sla, n3) ∧
    determine_escalation clock fromisoformat isoformat
      (sla ∪ <["sla_deadline" := VDatetime deadline]> p2) n3
    = (Ok level, n') ∧
    processed =
      <["recommended_actions" :=
          VList (map VStr
                   (generate_recommendations
                      (<["requires_escalation" :=
                           VBool (match level with
                                  | Some _ => true
                                  | None => false
                                  end)]>
                         (<["escalation_level" := of_option level]>
                            (sla ∪ <["sla_deadline" := VDatetime deadline]> p2)))))]>
        (<["requires_escalation" :=
             VBool (match level with Some _ => true | None => false end)]>
           (<["escalation_level" := of_option level]>
              (sla ∪ <["sla_deadline" := VDatetime deadline]> p2))).
Proof.
  unfold process_alert. intros H.
  clk_bind H score n1 E. clk_bind H p1 m1 E1. clk_bind H p2 m2 E2.
  clk_bind H deadline n2 E3. clk_bind H sla n3 E4. clk_bind H level n4 E5.
  injection H as <- <-.
  assert (K1 : match product with
               | Some p =>
                   if dict_truthy p
                   then enrich_with_product_context (score ∪ alert) p
                   else Ok (score ∪ alert)
               | None => Ok (score ∪ alert)
               end = Ok p1 ∧ m1 = n1).
  { destruct product as [p|]; [destruct (dict_truthy p)|];
      unfold lift, mret, Clk_ret in E1; by injection E1 as -> ->. }
  destruct K1 as [K1 ->].
  assert (K2 : match history with
               | Some (h :: hs) =>
                   enrich_with_historical_context fromisoformat py_sum p1
                     (h :: hs)
               | _ => Ok p1
               end = Ok p2 ∧ m2 = n1).
  { destruct history as [[|h hs]|];
      unfold lift, mret, Clk_ret in E2; by injection E2 as -> ->. }
  destruct K2 as [K2 ->].
  exists score, n1, p1, p2, deadline, n2, sla, n3, level.
  split; [reflexivity|]. by repeat (split; [assumption|]).
Qed.

End Pipeline.

Section PipelineFacts.
Variable clock : nat → Z.
Variable fromisoformat : string → option Z.
Variable isoformat : Z → string.
Variable exn_str : exn → string.
Variable py_sum : list float → float.

(** What the two enrichment steps, when they return, leave alone. *)
Lemma enrichment_frame (base p1 p2 : dict) (product : option dict)
    (history : option (list dict)) (k : string) :
  match product with
  | Some p =>
      if dict_truthy p then enrich_with_product_context base p else Ok base
  | None => Ok base
  end = Ok p1 →
  match history with
  | Some (h :: hs) =>
      enrich_with_historical_context fromisoformat py_sum p1 (h :: hs)
  | _ => Ok p1
  end = Ok p2 →
  k ∉ product_keys → k ∉ history_keys → p2 !! k = base !! k.
Proof.
  intros H1 H2 Kp Kh.
  assert (E2 : p2 !! k = p1 !! k).
  { destruct history as [[|h hs]|]; try by injection H2 as <-.
    by apply (enrich_with_historical_context_frame fromisoformat py_sum
                _ _ _ _ H2). }
  rewrite E2. destruct product as [p|]; [destruct (dict_truthy p)|];
    try by injection H1 as <-.
  by apply (enrich_with_product_context_frame _ _ _ _ H1).
Qed.

(** The score and the priority of a scoring that returned. *)
Lemma calculate_alert_score_fields (alert d : dict) (n n' : nat) :
  calculate_alert_score clock fromisoformat exn_str alert n = (Ok d, n') →
  ∃ f p, d !! "composite_score" = Some (VFloat f) ∧
         d !! "priority" = Some (VStr (tier_name p)).
Proof.
  intros H.
  destruct (calculate_alert_score_ok clock fromisoformat exn_str alert n)
    as (d' & m & f & E & Hf & p & Hp).
  rewrite H in E. injection E as <- <-. by exists f, p.
Qed.

(** The SLA check reads the priority, the creation time and the clock, and
    nothing else. *)
Lemma check_sla_breach_ext (a b : dict) (n m : nat) :
  a !! "priority" = b !! "priority" →
  a !! "created_at" = b !! "created_at" →
  clock n = clock m → clock (S n) = clock (S m) →
  fst (check_sla_breach clock fromisoformat isoformat a n)
  = fst (check_sla_breach clock fromisoformat isoformat b m).
Proof.
  intros Hp Hc H0 H1.
  unfold check_sla_breach, calculate_sla_deadline.
  rewrite Hp, Hc. unfold mbind, Clk_bind, utcnow, lift. rewrite H0.
  destruct (parse_if_str fromisoformat _) as [c|e]; [|reflexivity].
  destruct (lookup_val SLA_TARGETS _ 72) as [h|e]; [|reflexivity].
  destruct (add_hours c h) as [t|e]; [|reflexivity].
  rewrite H1. set (tr := (total_seconds _ / 3600)%float).
  destruct (tr <? 0)%float; [reflexivity|].
  destruct (tr <? 2)%float; [reflexivity|].
  destruct (tr <? 12)%float; reflexivity.
Qed.

(** X1. A field that no step of the pipeline produces comes out of
    [process_alert] as it went in, whatever the product and the history. *)
Theorem process_alert_passes_fields (alert : dict) (product : option dict)
    (history : option (list dict)) (n : nat) (k : string) :
  k ∉ pipeline_keys →
  match process_alert clock fromisoformat isoformat exn_str py_sum alert
          product history n with
  | (Ok processed, _) => processed !! k = alert !! k
  | (Raise _, _) => True
  end.
Proof.
  intros Hk.
  destruct (process_alert _ _ _ _ _ _ _ _ _) as [[processed|e] n'] eqn:H;
    [|exact I].
  apply process_alert_inv in H
    as (score & n1 & p1 & p2 & deadline & n2 & sla & n3 & level
        & Es & E1 & E2 & Ed & Ec & Ee & ->).
  unfold pipeline_keys in Hk.
  apply not_elem_of_app in Hk as [Ks Hk].
  apply not_elem_of_app in Hk as [Kp Hk].
  apply not_elem_of_app in Hk as [Kh Hk].
  apply not_elem_of_app in Hk as [Kl Hk].
  split_keys Hk. rewrite !lookup_insert_ne by done.
  rewrite (lookup_union_r _ _ _ (check_sla_breach_frame _ _ _ _ _ _ _ _ Ec Kl)).
  unfold sla_keys in Kl. split_keys Kl. rewrite lookup_insert_ne by done.
  rewrite (enrichment_frame _ _ _ _ _ _ E1 E2 Kp Kh).
  by rewrite (lookup_union_r _ _ _
                (calculate_alert_score_frame _ _ _ _ _ _ _ _ Es Ks)).
Qed.

End PipelineFacts.

Lemma process_alert_passes_fields_witness :
  match process_alert (frozen sample_now) sample_fromisoformat
          sample_isoformat sample_exn_str (fun _ => 0%float) sample_alert
          None None 0%nat with
  | (Ok processed, _) =>
      processed !! "description" = sample_alert !! "description"
  | (Raise _, _) => True
  end.
Proof.
  apply process_alert_passes_fields. unfold pipeline_keys. cbn.
  intros H. by repeat (apply elem_of_cons in H as [H|H]; [discriminate H|]);
    apply elem_of_nil in H.
Defined.

Section PipelineResult.
Variable clock : nat → Z.
Variable fromisoformat : string → option Z.
Variable isoformat : Z → string.
Variable exn_str : exn → string.
Variable py_sum : list float → float.

(** The level [determine_escalation] returns is none or one of the three
    levels of the table. *)
Lemma determine_escalation_level (alert : dict) (n n' : nat)
    (level : option string) :
  determine_escalation clock fromisoformat isoformat alert n = (Ok level, n') →
  ∃ (sla : dict) (s : sla_state),
    check_sla_breach clock fromisoformat isoformat alert n = (Ok sla, n') ∧
    sla !! "sla_status" = Some (VStr (sla_state_name s)) ∧
    level =
      escalation_name
        match tier_of (default (VStr "p3") (alert !! "priority")) with
        | Some p => escalation_table p s (risk_of_state s)
        | None => NoEscalation
        end.
Proof.
  intros H.
  pose proof (determine_escalation_table clock fromisoformat isoformat alert n)
    as K.
  destruct (check_sla_breach clock fromisoformat isoformat alert n)
    as [[sla|e] m]; [|congruence].
  destruct K as (s & Hs & _ & K). rewrite H in K. injection K as -> ->.
  by exists sla, s.
Qed.

Lemma tier_of_name (p : tier) : tier_of (VStr (tier_name p)) = Some p.
Proof. by destruct p. Qed.

(** The fields of the record as it stands when the escalation is decided:
    after the scoring, the enrichment and the SLA check. *)
Lemma pre_escalation_fields (alert score p1 p2 sla : dict)
    (product : option dict) (history : option (list dict))
    (n n1 n2 n3 : nat) (deadline : Z) :
  calculate_alert_score clock fromisoformat exn_str alert n = (Ok score, n1) →
  match product with
  | Some p =>
      if dict_truthy p then enrich_with_product_context (score ∪ alert) p
      else Ok (score ∪ alert)
  | None => Ok (score ∪ alert)
  end = Ok p1 →
  match history with
  | Some (h :: hs) =>
      enrich_with_historical_context fromisoformat py_sum p1 (h :: hs)
  | _ => Ok p1
  end = Ok p2 →
  check_sla_breach clock fromisoformat isoformat p2 n2 = (Ok sla, n3) →
  ∃ (f : float) (p : tier) (s : sla_state) (t : Z),
    score !! "composite_score" = Some (VFloat f) ∧
    score !! "priority" = Some (VStr (tier_name p)) ∧
    sla !! "sla_status" = Some (VStr (sla_state_name s)) ∧
    (sla ∪ <["sla_deadline" := VDatetime deadline]> p2) !! "composite_score"
    = Some (VFloat f) ∧
    (sla ∪ <["sla_deadline" := VDatetime deadline]> p2) !! "priority"
    = Some (VStr (tier_name p)) ∧
    (sla ∪ <["sla_deadline" := VDatetime deadline]> p2) !! "sla_status"
    = Some (VStr (sla_state_name s)) ∧
    (sla ∪ <["sla_deadline" := VDatetime deadline]> p2) !! "breach_risk"
    = Some (VStr (risk_name (risk_of_state s))) ∧
    (sla ∪ <["sla_deadline" := VDatetime deadline]> p2) !! "sla_deadline"
    = Some (VStr (isoformat t)).
Proof.
  intros Es E1 E2 Ec.
  destruct (calculate_alert_score_fields _ _ _ _ _ _ _ Es)
    as (f & p & Hf & Hp).
  destruct (check_sla_breach_shape _ _ _ _ _ _ _ Ec) as (s & Hs & Hr).
  assert (Hd : ∃ t, sla !! "sla_deadline" = Some (VStr (isoformat t))).
  { clear -Ec. unfold check_sla_breach in Ec. clk_bind Ec t m E.
    unfold mbind, Clk_bind, utcnow, mret, Clk_ret in Ec. exists t.
    destruct (_ <? 0)%float;
      [|destruct (_ <? 2)%float; [|destruct (_ <? 12)%float]];
      by injection Ec as <- <-. }
  destruct Hd as [t Hd].
  assert (P2 : ∀ k, k ∉ product_keys → k ∉ history_keys →
               k ∉ sla_keys →
               (sla ∪ <["sla_deadline" := VDatetime deadline]> p2) !! k
               = (score ∪ alert) !! k).
  { intros k Kp Kh Ks.
    rewrite (lookup_union_r _ _ _
               (check_sla_breach_frame _ _ _ _ _ _ _ _ Ec Ks)).
    unfold sla_keys in Ks. split_keys Ks.
    rewrite lookup_insert_ne by done.
    by apply (enrichment_frame fromisoformat py_sum _ _ _ _ _ _ E1 E2). }
  exists f, p, s, t. split; [exact Hf|]. split; [exact Hp|].
  split; [exact Hs|].
  rewrite !P2
    by (unfold product_keys, history_keys, sla_keys;
        rewrite !not_elem_of_cons; repeat split; try done;
        apply not_elem_of_nil).
  rewrite (lookup_union_Some_l _ _ _ _ Hf), (lookup_union_Some_l _ _ _ _ Hp).
  rewrite (lookup_union_Some_l _ _ _ _ Hs), (lookup_union_Some_l _ _ _ _ Hr),
    (lookup_union_Some_l _ _ _ _ Hd).
  by repeat split.
Qed.

(** X2. Every record [process_alert] returns is complete and computed: its
    composite score is a float; its priority is one of p1..p4, the one the
    scorer found (a priority the input carried is overwritten); its SLA
    status is one of the four states, with the breach risk that goes with
    it; its [sla_deadline] is the ISO text of the deadline, not the
    datetime that was stored first; its escalation level is none or an
    entry of the table for that priority; [requires_escalation] says
    whether there is a level; and the recommended actions are a list of
    texts. *)
Theorem process_alert_result (alert : dict) (product : option dict)
    (history : option (list dict)) (n : nat) :
  match process_alert clock fromisoformat isoformat exn_str py_sum alert
          product history n with
  | (Ok processed, _) =>
      ∃ (f : float) (p : tier) (s s' : sla_state) (t : Z) (score : dict)
        (m m' : nat),
        calculate_alert_score clock fromisoformat exn_str alert m
        = (Ok score, m') ∧
        processed !! "composite_score" = score !! "composite_score" ∧
        processed !! "composite_score" = Some (VFloat f) ∧
        processed !! "priority" = score !! "priority" ∧
        processed !! "priority" = Some (VStr (tier_name p)) ∧
        processed !! "sla_status" = Some (VStr (sla_state_name s)) ∧
        processed !! "breach_risk"
        = Some (VStr (risk_name (risk_of_state s))) ∧
        processed !! "sla_deadline" = Some (VStr (isoformat t)) ∧
        processed !! "escalation_level"
        = Some (of_option
                  (escalation_name (escalation_table p s' (risk_of_state s')))) ∧
        processed !! "requires_escalation"
        = Some (VBool
                  (match escalation_table p s' (risk_of_state s') with
                   | NoEscalation => false
                   | _ => true
                   end)) ∧
        ∃ actions, processed !! "recommended_actions"
                   = Some (VList (map VStr actions))
  | (Raise _, _) => True
  end.
Proof.
  destruct (process_alert _ _ _ _ _ _ _ _ _) as [[processed|e] n'] eqn:H;
    [|exact I].
  apply process_alert_inv in H
    as (score & n1 & p1 & p2 & deadline & n2 & sla & n3 & level
        & Es & E1 & E2 & Ed & Ec & Ee & ->).
  destruct (pre_escalation_fields _ _ _ _ _ _ _ _ _ _ _ deadline Es E1 E2 Ec)
    as (f & p & s & t & Hf & Hp & _ & Pc & Pp & Ps & Pr & Pd).
  apply determine_escalation_level in Ee as (sla' & s' & _ & _ & ->).
  rewrite Pp. cbn [default from_option id]. rewrite tier_of_name.
  exists f, p, s, s', t, score, n, n1.
  split; [exact Es|].
  repeat (rewrite lookup_insert_ne by done).
  rewrite Pc, Pp, Ps, Pr, Pd, Hf, Hp.
  repeat (split; [reflexivity|]).
  split;
    [repeat (rewrite lookup_insert_ne by done); by rewrite lookup_insert_eq|].
  split.
  - repeat (rewrite lookup_insert_ne by done). rewrite lookup_insert_eq.
    by destruct (escalation_table p s' (risk_of_state s')).
  - rewrite lookup_insert_eq. by eexists.
Qed.
End PipelineResult.

Lemma sla_state_name_inj (s s' : sla_state) :
  sla_state_name s = sla_state_name s' → s = s'.
Proof. by destruct s, s'. Qed.

Section PipelineClock.
Variable clock : nat → Z.
Variable fromisoformat : string → option Z.
Variable isoformat : Z → string.
Variable exn_str : exn → string.
Variable py_sum : list float → float.

(** X3. While the clock stands still, the record [process_alert] returns
    agrees with itself: its escalation level is the entry of the table for
    its own priority and its own SLA status. (The level is decided on an
    SLA check of its own, made after the one that is recorded.) *)
Theorem process_alert_consistent (alert : dict) (product : option dict)
    (history : option (list dict)) (n : nat) :
  (∀ i j, clock i = clock j) →
  match process_alert clock fromisoformat isoformat exn_str py_sum alert
          product history n with
  | (Ok processed, _) =>
      ∃ (p : tier) (s : sla_state),
        processed !! "priority" = Some (VStr (tier_name p)) ∧
        processed !! "sla_status" = Some (VStr (sla_state_name s)) ∧
        processed !! "escalation_level"
        = Some (of_option
                  (escalation_name (escalation_table p s (risk_of_state s))))
  | (Raise _, _) => True
  end.
Proof.
  intros Hclock.
  destruct (process_alert _ _ _ _ _ _ _ _ _) as [[processed|e] n'] eqn:H;
    [|exact I].
  apply process_alert_inv in H
    as (score & n1 & p1 & p2 & deadline & n2 & sla & n3 & level
        & Es & E1 & E2 & Ed & Ec & Ee & ->).
  destruct (pre_escalation_fields _ _ _ _ _ _ _ _ _ _ _ _ _ _ _ _ deadline
              Es E1 E2 Ec)
    as (f & p & s & t & _ & _ & Hs & _ & Pp & Ps & _).
  exists p, s.
  repeat (rewrite lookup_insert_ne by done). rewrite Pp, Ps.
  split; [reflexivity|]. split; [reflexivity|].
  apply determine_escalation_level in Ee as (sla' & s2 & Ec' & Hs2 & ->).
  assert (Np : ∀ k, k ∉ sla_keys →
               (sla ∪ <["sla_deadline" := VDatetime deadline]> p2) !! k
               = p2 !! k).
  { intros k Kk.
    rewrite (lookup_union_r _ _ _
               (check_sla_breach_frame _ _ _ _ _ _ _ _ Ec Kk)).
    unfold sla_keys in Kk. split_keys Kk. by rewrite lookup_insert_ne. }
  assert (K : fst (check_sla_breach clock fromisoformat isoformat
                     (sla ∪ <["sla_deadline" := VDatetime deadline]> p2) n3)
              = fst (check_sla_breach clock fromisoformat isoformat p2 n2)).
  { apply check_sla_breach_ext; try apply Hclock; apply Np;
      unfold sla_keys; rewrite !not_elem_of_cons; repeat split; try done;
      apply not_elem_of_nil. }
  rewrite Ec, Ec' in K. cbn [fst] in K. injection K as ->.
  rewrite Hs in Hs2.
  assert (s2 = s) as -> by (apply sla_state_name_inj; congruence).
  repeat (rewrite lookup_insert_ne by done). rewrite lookup_insert_eq.
  rewrite Pp. cbn [default from_option id]. by rewrite tier_of_name.
Qed.

(** X4. Text in [created_at] that is no ISO date does not stop the scoring,
    which returns its neutral record; but the pipeline as a whole does not
    return: the SLA deadline parses the text again and its [ValueError] is
    not caught. *)
Theorem process_alert_bad_created_at (alert : dict) (product : option dict)
    (history : option (list dict)) (n : nat) (s : string) :
  alert !! "created_at" = Some (VStr s) →
  fromisoformat s = None →
  calculate_alert_score clock fromisoformat exn_str alert n
  = (Ok (scoring_error exn_str ValueError), S n) ∧
  is_ok (fst (process_alert clock fromisoformat isoformat exn_str py_sum
                alert product history n)) = false ∧
  process_alert clock fromisoformat isoformat exn_str py_sum alert None None n
  = (Raise ValueError, S (S n)).
Proof.
  intros Hc Hs.
  assert (E : calculate_alert_score clock fromisoformat exn_str alert n
              = (Ok (scoring_error exn_str ValueError), S n)).
  { unfold calculate_alert_score, try_except, score_attempt.
    rewrite Hc. cbn [default from_option id].
    rewrite Clk_bind_eq. unfold utcnow at 1.
    rewrite Clk_bind_eq. unfold lift, parse_if_str. by rewrite Hs. }
  split; [exact E|]. split.
  - destruct (process_alert _ _ _ _ _ _ _ _ _) as [[processed|e] n'] eqn:H;
      [|reflexivity].
    apply process_alert_inv in H
      as (score & n1 & p1 & p2 & deadline & n2 & sla & n3 & level
          & Es & E1 & E2 & Ed & _).
    rewrite E in Es. injection Es as <- <-.
    assert (K : p2 !! "created_at" = Some (VStr s)).
    { rewrite (enrichment_frame fromisoformat py_sum _ _ _ _ _ _ E1 E2);
        try (unfold product_keys, history_keys;
             rewrite !not_elem_of_cons; repeat split; try done;
             apply not_elem_of_nil).
      by rewrite lookup_union_r by reflexivity. }
    unfold calculate_sla_deadline in Ed. rewrite K in Ed.
    cbn [default from_option id] in Ed.
    rewrite Clk_bind_eq in Ed. unfold utcnow at 1 in Ed.
    rewrite Clk_bind_eq in Ed. unfold lift, parse_if_str in Ed.
    rewrite Hs in Ed. discriminate Ed.
  - unfold process_alert. rewrite Clk_bind_eq, E.
    unfold mret, Clk_ret. rewrite !Clk_bind_eq.
    unfold calculate_sla_deadline.
    rewrite (lookup_union_r _ _ "created_at") by reflexivity. rewrite Hc.
    cbn [default from_option id].
    rewrite Clk_bind_eq. unfold utcnow at 1.
    rewrite !Clk_bind_eq. unfold lift, parse_if_str. by rewrite Hs.
Qed.

(** X5. A confidence, an impact score or a likelihood that is present but
    is no number (a [None] that the caller's record carries, or text) makes
    the scoring return its neutral record: the score 0.5, the priority p3
    and the label "Error in scoring". *)
Theorem calculate_alert_score_not_a_number (alert : dict) (n : nat)
    (k : string) (v : pyval) :
  k ∈ ["confidence"; "impact_score"; "likelihood"] →
  alert !! k = Some v → is_number v = false →
  ∃ e n',
    calculate_alert_score clock fromisoformat exn_str alert n
    = (Ok (scoring_error exn_str e), n') ∧
    scoring_error exn_str e !! "composite_score" = Some (VFloat 0.5) ∧
    scoring_error exn_str e !! "priority" = Some (VStr "p3") ∧
    scoring_error exn_str e !! "priority_label"
    = Some (VStr "Error in scoring").
Proof.
  intros Hk Hv Hn.
  assert (T : ∀ c, py_mul_f v c = Raise TypeError).
  { intros c. by destruct v. }
  unfold calculate_alert_score, try_except.
  destruct (score_attempt clock fromisoformat alert n) as [[d|e] n'] eqn:E.
  - exfalso. unfold score_attempt in E.
    clk_bind E now0 m0 E0. clk_bind E created m1 E1. clk_bind E now1 m2 E2.
    clk_bind E seconds m3 E3. clk_bind E scored m4 E4.
    unfold lift in E4. injection E4 as E4 _.
    unfold calculate_composite_risk in E4.
    apply result_bind_ok in E4 as [w [_ E4]].
    apply result_bind_ok in E4 as [c [E4 _]].
    unfold composite_formula in E4.
    rewrite !elem_of_cons in Hk.
    destruct Hk as [-> | [-> | [-> | Hk]]]; [| | |by apply elem_of_nil in Hk];
      rewrite Hv in E4; cbn [default from_option id] in E4.
    + apply result_bind_ok in E4 as [l [_ E4]].
      apply result_bind_ok in E4 as [i [_ E4]].
      by rewrite T in E4.
    + apply result_bind_ok in E4 as [l [_ E4]].
      by rewrite T in E4.
    + by rewrite T in E4.
  - exists e, n'. repeat split; reflexivity.
Qed.
End PipelineClock.

Lemma process_alert_consistent_witness :
  match process_alert (frozen sample_now) sample_fromisoformat
          sample_isoformat sample_exn_str (fun _ => 0%float) sample_alert
          None None 0%nat with
  | (Ok processed, _) =>
      ∃ (p : tier) (s : sla_state),
        processed !! "priority" = Some (VStr (tier_name p)) ∧
        processed !! "sla_status" = Some (VStr (sla_state_name s)) ∧
        processed !! "escalation_level"
        = Some (of_option
                  (escalation_name (escalation_table p s (risk_of_state s))))
  | (Raise _, _) => True
  end.
Proof. apply process_alert_consistent. reflexivity. Defined.

Lemma process_alert_bad_created_at_witness :
  is_ok (fst (process_alert (frozen sample_now) sample_fromisoformat
                sample_isoformat sample_exn_str (fun _ => 0%float)
                (<["created_at" := VStr "yesterday"]> sample_alert)
                None None 0%nat)) = false.
Proof.
  apply (process_alert_bad_created_at (frozen sample_now)
           sample_fromisoformat sample_isoformat sample_exn_str
           (fun _ => 0%float) _ None None 0%nat "yesterday");
    reflexivity.
Defined.

Lemma calculate_alert_score_not_a_number_witness :
  ∃ e n',
    calculate_alert_score (frozen sample_now) sample_fromisoformat
      sample_exn_str (<["confidence" := VNone]> sample_alert) 0%nat
    = (Ok (scoring_error sample_exn_str e), n') ∧
    scoring_error sample_exn_str e !! "composite_score" = Some (VFloat 0.5) ∧
    scoring_error sample_exn_str e !! "priority" = Some (VStr "p3") ∧
    scoring_error sample_exn_str e !! "priority_label"
    = Some (VStr "Error in scoring").
Proof.
  apply (calculate_alert_score_not_a_number (frozen sample_now)
           sample_fromisoformat sample_exn_str _ 0%nat "confidence" VNone);
    [by left|reflexivity|reflexivity].
Defined.

Lemma sla_hours_of_tier (p : tier) :
  ∃ h, lookup_val SLA_TARGETS (VStr (tier_name p)) 72 = Ok h ∧ 4 <= h <= 168.
Proof.
  destruct p; [exists 4|exists 24|exists 72|exists 168];
    (split; [reflexivity|lia]).
Qed.


Section PipelineReturns.
Variable clock : nat → Z.
Variable fromisoformat : string → option Z.
Variable isoformat : Z → string.
Variable exn_str : exn → string.
Variable py_sum : list float → float.






End PipelineReturns.


(** ** The recommendations *)

(** X7. The recommendations are at most six; there is none exactly when
    the priority is not p1, the category is none of quality, supply and
    demand, the stock health is not critical and the alert is not recurring;
    for p1 the list starts with the two urgent actions; and for a recurring
    alert it ends with the search for the root cause. *)
Theorem generate_recommendations_shape (alert : dict) :
  let priority := default (VStr "p3") (alert !! "priority") in
  let category := default (VStr "") (alert !! "category") in
  let actions := generate_recommendations alert in
  (length actions <= 6)%nat ∧
  (actions = [] ↔
   py_eq priority (VStr "p1") = false ∧
   py_eq category (VStr "quality") = false ∧
   py_eq category (VStr "supply") = false ∧
   py_eq category (VStr "demand") = false ∧
   py_eq (dict_get alert "stock_health") (VStr "critical") = false ∧
   truthy (dict_get alert "is_recurring") = false) ∧
  (py_eq priority (VStr "p1") = true →
   ∃ rest, actions = "Immediate investigation required"
                     :: "Notify relevant stakeholders" :: rest) ∧
  (truthy (dict_get alert "is_recurring") = true →
   last actions = Some "Investigate root cause (recurring issue)").
Proof.
  intros priority category actions. subst actions.
  unfold generate_recommendations. fold priority category.
  destruct (py_eq priority (VStr "p1")),
    (py_eq category (VStr "quality")), (py_eq category (VStr "supply")),
    (py_eq category (VStr "demand")),
    (py_eq (dict_get alert "stock_health") (VStr "critical")),
    (truthy (dict_get alert "is_recurring"));
    cbn [app length last];
    (split; [lia|]);
    (split; [split; [try discriminate; try (intros _; by repeat split)
                    |intros (? & ? & ? & ? & ? & ?);
                     try discriminate; reflexivity]|]);
    (split; [intros ?; try discriminate; by eexists
            |intros ?; try discriminate; reflexivity]).
Qed.

(** ** The history of an alert *)

Section History.
Variable fromisoformat : string → option Z.
Variable py_sum : list float → float.

Lemma resolution_times_of_skips (resolved : list dict) :
  Forall (fun h => truthy (dict_get h "created_at")
                   && truthy (dict_get h "resolved_at") = false) resolved →
  resolution_times_of fromisoformat resolved = Ok [].
Proof.
  induction 1 as [|h rest Hh _ IH]; [reflexivity|].
  cbn [resolution_times_of]. rewrite Hh, IH. reflexivity.
Qed.

(** X8. A history none of whose entries is resolved with both of its times
    never makes the enrichment fail and gives no average: the alert gets
    the number of entries of its category and the flag [is_recurring],
    true from three such entries on, and [avg_resolution_hours] stays as
    it was. Resolved entries without a creation time are left out, they do
    not count as zero. *)
Theorem enrich_with_historical_context_no_average (alert : dict)
    (history : list dict) :
  Forall (fun h => resolved_with_times h = false) history →
  ∃ enriched,
    enrich_with_historical_context fromisoformat py_sum alert history
    = Ok enriched ∧
    enriched !! "similar_alerts_past_30_days"
    = Some (VInt (similar_count alert history)) ∧
    enriched !! "is_recurring"
    = Some (VBool (3 <=? similar_count alert history)) ∧
    enriched !! "avg_resolution_hours" = alert !! "avg_resolution_hours" ∧
    ∀ k, k ∉ history_keys → enriched !! k = alert !! k.
Proof.
  intros H. unfold enrich_with_historical_context.
  fold (similar_count alert history).
  set (resolved := List.filter _ history).
  assert (T : resolution_times_of fromisoformat resolved = Ok []).
  { apply resolution_times_of_skips. subst resolved.
    apply List.Forall_forall. intros h Hh.
    apply List.filter_In in Hh as [Hin Hres].
    rewrite List.Forall_forall in H. specialize (H h Hin).
    unfold resolved_with_times in H.
    apply andb_true_iff in Hres as [Hs Hr]. rewrite Hs, Hr in H.
    cbn [andb] in H. by rewrite H. }
  assert (B : (2 <? similar_count alert history)
              = (3 <=? similar_count alert history)).
  { destruct (Z.ltb_spec 2 (similar_count alert history)),
      (Z.leb_spec 3 (similar_count alert history)); try reflexivity; lia. }
  rewrite B.
  assert (K : ∃ enriched,
            match resolved with
            | [] =>
                Ok (<["is_recurring" :=
                        VBool (3 <=? similar_count alert history)]>
                      (<["similar_alerts_past_30_days" :=
                           VInt (similar_count alert history)]> alert))
            | _ :: _ =>
                resolution_times ← resolution_times_of fromisoformat resolved;
                match resolution_times with
                | [] =>
                    Ok (<["is_recurring" :=
                            VBool (3 <=? similar_count alert history)]>
                          (<["similar_alerts_past_30_days" :=
                               VInt (similar_count alert history)]> alert))
                | _ :: _ =>
                    count ←
                      int_to_float (Z.of_nat (length resolution_times));
                    average ←
                      py_div_f (VFloat (py_sum resolution_times)) count;
                    Ok (<["avg_resolution_hours" := VFloat average]>
                          (<["is_recurring" :=
                               VBool (3 <=? similar_count alert history)]>
                             (<["similar_alerts_past_30_days" :=
                                  VInt (similar_count alert history)]>
                                alert)))
                end
            end = Ok enriched ∧
            enriched =
              <["is_recurring" := VBool (3 <=? similar_count alert history)]>
                (<["similar_alerts_past_30_days" :=
                     VInt (similar_count alert history)]> alert)).
  { rewrite T. destruct resolved; by eexists. }
  destruct K as (enriched & -> & ->). eexists. split; [reflexivity|].
  split; [by rewrite lookup_insert_ne, lookup_insert_eq|].
  split; [by rewrite lookup_insert_eq|].
  split; [by rewrite !lookup_insert_ne|].
  intros k Hk. unfold history_keys in Hk. split_keys Hk.
  by rewrite !lookup_insert_ne.
Qed.
End History.

Lemma enrich_with_historical_context_no_average_witness :
  ∃ enriched,
    enrich_with_historical_context sample_fromisoformat (fun _ => 0%float)
      sample_alert
      [sample_alert; delete "created_at" (<["status" := VStr "resolved"]>
                                         (<["resolved_at" := VDatetime sample_now]>
                                            sample_alert))]
    = Ok enriched ∧
    enriched !! "similar_alerts_past_30_days"
    = Some (VInt (similar_count sample_alert
                    [sample_alert;
                     delete "created_at" (<["status" := VStr "resolved"]>
                                            (<["resolved_at" := VDatetime sample_now]>
                                               sample_alert))])) ∧
    enriched !! "is_recurring"
    = Some (VBool (3 <=? similar_count sample_alert
                    [sample_alert;
                     delete "created_at" (<["status" := VStr "resolved"]>
                                            (<["resolved_at" := VDatetime sample_now]>
                                               sample_alert))])) ∧
    enriched !! "avg_resolution_hours" = sample_alert !! "avg_resolution_hours" ∧
    ∀ k, k ∉ history_keys → enriched !! k = sample_alert !! k.
Proof.
  apply enrich_with_historical_context_no_average.
  repeat constructor.
Defined.

(** ** More on merging *)

Section MergeMore.
Variable py_str : pyval → string.

(** What a merge that returns has done to the description, to the list of
    absorbed identifiers and to the other fields. *)
Lemma merge_alerts_fields (P D M : dict) :
  merge_alerts py_str P D = Ok M →
  M !! "merged_alert_ids"
  = Some (VList (merged_ids P ++ [dict_get D "id"])) ∧
  (if truthy (dict_get D "description")
   then ∃ old new,
       P !! "description" = Some old ∧
       iadd_str old (String "010" "[Merged] "
                     ++ format py_str (dict_get D "description"))%string
       = Ok new ∧
       M !! "description" = Some new
   else M !! "description" = P !! "description") ∧
  ∀ k, k ∉ merge_keys → M !! k = P !! k.
Proof.
  unfold merge_alerts. intros H.
  apply result_bind_ok in H as [rd [_ H]].
  apply result_bind_ok in H as [rp [_ H]].
  apply result_bind_ok in H as [M1 [H1 H]].
  apply result_bind_ok in H as [h [_ H]].
  apply result_bind_ok in H as [M2 [H2 H]].
  apply result_bind_ok in H as [M3 [H3 H]].
  apply result_bind_ok in H as [ids [Hids H]].
  injection H as <-.
  assert (F1 : ∀ k, k ≠ "severity" → M1 !! k = P !! k).
  { intros k Hk. destruct (rp <? rd).
    - apply result_bind_ok in H1 as [v [_ H1]]. injection H1 as <-.
      by rewrite lookup_insert_ne.
    - by injection H1 as <-. }
  assert (F2 : ∀ k, k ≠ "confidence" → M2 !! k = M1 !! k).
  { intros k Hk. destruct h.
    - apply result_bind_ok in H2 as [v [_ H2]]. injection H2 as <-.
      by rewrite lookup_insert_ne.
    - by injection H2 as <-. }
  assert (F3 : ∀ k, k ≠ "description" → M3 !! k = M2 !! k).
  { intros k Hk. destruct (truthy (dict_get D "description")).
    - apply result_bind_ok in H3 as [old [_ H3]].
      apply result_bind_ok in H3 as [d [_ H3]].
      apply result_bind_ok in H3 as [new [_ H3]]. injection H3 as <-.
      by rewrite lookup_insert_ne.
    - by injection H3 as <-. }
  split; [|split].
  - rewrite lookup_insert_eq. f_equal.
    rewrite F3, F2, F1 in Hids by done.
    unfold merged_ids, add_list in *.
    destruct (P !! "merged_alert_ids") as [[| | | | | |l|]|];
      cbn [default from_option id] in Hids; try discriminate;
      by injection Hids as <-.
  - rewrite lookup_insert_ne by done.
    destruct (truthy (dict_get D "description")) eqn:T.
    + apply result_bind_ok in H3 as [old [Ho H3]].
      apply result_bind_ok in H3 as [d [Hd H3]].
      apply result_bind_ok in H3 as [new [Hn H3]]. injection H3 as <-.
      unfold getitem in Ho, Hd.
      rewrite F2, F1 in Ho by done.
      destruct (P !! "description") as [old'|]; [|discriminate].
      injection Ho as ->.
      assert (dict_get D "description" = d) as <-.
      { unfold dict_get. destruct (D !! "description"); [|discriminate].
        by injection Hd as ->. }
      exists old, new. by rewrite lookup_insert_eq.
    + injection H3 as <-. by rewrite F2, F1.
  - intros k Hk. unfold merge_keys in Hk. split_keys Hk.
    rewrite lookup_insert_ne by done. by rewrite F3, F2, F1.
Qed.

(** X9. Chained merges accumulate: after a duplicate and then another have
    been merged into a primary, the absorbed identifiers are those the
    primary had, then the first duplicate's, then the second's (a duplicate
    without an identifier contributes [None]); and every field other than
    the severity, the confidence, the description and that list is still
    the primary's. *)
Theorem merge_both_accumulates (P D1 D2 : dict) :
  match merge_both py_str P D1 D2 with
  | Ok R =>
      R !! "merged_alert_ids"
      = Some (VList (merged_ids P ++ [dict_get D1 "id"; dict_get D2 "id"])) ∧
      ∀ k, k ∉ merge_keys → R !! k = P !! k
  | Raise _ => True
  end.
Proof.
  destruct (merge_both py_str P D1 D2) as [R|] eqn:H; [|exact I].
  unfold merge_both in H. apply result_bind_ok in H as [M [H1 H2]].
  apply merge_alerts_fields in H1 as (I1 & _ & F1).
  apply merge_alerts_fields in H2 as (I2 & _ & F2).
  split.
  - rewrite I2. unfold merged_ids at 1. rewrite I1.
    by rewrite <- app_assoc.
  - intros k Hk. by rewrite F2, F1.
Qed.

(** X10. The description of the duplicate is appended to the primary's
    after a line break and the mark "[Merged] ", when it is not empty;
    an empty or absent one leaves the description as it is. A primary that
    has no description cannot absorb a duplicate that has one: the merge
    raises [KeyError]. *)
Theorem merge_alerts_description (P D : dict) (d : string) :
  mergeable D = true →
  mergeable (<["description" := VStr ""]> P) = true →
  D !! "description" = Some (VStr d) →
  (∀ p, P !! "description" = Some (VStr p) →
        ∃ M, merge_alerts py_str P D = Ok M ∧
             M !! "description"
             = Some (VStr (if String.eqb d "" then p
                           else p ++ String "010" "[Merged] " ++ d))) ∧
  (P !! "description" = None → d ≠ "" →
   merge_alerts py_str P D = Raise KeyError).
Proof.
  intros WD WP Hd. split.
  - intros p Hp.
    assert (WP' : mergeable P = true).
    { replace P with (<["description" := VStr p]>
                        (<["description" := VStr ""]> P)).
      - unfold mergeable in *. rewrite lookup_insert_eq.
        rewrite !lookup_insert_ne by done.
        rewrite lookup_insert_eq in WP. by rewrite !lookup_insert_ne in WP.
      - rewrite insert_insert_eq. by apply insert_id. }
    destruct (merge_alerts_ok py_str P D WP' WD) as (M & HM & _).
    exists M. split; [exact HM|].
    apply merge_alerts_fields in HM as (_ & K & _).
    unfold dict_get in K. rewrite Hd in K. cbn [default from_option id truthy] in K.
    destruct (String.eqb d ""); cbn [negb] in K.
    + by rewrite K.
    + destruct K as (old & new & Ho & Hn & ->). rewrite Hp in Ho.
      injection Ho as <-. cbn [iadd_str format] in Hn. by injection Hn as <-.
  - intros Hp Hne.
    unfold mergeable in WD, WP. rewrite Hd in WD.
    rewrite lookup_insert_eq in WP. rewrite !lookup_insert_ne in WP by done.
    destruct (P !! "severity") as [[| | | |sp| | |]|] eqn:SP; try discriminate.
    destruct (P !! "confidence") as [cp|] eqn:CP; try discriminate.
    destruct (D !! "severity") as [[| | | |sd| | |]|] eqn:SD; try discriminate.
    destruct (D !! "confidence") as [cd|] eqn:CD; try discriminate.
    cbn [andb] in WP, WD.
    apply andb_true_iff in WP as [WP _]. apply andb_true_iff in WP as [NP _].
    apply andb_true_iff in WD as [WD _]. apply andb_true_iff in WD as [ND _].
    unfold merge_alerts. rewrite SP, SD, CP, CD.
    cbn [default from_option id lookup_val mbind result_bind].
    rewrite (py_gt_numbers _ _ ND NP). cbn [mbind result_bind].
    unfold getitem, dict_get. rewrite SD, CD, Hd.
    cbn [default from_option id mbind result_bind truthy].
    assert (E : String.eqb d "" = false) by by apply String.eqb_neq.
    rewrite E. cbn [negb].
    destruct (_ <? _); cbn [mbind result_bind];
      destruct (lt_val _ _); cbn [mbind result_bind];
      rewrite ?lookup_insert_ne by done; by rewrite Hp.
Qed.
End MergeMore.

Lemma merge_alerts_description_witness :
  ∃ M, merge_alerts sample_str sample_alert sample_duplicate_1 = Ok M ∧
       M !! "description"
       = Some (VStr ("defect rate above limit"
                     ++ String "010" "[Merged] " ++ "defect rate above limit")).
Proof.
  apply (merge_alerts_description sample_str sample_alert sample_duplicate_1
           "defect rate above limit");
    reflexivity.
Defined.

(** ** Fingerprints and the search for duplicates *)

Lemma string_append_assoc (s1 s2 s3 : string) :
  ((s1 ++ s2) ++ s3)%string = (s1 ++ (s2 ++ s3))%string.
Proof.
  induction s1 as [|c s1 IH]; [reflexivity|].
  change (String c ((s1 ++ s2) ++ s3) = String c (s1 ++ (s2 ++ s3)))%string.
  by rewrite IH.
Qed.

Section DeduplicatorFacts.
Variable clock : nat → Z.
Variable fromisoformat : string → option Z.
Variable py_str : pyval → string.
Variable md5_hexdigest : string → string.

(** X11. The fingerprint reads three fields, takes an absent one as the
    empty text, and joins them with colons that it does not escape: moving
    a colon-separated part from the product identifier to the category
    gives the same fingerprint, whatever the hash function is. *)
Theorem generate_alert_fingerprint_collides (alert : dict) (x y z : string) :
  generate_alert_fingerprint py_str md5_hexdigest
    (<["product_id" := VStr (x ++ ":" ++ y)]> (<["category" := VStr z]> alert))
  = generate_alert_fingerprint py_str md5_hexdigest
      (<["product_id" := VStr x]> (<["category" := VStr (y ++ ":" ++ z)]> alert))
  ∧ (∀ k, k ∈ ["product_id"; "category"; "severity"] →
          generate_alert_fingerprint py_str md5_hexdigest (delete k alert)
          = generate_alert_fingerprint py_str md5_hexdigest
              (<[k := VStr ""]> alert))
  ∧ (∀ other, other !! "product_id" = alert !! "product_id" →
              other !! "category" = alert !! "category" →
              other !! "severity" = alert !! "severity" →
              generate_alert_fingerprint py_str md5_hexdigest other
              = generate_alert_fingerprint py_str md5_hexdigest alert).
Proof.
  split; [|split].
  - unfold generate_alert_fingerprint.
    repeat first [rewrite lookup_insert_eq
                 |rewrite lookup_insert_ne by done].
    cbn [default from_option id format]. f_equal.
    by rewrite !string_append_assoc.
  - intros k Hk. rewrite !elem_of_cons in Hk.
    unfold generate_alert_fingerprint.
    destruct Hk as [-> | [-> | [-> | Hk]]]; [| | |by apply elem_of_nil in Hk];
      rewrite lookup_delete_eq, lookup_insert_eq;
      by rewrite !lookup_delete_ne, !lookup_insert_ne.
  - intros other Hp Hc Hs. unfold generate_alert_fingerprint.
    by rewrite Hp, Hc, Hs.
Qed.

Lemma elem_of_pairs_of (x : nat * nat) (i j k : nat) :
  x ∈ pairs_of i j k → fst x = i.
Proof.
  unfold pairs_of. intros H. apply list_elem_of_fmap in H as (d & -> & _).
  reflexivity.
Qed.

Lemma elem_of_pairs_from (x : nat * nat) (i k : nat) :
  x ∈ pairs_from i k → (i <= fst x)%nat.
Proof.
  revert i. induction k as [|k IH]; intros i H; [by apply elem_of_nil in H|].
  cbn [pairs_from] in H. apply elem_of_app in H as [H|H].
  - apply elem_of_pairs_of in H. lia.
  - apply IH in H. lia.
Qed.

Lemma NoDup_pairs_from (i k : nat) : NoDup (pairs_from i k).
Proof.
  revert i. induction k as [|k IH]; intros i; [constructor|].
  cbn [pairs_from]. apply NoDup_app. split; [|split; [|apply IH]].
  - unfold pairs_of. apply NoDup_fmap_2; [|apply NoDup_seq].
    intros d e H. injection H as H. lia.
  - intros x H1 H2. apply elem_of_pairs_of in H1.
    apply elem_of_pairs_from in H2. lia.
Qed.

Lemma pairs_of_cons (i j k : nat) :
  pairs_of i j (S k) = (i, j) :: pairs_of i (S j) k.
Proof.
  unfold pairs_of. cbn [seq map]. rewrite Nat.add_0_r. f_equal.
  rewrite <- seq_shift, map_map. apply map_ext. intros d. f_equal. lia.
Qed.

(** The triples the inner loop reports. *)
Lemma find_duplicates_of_sound (a : dict) (i j : nat) (rest : list dict)
    (threshold : float) (n n' : nat) (found : list (nat * nat * float)) :
  find_duplicates_of clock fromisoformat a i j rest threshold n
  = (Ok found, n') →
  Forall (fun t =>
            (threshold <=? snd t)%float = true ∧
            ∃ d b m m', fst t = (i, j + d)%nat ∧ rest !! d = Some b ∧
                        calculate_similarity clock fromisoformat a b m
                        = (Ok (snd t), m')) found ∧
  sublist (map fst found) (pairs_of i j (length rest)).
Proof.
  revert j n n' found. induction rest as [|b rest IH]; intros j n n' found H.
  - injection H as <- <-. split; constructor.
  - cbn [find_duplicates_of] in H.
    clk_bind H s m E. clk_bind H more m2 E2.
    apply IH in E2 as [F Hsub].
    assert (F' : Forall (fun t =>
              (threshold <=? snd t)%float = true ∧
              ∃ d b0 m0 m', fst t = (i, j + d)%nat ∧
                            (b :: rest) !! d = Some b0 ∧
                            calculate_similarity clock fromisoformat a b0 m0
                            = (Ok (snd t), m')) more).
    { eapply Forall_impl; [exact F|]. intros t.
      intros (Ht & d & b0 & m0 & m' & Hf & Hb & Hs).
      split; [exact Ht|]. exists (S d), b0, m0, m'.
      split; [rewrite Hf; f_equal; lia|]. by split. }
    cbn [length]. rewrite pairs_of_cons.
    unfold mret, Clk_ret in H.
    destruct (threshold <=? s)%float eqn:T; injection H as <- <-.
    + split.
      * constructor; [|exact F'].
        split; [exact T|]. exists 0%nat, b, n, m.
        split; [cbn [fst]; f_equal; lia|]. by split.
      * cbn [map fst]. by constructor.
    + split; [exact F'|]. by constructor.
Qed.

Lemma find_duplicates_from_sound (rest : list dict) (i : nat)
    (threshold : float) (n n' : nat) (found : list (nat * nat * float)) :
  find_duplicates_from clock fromisoformat i rest threshold n
  = (Ok found, n') →
  Forall (fun t =>
            (threshold <=? snd t)%float = true ∧
            ∃ d e a b m m', fst t = (i + d, i + e)%nat ∧ (d < e)%nat ∧
                            rest !! d = Some a ∧ rest !! e = Some b ∧
                            calculate_similarity clock fromisoformat a b m
                            = (Ok (snd t), m')) found ∧
  sublist (map fst found) (pairs_from i (length rest)).
Proof.
  revert i n n' found. induction rest as [|a rest IH]; intros i n n' found H.
  - injection H as <- <-. split; constructor.
  - cbn [find_duplicates_from] in H.
    clk_bind H here m1 E1. clk_bind H later m2 E2.
    injection H as <- <-.
    apply find_duplicates_of_sound in E1 as [F1 S1].
    apply IH in E2 as [F2 S2].
    split.
    + apply Forall_app. split.
      * eapply Forall_impl; [exact F1|]. intros t.
        intros (Ht & d & b & k & k' & Hf & Hb & Hs).
        split; [exact Ht|]. exists 0%nat, (S d), a, b, k, k'.
        split; [rewrite Hf; f_equal; lia|]. split; [lia|]. by repeat split.
      * eapply Forall_impl; [exact F2|]. intros t.
        intros (Ht & d & e & a0 & b & k & k' & Hf & Hde & Ha & Hb & Hs).
        split; [exact Ht|]. exists (S d), (S e), a0, b, k, k'.
        split; [rewrite Hf; f_equal; lia|]. split; [lia|]. by repeat split.
    + cbn [length pairs_from]. rewrite map_app. by apply sublist_app.
Qed.

(** X12. [find_duplicates] reports only pairs of positions [i < j] of the
    batch, each with the similarity of the two alerts at these positions,
    which is at least the threshold; the pairs come in the order of the two
    loops, as a part of the list of all pairs, so none comes twice; and a
    batch of fewer than two alerts has no duplicates. *)
Theorem find_duplicates_sound (alerts : list dict) (threshold : float)
    (n : nat) :
  match find_duplicates clock fromisoformat alerts threshold n with
  | (Ok found, _) =>
      Forall (fun t =>
                let '(i, j, s) := t in
                (i < j < length alerts)%nat ∧
                (threshold <=? s)%float = true ∧
                ∃ a b m m', alerts !! i = Some a ∧ alerts !! j = Some b ∧
                            calculate_similarity clock fromisoformat a b m
                            = (Ok s, m')) found ∧
      sublist (map fst found) (all_pairs (length alerts)) ∧
      NoDup (map fst found) ∧
      ((length alerts < 2)%nat → found = [])
  | (Raise _, _) => True
  end.
Proof.
  unfold find_duplicates.
  destruct (find_duplicates_from clock fromisoformat 0 alerts threshold n)
    as [[found|e] n'] eqn:H; [|exact I].
  apply find_duplicates_from_sound in H as [F Hsub].
  split; [|split; [exact Hsub|split]].
  - eapply Forall_impl; [exact F|]. intros [[i j] s].
    intros (Ht & d & e & a & b & k & k' & Hf & Hde & Ha & Hb & Hs).
    cbn [fst snd] in *. injection Hf as -> ->.
    apply lookup_lt_Some in Hb as Hl.
    split; [lia|]. split; [exact Ht|]. by exists a, b, k, k'.
  - eapply sublist_NoDup; [apply NoDup_pairs_from|exact Hsub].
  - intros Hl. destruct alerts as [|a [|b rest]];
      [| |cbn [length] in Hl; lia];
      cbn in Hsub; apply sublist_nil_r in Hsub; by destruct found.
Qed.
End DeduplicatorFacts.

(** ** Deadlines, product context and supplier risk *)

Section Deadline.
Variable clock : nat → Z.
Variable fromisoformat : string → option Z.
Variable isoformat : Z → string.

(** X13. A priority that is none of p1..p4, like no priority at all, gets
    the deadline and the SLA check of p3 (72 hours); a priority that cannot
    be a key of the table (a list) makes the deadline raise [TypeError]. *)
Theorem calculate_sla_deadline_fallback (alert : dict) (n : nat) (s : string) :
  SLA_TARGETS !! s = None →
  calculate_sla_deadline clock fromisoformat (<["priority" := VStr s]> alert) n
  = calculate_sla_deadline clock fromisoformat
      (<["priority" := VStr "p3"]> alert) n ∧
  calculate_sla_deadline clock fromisoformat (delete "priority" alert) n
  = calculate_sla_deadline clock fromisoformat
      (<["priority" := VStr "p3"]> alert) n ∧
  check_sla_breach clock fromisoformat isoformat
    (<["priority" := VStr s]> alert) n
  = check_sla_breach clock fromisoformat isoformat
      (<["priority" := VStr "p3"]> alert) n ∧
  (∀ l c, alert !! "created_at" = Some (VDatetime c) →
          calculate_sla_deadline clock fromisoformat
            (<["priority" := VList l]> alert) n
          = (Raise TypeError, S n)).
Proof.
  intros Hs.
  assert (E1 : calculate_sla_deadline clock fromisoformat
                 (<["priority" := VStr s]> alert) n
               = calculate_sla_deadline clock fromisoformat
                   (<["priority" := VStr "p3"]> alert) n).
  { unfold calculate_sla_deadline. rewrite !lookup_insert_eq.
    rewrite !lookup_insert_ne by done. cbn [default from_option id lookup_val].
    by rewrite Hs. }
  split; [exact E1|]. split; [|split].
  - unfold calculate_sla_deadline.
    rewrite lookup_delete_eq, lookup_insert_eq.
    by rewrite lookup_delete_ne, lookup_insert_ne.
  - unfold check_sla_breach. by rewrite !Clk_bind_eq, E1.
  - intros l c Hc. unfold calculate_sla_deadline.
    rewrite lookup_insert_eq. rewrite lookup_insert_ne by done. rewrite Hc.
    reflexivity.
Qed.
End Deadline.

Lemma calculate_sla_deadline_fallback_witness :
  calculate_sla_deadline (frozen sample_now) sample_fromisoformat
    (<["priority" := VStr "urgent"]> sample_alert) 0%nat
  = calculate_sla_deadline (frozen sample_now) sample_fromisoformat
      (<["priority" := VStr "p3"]> sample_alert) 0%nat.
Proof.
  exact (proj1 (calculate_sla_deadline_fallback (frozen sample_now)
                  sample_fromisoformat sample_isoformat sample_alert 0%nat
                  "urgent" eq_refl)).
Defined.

(** X14. The product context copies five fields of the product into the
    alert, [None] for those the product has not, and changes no other field
    of the alert; the stock health is either left as it was or set to one
    of "critical", "warning" and "healthy". *)
Theorem enrich_with_product_context_fields (alert product : dict) :
  match enrich_with_product_context alert product with
  | Ok enriched =>
      enriched !! "product_name" = Some (dict_get product "name") ∧
      enriched !! "product_sku" = Some (dict_get product "sku") ∧
      enriched !! "product_category" = Some (dict_get product "category") ∧
      enriched !! "current_stock" = Some (dict_get product "current_stock") ∧
      enriched !! "reorder_point" = Some (dict_get product "reorder_point") ∧
      (enriched !! "stock_health" = alert !! "stock_health" ∨
       enriched !! "stock_health" ∈
         [Some (VStr "critical"); Some (VStr "warning");
          Some (VStr "healthy")]) ∧
      ∀ k, k ∉ product_keys → enriched !! k = alert !! k
  | Raise _ => True
  end.
Proof.
  destruct (enrich_with_product_context alert product) as [enriched|e] eqn:H;
    [|exact I].
  pose proof (fun k => enrich_with_product_context_frame _ _ _ k H) as F.
  split; [|split; [|split; [|split; [|split; [|split]]]]];
    try (intros k Hk; by apply F).
  all: unfold enrich_with_product_context in H.
  all: destruct (truthy _ && truthy _);
    [apply result_bind_ok in H as [cs [_ H]];
     apply result_bind_ok in H as [rp [_ H]];
     apply result_bind_ok in H as [dn [_ H]];
     apply result_bind_ok in H as [sr [_ H]]|];
    injection H as <-.
  all: repeat (rewrite lookup_insert_ne by done).
  all: rewrite ?lookup_insert_eq; try reflexivity.
  - right. destruct (sr <? 0.5)%float; [|destruct (sr <? 1.0)%float];
      rewrite !elem_of_cons; auto.
  - by left.
Qed.

(** X15. A financial health that is none of the five known words (in any
    case of the letters) is scored 0.5 in the supplier risk, between "fair"
    and "poor", and does not make it fail; one that is no text makes the
    whole calculation raise [AttributeError]. *)
Theorem calculate_supplier_risk_unknown_health
    (on_time_rate quality_rating lead_time_days geopolitical_risk : pyval)
    (s : string) :
  financial_scores !! lower s = None →
  (∀ d, calculate_supplier_risk on_time_rate quality_rating lead_time_days
          (VStr s) geopolitical_risk = Ok d →
        ∃ breakdown,
          d !! "breakdown" = Some (VDict breakdown) ∧
          alist_get "financial_risk" breakdown = Some (VFloat 0.5)) ∧
  is_ok (calculate_supplier_risk on_time_rate quality_rating lead_time_days
           (VStr s) geopolitical_risk)
  = is_ok (calculate_supplier_risk on_time_rate quality_rating lead_time_days
             (VStr "good") geopolitical_risk) ∧
  (∀ v, match v with VStr _ => False | _ => True end →
        calculate_supplier_risk on_time_rate quality_rating lead_time_days v
          geopolitical_risk = Raise AttributeError).
Proof.
  intros Hs. split; [|split].
  - intros d. unfold calculate_supplier_risk, str_lower.
    cbn [mbind result_bind]. rewrite Hs. cbn [default from_option id].
    intros H.
    apply result_bind_ok in H as [dr [_ H]].
    apply result_bind_ok in H as [qr [_ H]].
    apply result_bind_ok in H as [ld [_ H]].
    apply result_bind_ok in H as [rs [_ H]].
    injection H as <-. eexists. split; [reflexivity|]. reflexivity.
  - unfold calculate_supplier_risk, str_lower. cbn [mbind result_bind].
    destruct (py_rsub_f 1 on_time_rate); [|reflexivity].
    destruct (py_rsub_f 1 quality_rating); [|reflexivity].
    destruct (py_div_f lead_time_days 30); [|reflexivity].
    cbn [mbind result_bind]. unfold supplier_formula.
    destruct (py_mul_f geopolitical_risk 0.15); reflexivity.
  - intros v Hv. by destruct v.
Qed.

Lemma calculate_supplier_risk_unknown_health_witness :
  is_ok (calculate_supplier_risk (VFloat 0.9) (VFloat 0.8) (VInt 14)
           (VStr "unknown") (VFloat 0.1))
  = is_ok (calculate_supplier_risk (VFloat 0.9) (VFloat 0.8) (VInt 14)
             (VStr "good") (VFloat 0.1)).
Proof.
  exact (proj1 (proj2 (calculate_supplier_risk_unknown_health (VFloat 0.9)
                         (VFloat 0.8) (VInt 14) (VFloat 0.1) "unknown"
                         eq_refl))).
Defined.

(** * Division of binary64 numbers *)

Lemma RNE_rnd (m k : Z) : RNE m k = rnd m (2 ^ k).
Proof. reflexivity. Qed.

Lemma rnd_scale (n d c : Z) : 0 < d -> 0 < c -> rnd (n * c) (d * c) = rnd n d.
Proof.
  intros Hd Hc. unfold rnd.
  rewrite Z.div_mul_cancel_r by lia.
  rewrite Z.mul_mod_distr_r by lia.
  replace (2 * (n mod d * c)) with (2 * (n mod d) * c) by lia.
  rewrite compare_mul_r by lia. reflexivity.
Qed.

Lemma stk_mono (n1 n2 d : Z) : 0 < d -> n1 <= n2 -> stk n1 d <= stk n2 d.
Proof.
  intros Hd Hn. unfold stk.
  pose proof (Z.div_le_mono n1 n2 d Hd Hn) as D.
  pose proof (Z.div_mod n1 d ltac:(lia)) as E1.
  pose proof (Z.div_mod n2 d ltac:(lia)) as E2.
  pose proof (Z.mod_pos_bound n1 d Hd) as B1.
  pose proof (Z.mod_pos_bound n2 d Hd) as B2.
  destruct (Z.eqb_spec (n1 mod d) 0), (Z.eqb_spec (n2 mod d) 0); try lia.
  destruct (Z.eq_dec (n1 / d) (n2 / d)) as [Q|Q]; [|lia].
  rewrite Q in *. nia.
Qed.

Lemma stk_nonneg (n d : Z) : 0 < d -> 0 <= n -> 0 <= stk n d.
Proof.
  intros Hd Hn. unfold stk.
  pose proof (Z.div_pos n d Hn Hd).
  destruct (n mod d =? 0); lia.
Qed.

Lemma stk_pos (n d : Z) : 0 < d -> 0 < n -> 0 < stk n d.
Proof.
  intros Hd Hn. unfold stk.
  pose proof (Z.div_pos n d ltac:(lia) Hd).
  pose proof (Z.div_mod n d ltac:(lia)) as E.
  destruct (Z.eqb_spec (n mod d) 0) as [M|M]; [|lia].
  rewrite M in E. assert (0 < n / d) by nia. lia.
Qed.

(** Rounding the sticky form at [K >= 2] bits is rounding the fraction. *)
Lemma rnd_stk (n d K : Z) :
  0 <= n -> 0 < d -> 2 <= K -> rnd (stk n d) (2 ^ K) = rnd n (d * 2 ^ (K - 1)).
Proof.
  intros Hn Hd HK.
  assert (HH : 0 < 2 ^ (K - 2)) by (apply Z.pow_pos_nonneg; lia).
  replace (2 ^ K) with (4 * 2 ^ (K - 2))
    by (replace K with (2 + (K - 2)) at 2 by lia; now rewrite Z.pow_add_r by lia).
  replace (2 ^ (K - 1)) with (2 * 2 ^ (K - 2))
    by (replace (K - 1) with (1 + (K - 2)) by lia; now rewrite Z.pow_add_r by lia).
  generalize dependent (2 ^ (K - 2)). intros H HH. clear K HK.
  set (D := d * (2 * H)).
  assert (HD : 0 < D) by (unfold D; nia).
  pose proof (Z.div_mod n D ltac:(lia)) as En.
  pose proof (Z.mod_pos_bound n D HD) as Bn.
  set (Q := n / D) in *. set (R := n mod D) in *.
  pose proof (Z.div_mod R d ltac:(lia)) as Er.
  pose proof (Z.mod_pos_bound R d Hd) as Br.
  set (f := R / d) in *. set (g := R mod d) in *.
  assert (Hf : 0 <= f < 2 * H) by (unfold D in *; nia).
  assert (Dn : n / d = 2 * H * Q + f).
  { symmetry. apply (Z.div_unique_pos n d _ g); [lia|]. unfold D in *. nia. }
  assert (Mn : n mod d = g).
  { symmetry. apply (Z.mod_unique_pos n d (2 * H * Q + f) g); [lia|].
    unfold D in *. nia. }
  unfold rnd at 1, stk. rewrite Dn, Mn.
  set (b := if g =? 0 then 0 else 1).
  assert (Hb : 0 <= b <= 1 /\ (b = 0 <-> g = 0)).
  { unfold b. destruct (Z.eqb_spec g 0); lia. }
  clearbody b.
  assert (Ds : (2 * (2 * H * Q + f) + b) / (4 * H) = Q).
  { symmetry. apply (Z.div_unique_pos _ _ _ (2 * f + b)); lia. }
  assert (Ms : (2 * (2 * H * Q + f) + b) mod (4 * H) = 2 * f + b).
  { symmetry. apply (Z.mod_unique_pos _ _ Q (2 * f + b)); lia. }
  rewrite Ds, Ms. unfold rnd. fold D. fold Q. fold R.
  destruct (Z.compare_spec (2 * (2 * f + b)) (4 * H)) as [C|C|C];
    destruct (Z.compare_spec (2 * R) D) as [C'|C'|C']; try reflexivity;
    exfalso; unfold D in *; nia.
Qed.

Lemma Zdigits2_double (f b : Z) :
  0 < f -> 0 <= b <= 1 -> Zdigits2 (2 * f + b) = Zdigits2 f + 1.
Proof.
  intros Hf Hb. pose proof (Zdigits2_bounds f Hf) as [L U].
  pose proof (Zdigits2_pos f Hf) as P.
  apply Zdigits2_unique; [|lia].
  replace (Zdigits2 f + 1 - 1) with (1 + (Zdigits2 f - 1)) by lia.
  rewrite !Z.pow_add_r by lia. change (2 ^ 1) with 2. lia.
Qed.

Lemma Zdigits2_div_pow2 (n d j : Z) :
  0 < d -> d <= n -> 0 <= j -> Zdigits2 (n * 2 ^ j / d) = Zdigits2 (n / d) + j.
Proof.
  intros Hd Hn Hj.
  assert (Hq : 0 < n / d) by (apply Z.div_str_pos; lia).
  pose proof (Zdigits2_bounds (n / d) Hq) as [L U].
  pose proof (Zdigits2_pos (n / d) Hq) as P.
  assert (Pj : 0 < 2 ^ j) by (apply Z.pow_pos_nonneg; lia).
  pose proof (Z.div_mod n d ltac:(lia)) as E.
  pose proof (Z.mod_pos_bound n d Hd) as B.
  apply Zdigits2_unique; [|lia]. split.
  - apply Z.div_le_lower_bound; [lia|].
    replace (Zdigits2 (n / d) + j - 1) with (Zdigits2 (n / d) - 1 + j) by lia.
    rewrite Z.pow_add_r by lia.
    assert (d * 2 ^ (Zdigits2 (n / d) - 1) <= n) by nia. nia.
  - apply Z.div_lt_upper_bound; [lia|].
    rewrite Z.pow_add_r by lia.
    assert (n < d * 2 ^ Zdigits2 (n / d)) by nia. nia.
Qed.

Lemma stk_small (n d : Z) : 0 <= n < d -> 0 <= stk n d <= 1.
Proof.
  intros H. unfold stk. rewrite Z.div_small by lia.
  destruct (n mod d =? 0); lia.
Qed.

(** Refining the fraction leaves the exponent of the result as it is. *)
Lemma stk_fexp (n d e j : Z) :
  0 <= n -> 0 < d -> 0 <= j -> e + 2 <= fexp64 (Zdigits2 (stk n d) + e) ->
  fexp64 (Zdigits2 (stk (n * 2 ^ j) d) + (e - j))
  = fexp64 (Zdigits2 (stk n d) + e).
Proof.
  intros Hn Hd Hj He.
  assert (Pj : 0 < 2 ^ j) by (apply Z.pow_pos_nonneg; lia).
  destruct (Z.le_gt_cases d n) as [Hdn|Hdn].
  - assert (Hq : 0 < n / d) by (apply Z.div_str_pos; lia).
    assert (Hq' : 0 < n * 2 ^ j / d) by (apply Z.div_str_pos; nia).
    unfold stk. rewrite !Zdigits2_double;
      try assumption; try (destruct (_ =? 0); lia).
    rewrite Zdigits2_div_pow2 by assumption. f_equal. lia.
  - pose proof (stk_small n d ltac:(lia)) as S1.
    assert (D1 : Zdigits2 (stk n d) <= 1).
    { destruct (Z.eq_dec (stk n d) 0) as [->|N]; [cbn; lia|].
      apply Zdigits2_le; lia. }
    assert (E1 : fexp64 (Zdigits2 (stk n d) + e) = -1074)
      by (unfold fexp64 in *; lia).
    rewrite E1 in *.
    assert (S2 : 0 <= stk (n * 2 ^ j) d < 2 ^ (j + 1)).
    { split; [apply stk_nonneg; nia|].
      unfold stk. rewrite Z.pow_add_r by lia. change (2 ^ 1) with 2.
      assert (n * 2 ^ j / d < 2 ^ j) by (apply Z.div_lt_upper_bound; nia).
      destruct (_ =? 0); lia. }
    assert (D2 : Zdigits2 (stk (n * 2 ^ j) d) <= j + 1).
    { destruct (Z.eq_dec (stk (n * 2 ^ j) d) 0) as [->|N]; [cbn; lia|].
      apply Zdigits2_le; lia. }
    unfold fexp64. lia.
Qed.

Lemma RN_stk_rescale (s : bool) (n d e j : Z) :
  0 <= n -> 0 < d -> 0 <= j -> e + 2 <= fexp64 (Zdigits2 (stk n d) + e) ->
  RN s (stk (n * 2 ^ j) d) (e - j) = RN s (stk n d) e.
Proof.
  intros Hn Hd Hj He. unfold RN. rewrite stk_fexp by assumption.
  set (E := fexp64 (Zdigits2 (stk n d) + e)) in *. clearbody E.
  assert (Pj : 0 < 2 ^ j) by (apply Z.pow_pos_nonneg; lia).
  f_equal. rewrite !RNE_rnd, !rnd_stk by (try lia; nia).
  replace (E - (e - j) - 1) with (E - e - 1 + j) by lia.
  rewrite Z.pow_add_r, Z.mul_assoc by lia.
  apply rnd_scale; [|lia].
  assert (0 < 2 ^ (E - e - 1)) by (apply Z.pow_pos_nonneg; lia). nia.
Qed.

(** *** Rounding a mantissa that comes with a location *)

Lemma loc_code_range (l : location) : 0 <= loc_code l <= 3.
Proof. destruct l as [|[ | | ]]; cbn [loc_code]; lia. Qed.

Lemma shifted_loc (q : Z) (l : location) :
  shifted (4 * q + loc_code l) 2 (shr_record_of_loc q l).
Proof.
  unfold shifted. change (2 - 1) with 1. change (2 ^ 1) with 2.
  change (2 ^ 2) with 4. change (0 <? 2) with true. rewrite !andb_true_r.
  replace (4 * q + loc_code l) with (loc_code l + (2 * q) * 2) by lia.
  rewrite Z.div_add, Z.mod_add by lia.
  replace (loc_code l + 2 * q * 2) with (loc_code l + q * 4) by lia.
  rewrite Z.div_add by lia.
  rewrite Z.odd_add_mul_2.
  destruct l as [|[ | | ]]; cbn [loc_code shr_record_of_loc shr_m shr_r shr_s];
    (split; [|split]); try reflexivity;
    (change (_ / 4) with 0; lia).
Qed.

Lemma shr_loc (q e k : Z) (l : location) :
  0 <= q -> 0 <= k ->
  shifted (4 * q + loc_code l) (2 + k) (fst (shr (shr_record_of_loc q l) e k)) /\
  snd (shr (shr_record_of_loc q l) e k) = e + k.
Proof.
  intros Hq Hk. pose proof (loc_code_range l) as Hc.
  destruct k as [|p|p]; cbn [shr fst snd]; [| |lia].
  - split; [apply shifted_loc|lia].
  - split; [|reflexivity].
    apply shifted_iter; [lia|lia|apply shifted_loc].
Qed.

(** The second half of [binary_round_aux]. *)
Lemma round_finish (s : bool) (q E : Z) :
  -1074 <= E ->
  2 ^ 52 <= q <= 2 ^ 53 \/ (E = -1074 /\ 0 <= q <= 2 ^ 52) ->
  (let '(mrs, e) := shr_fexp prec emax q E loc_Exact in
   match shr_m mrs with
   | Z0 => S754_zero s
   | Zpos m =>
       if e <=? emax - prec then S754_finite s m e else S754_infinity s
   | Zneg _ => S754_nan
   end) = finish s q E.
Proof.
  intros HE R. unfold shr_fexp. rewrite fexp64_eq.
  cbn [shr_record_of_loc]. unfold finish.
  assert (T : 2 ^ 52 < 2 ^ 53) by reflexivity.
  destruct R as [R|[E0 R]].
  - destruct (Z.eqb_spec q (2 ^ 53)) as [Eq|Nq].
    + rewrite Eq. change (Zdigits2 (2 ^ 53)) with 54.
      replace (fexp64 (54 + E) - E) with 1 by (unfold fexp64; lia).
      change (2 ^ 53) with 9007199254740992.
      cbn [shr SpecFloat.iter_pos shr_1 shr_m Z.add].
      reflexivity.
    + assert (D : Zdigits2 q = 53) by (apply Zdigits2_unique; lia).
      rewrite D. replace (fexp64 (53 + E) - E) with 0 by (unfold fexp64; lia).
      cbn [shr shr_m]. destruct q as [|p|p]; try lia. reflexivity.
  - destruct (Z.eqb_spec q (2 ^ 53)) as [Eq|_]; [lia|].
    destruct (Z.eq_dec q 0) as [Z0|NZ].
    + rewrite Z0. change (Zdigits2 0) with 0.
      replace (fexp64 (0 + E) - E) with 0 by (unfold fexp64; lia).
      reflexivity.
    + assert (D : Zdigits2 q <= 53) by (apply Zdigits2_le; lia).
      pose proof (Zdigits2_pos q ltac:(lia)).
      replace (fexp64 (Zdigits2 q + E) - E) with 0 by (unfold fexp64; lia).
      cbn [shr shr_m]. destruct q as [|p|p]; try lia. reflexivity.
Qed.

Lemma RNE_zero (k : Z) : RNE 0 k = 0.
Proof.
  pose proof (RNE_bounds 0 k) as B. unfold RNE in *.
  rewrite Zmod_0_l, Zdiv_0_l in *. change (2 * 0) with 0 in *.
  destruct (Z.compare_spec 0 (2 ^ k)); try reflexivity.
  pose proof (Z.pow_nonneg 2 k ltac:(lia)). lia.
Qed.

Lemma fexp_quarter (q c e : Z) :
  0 <= q -> 0 <= c <= 3 -> e <= fexp64 (Zdigits2 q + e) ->
  fexp64 (Zdigits2 (4 * q + c) + (e - 2)) = fexp64 (Zdigits2 q + e).
Proof.
  intros Hq Hc Hk. set (m := 4 * q + c).
  destruct (Z.eq_dec q 0) as [Q0|Nq].
  - subst q. change (Zdigits2 0) with 0 in *.
    assert (D : Zdigits2 m <= 2).
    { destruct (Z.eq_dec m 0) as [->|N]; [cbn; lia|].
      apply Zdigits2_le; [lia| |lia]. change (2 ^ 2) with 4. lia. }
    unfold fexp64 in *. lia.
  - assert (Zdigits2 m = Zdigits2 q + 2); [|f_equal; lia].
    pose proof (Zdigits2_bounds q ltac:(lia)) as [L U].
    pose proof (Zdigits2_pos q ltac:(lia)) as P.
    apply Zdigits2_unique; [|lia].
    replace (Zdigits2 q + 2 - 1) with (2 + (Zdigits2 q - 1)) by lia.
    rewrite !Z.pow_add_r by lia. change (2 ^ 2) with 4. lia.
Qed.

Lemma binary_round_aux_loc (s : bool) (q e : Z) (l : location) :
  0 <= q -> e <= fexp64 (Zdigits2 q + e) ->
  binary_round_aux prec emax s q e l = RN s (4 * q + loc_code l) (e - 2).
Proof.
  intros Hq Hk. pose proof (loc_code_range l) as Hc.
  pose proof (fexp_quarter q (loc_code l) e Hq Hc Hk) as HE.
  set (m := 4 * q + loc_code l) in *.
  unfold binary_round_aux. unfold shr_fexp at 1. rewrite fexp64_eq.
  set (E := fexp64 (Zdigits2 q + e)) in *.
  assert (Hmin : -1074 <= E) by (unfold E, fexp64; lia).
  destruct (shr_loc q e (E - e) l Hq ltac:(lia)) as [Sh Ee].
  destruct (shr (shr_record_of_loc q l) e (E - e)) as [mrs e'] eqn:E1.
  cbn [fst snd] in Sh, Ee. fold m in Sh.
  rewrite (round_shifted m (2 + (E - e)) mrs) by (try assumption; lia).
  subst e'. replace (e + (E - e)) with E by lia.
  unfold RN. rewrite HE. replace (E - (e - 2)) with (2 + (E - e)) by lia.
  apply round_finish; [exact Hmin|].
  destruct (Z.eq_dec m 0) as [M0|NM].
  - right. rewrite M0, RNE_zero.
    assert (q = 0) by lia. subst q. change (Zdigits2 0) with 0 in *.
    split; [unfold E, fexp64 in *; lia|].
    split; [lia|]. now apply Z.lt_le_incl.
  - pose proof (RNE_range m (e - 2) ltac:(lia) ltac:(lia)) as R.
    cbv zeta in R. rewrite HE in R.
    replace (E - (e - 2)) with (2 + (E - e)) in R by lia.
    destruct R as [[_ R]|[E0 [_ R]]]; [left; exact R|right; tauto].
Qed.

(** *** The quotient of two finite numbers *)

Lemma stk_cases (n d : Z) :
  0 < d -> 0 <= n < 2 * d ->
  stk n d = if n =? 0 then 0
            else match n ?= d with Lt => 1 | Eq => 2 | Gt => 3 end.
Proof.
  intros Hd Hn. unfold stk.
  destruct (Z.eqb_spec n 0) as [->|N0]; [now rewrite Zdiv_0_l, Zmod_0_l|].
  destruct (Z.compare_spec n d) as [->|Lt|Gt].
  - rewrite Z.div_same, Z_mod_same_full by lia. reflexivity.
  - rewrite Z.div_small, Z.mod_small by lia.
    destruct (Z.eqb_spec n 0); lia.
  - rewrite <- (Z.div_unique_pos n d 1 (n - d)) by lia.
    rewrite <- (Z.mod_unique_pos n d 1 (n - d)) by lia.
    destruct (Z.eqb_spec (n - d) 0); lia.
Qed.

Lemma new_location_code (d r : Z) :
  0 < d -> 0 <= r < d -> loc_code (new_location d r) = stk (2 * r) d.
Proof.
  intros Hd Hr. rewrite stk_cases by lia.
  unfold new_location.
  destruct (Z.even d) eqn:Ev; unfold new_location_even, new_location_odd;
    (destruct (Z.eqb_spec r 0) as [->|N0]; [reflexivity|]);
    (destruct (Z.eqb_spec (2 * r) 0) as [|_]; [lia|]); cbn [loc_code].
  - destruct (2 * r ?= d); reflexivity.
  - assert (Hne : 2 * r <> d).
    { intros <-. rewrite Z.even_mul in Ev. discriminate. }
    destruct (Z.compare_spec (2 * r + 1) d), (Z.compare_spec (2 * r) d);
      try reflexivity; lia.
Qed.

Lemma stk_add_mul (q r d : Z) :
  0 < d -> stk (d * q + r) d = 2 * q + stk r d.
Proof.
  intros Hd. unfold stk.
  replace (d * q + r) with (r + q * d) by lia.
  rewrite Z.div_add, Z.mod_add by lia. lia.
Qed.

Lemma div_shift (mx my : positive) (ex ey : Z) :
  let e' := div_exp (Zpos mx) ex (Zpos my) ey in
  e' <= fexp64 (Zdigits2 (Zpos mx * 2 ^ (ex - ey - e') / Zpos my) + e').
Proof.
  intros e'.
  pose proof (Zdigits2_bounds (Zpos mx) ltac:(lia)) as [Lx Ux].
  pose proof (Zdigits2_bounds (Zpos my) ltac:(lia)) as [Ly Uy].
  pose proof (Zdigits2_pos (Zpos mx) ltac:(lia)) as Px.
  pose proof (Zdigits2_pos (Zpos my) ltac:(lia)) as Py.
  set (dx := Zdigits2 (Zpos mx)) in *. set (dy := Zdigits2 (Zpos my)) in *.
  set (F := fexp64 (dx + ex - (dy + ey))).
  assert (He : e' = Z.min F (ex - ey)) by reflexivity.
  set (s := ex - ey - e'). assert (Hs : 0 <= s) by lia.
  assert (Ps : 0 < 2 ^ s) by (apply Z.pow_pos_nonneg; lia).
  set (q := Zpos mx * 2 ^ s / Zpos my).
  assert (Hq : 0 <= q) by (apply Z.div_pos; lia).
  (* the quotient has at least [dx + s - dy] digits *)
  assert (Low : 0 <= dx + s - dy - 1 -> 2 ^ (dx + s - dy - 1) <= q).
  { intros Hn. apply Z.div_le_lower_bound; [lia|].
    apply Z.le_trans with (2 ^ dy * 2 ^ (dx + s - dy - 1)).
    - assert (0 < 2 ^ (dx + s - dy - 1)) by (apply Z.pow_pos_nonneg; lia). nia.
    - rewrite <- Z.pow_add_r by lia.
      replace (dy + (dx + s - dy - 1)) with (dx - 1 + s) by lia.
      rewrite Z.pow_add_r by lia. nia. }
  destruct (Z.eq_dec q 0) as [Q0|NQ].
  - rewrite Q0. change (Zdigits2 0) with 0.
    assert (e' <= -1074); [|unfold fexp64; lia].
    destruct (Z.le_gt_cases e' (-1074)) as [H|H]; [exact H|exfalso].
    assert (Hneg : dx + s - dy - 1 < 0).
    { destruct (Z.lt_ge_cases (dx + s - dy - 1) 0) as [G|G]; [exact G|].
      specialize (Low G).
      assert (0 < 2 ^ (dx + s - dy - 1)) by (apply Z.pow_pos_nonneg; lia). lia. }
    unfold F, fexp64 in *. lia.
  - assert (Dq : dx + s - dy <= Zdigits2 q).
    { pose proof (Zdigits2_pos q ltac:(lia)) as Pq.
      destruct (Z.lt_ge_cases (dx + s - dy - 1) 0) as [G|G]; [lia|].
      specialize (Low G).
      pose proof (Zdigits2_mono _ q
                    (Z.pow_pos_nonneg 2 _ ltac:(lia) G) Low) as M.
      rewrite Zdigits2_pow2 in M by lia. lia. }
    pose proof (fexp64_mono (dx + ex - (dy + ey)) (Zdigits2 q + e')
                  ltac:(lia)) as M.
    fold F in M. lia.
Qed.

Lemma SFdiv_finite (sx sy : bool) (mx my : positive) (ex ey : Z) :
  let e' := div_exp (Zpos mx) ex (Zpos my) ey in
  SFdiv prec emax (S754_finite sx mx ex) (S754_finite sy my ey)
  = RN (xorb sx sy)
       (stk (Zpos mx * 2 ^ (ex - ey - e' + 1)) (Zpos my)) (e' - 2).
Proof.
  intros e'. cbn [SFdiv]. unfold SFdiv_core_binary.
  rewrite fexp64_eq. fold (div_exp (Zpos mx) ex (Zpos my) ey). fold e'.
  pose proof (div_shift mx my ex ey) as Sh. cbv zeta in Sh. fold e' in Sh.
  set (s := ex - ey - e') in *.
  assert (Hs : 0 <= s) by (unfold s, e', div_exp; lia).
  assert (Ps : 0 < 2 ^ s) by (apply Z.pow_pos_nonneg; lia).
  assert (Em : match s with
               | 0 => Zpos mx
               | Zpos _ => Z.shiftl (Zpos mx) s
               | Zneg _ => 0
               end = Zpos mx * 2 ^ s).
  { destruct s as [|p|p] eqn:Es; [change (2 ^ 0) with 1; lia| |lia].
    apply Z.shiftl_mul_pow2. lia. }
  rewrite Em. clear Em.
  pose proof (Z_div_mod (Zpos mx * 2 ^ s) (Zpos my) ltac:(lia)) as DM.
  unfold Z.div in Sh.
  destruct (Z.div_eucl (Zpos mx * 2 ^ s) (Zpos my)) as [q r].
  destruct DM as [Eq Br].
  assert (Hq : 0 <= q) by nia.
  rewrite binary_round_aux_loc by assumption. f_equal.
  rewrite new_location_code by lia.
  rewrite Z.pow_add_r by lia. change (2 ^ 1) with 2.
  replace (Zpos mx * (2 ^ s * 2)) with (Zpos my * (2 * q) + 2 * r) by lia.
  rewrite stk_add_mul by lia. lia.
Qed.

Lemma stk_double (n d : Z) :
  0 < d -> 0 <= n ->
  stk (2 * n) d = 4 * (n / d) + stk (2 * (n mod d)) d /\
  0 <= stk (2 * (n mod d)) d <= 3.
Proof.
  intros Hd Hn. pose proof (Z.div_mod n d ltac:(lia)) as E.
  pose proof (Z.mod_pos_bound n d Hd) as B. split.
  - replace (2 * n) with (d * (2 * (n / d)) + 2 * (n mod d)) at 1 by lia.
    rewrite stk_add_mul by lia. lia.
  - rewrite stk_cases by lia.
    destruct (2 * (n mod d) =? 0); [lia|].
    destruct (2 * (n mod d) ?= d); lia.
Qed.

(** The sticky quotient that [SFdiv] rounds is shifted by two bits at
    least. *)
Lemma div_shift_stk (mx my : positive) (ex ey : Z) :
  let e' := div_exp (Zpos mx) ex (Zpos my) ey in
  let m := stk (Zpos mx * 2 ^ (ex - ey - e' + 1)) (Zpos my) in
  e' <= fexp64 (Zdigits2 m + (e' - 2)).
Proof.
  intros e' m. pose proof (div_shift mx my ex ey) as Sh. cbv zeta in Sh.
  fold e' in Sh. set (s := ex - ey - e') in *.
  assert (Hs : 0 <= s) by (unfold s, e', div_exp; lia).
  assert (Ps : 0 < 2 ^ s) by (apply Z.pow_pos_nonneg; lia).
  destruct (stk_double (Zpos mx * 2 ^ s) (Zpos my) ltac:(lia) ltac:(lia))
    as [Em Bc].
  assert (M : m = 4 * (Zpos mx * 2 ^ s / Zpos my)
                  + stk (2 * ((Zpos mx * 2 ^ s) mod Zpos my)) (Zpos my)).
  { unfold m. rewrite <- Em. f_equal.
    rewrite Z.pow_add_r by lia. change (2 ^ 1) with 2. lia. }
  rewrite M, fexp_quarter; try assumption.
  apply Z.div_pos; lia.
Qed.

(** The quotient grows with the numerator. *)
Lemma quotient_mono (m1 m2 my : positive) (e1 e2 ey b : Z) :
  b <= e1 -> b <= e2 ->
  Zpos m1 * 2 ^ (e1 - b) <= Zpos m2 * 2 ^ (e2 - b) ->
  SFleb (SFdiv prec emax (S754_finite false m1 e1) (S754_finite false my ey))
        (SFdiv prec emax (S754_finite false m2 e2) (S754_finite false my ey))
  = true.
Proof.
  intros H1 H2 V. rewrite !SFdiv_finite. cbn [xorb].
  pose proof (div_shift_stk m1 my e1 ey) as S1.
  pose proof (div_shift_stk m2 my e2 ey) as S2. cbv zeta in S1, S2.
  set (f1 := div_exp (Zpos m1) e1 (Zpos my) ey) in *.
  set (f2 := div_exp (Zpos m2) e2 (Zpos my) ey) in *.
  assert (F1 : f1 <= e1 - ey) by (unfold f1, div_exp; lia).
  assert (F2 : f2 <= e2 - ey) by (unfold f2, div_exp; lia).
  set (c := Z.min (Z.min f1 f2 - 2) (b - ey - 1)).
  assert (P1 : 0 < 2 ^ (e1 - ey - f1 + 1)) by (apply Z.pow_pos_nonneg; lia).
  assert (P2 : 0 < 2 ^ (e2 - ey - f2 + 1)) by (apply Z.pow_pos_nonneg; lia).
  rewrite <- (RN_stk_rescale false (Zpos m1 * 2 ^ (e1 - ey - f1 + 1)) (Zpos my)
                (f1 - 2) (f1 - 2 - c)) by (try lia; nia).
  rewrite <- (RN_stk_rescale false (Zpos m2 * 2 ^ (e2 - ey - f2 + 1)) (Zpos my)
                (f2 - 2) (f2 - 2 - c)) by (try lia; nia).
  pose proof (stk_fexp (Zpos m1 * 2 ^ (e1 - ey - f1 + 1)) (Zpos my)
                (f1 - 2) (f1 - 2 - c) ltac:(nia) ltac:(lia) ltac:(lia)
                ltac:(lia)) as K1.
  replace (f1 - 2 - (f1 - 2 - c)) with c in * by lia.
  replace (f2 - 2 - (f2 - 2 - c)) with c by lia.
  rewrite <- !Z.mul_assoc, <- !Z.pow_add_r in * by lia.
  replace (e1 - ey - f1 + 1 + (f1 - 2 - c)) with (e1 - b + (b - ey - 1 - c))
    in * by lia.
  replace (e2 - ey - f2 + 1 + (f2 - 2 - c)) with (e2 - b + (b - ey - 1 - c))
    by lia.
  assert (Pc : 0 < 2 ^ (b - ey - 1 - c)) by (apply Z.pow_pos_nonneg; lia).
  assert (Pb : 0 < 2 ^ (e1 - b)) by (apply Z.pow_pos_nonneg; lia).
  assert (N : Zpos m1 * 2 ^ (e1 - b + (b - ey - 1 - c))
              <= Zpos m2 * 2 ^ (e2 - b + (b - ey - 1 - c))).
  { rewrite !Z.pow_add_r by lia. nia. }
  apply RN_mono.
  - apply stk_pos; [lia|]. rewrite Z.pow_add_r by lia. nia.
  - apply stk_mono; [lia|exact N].
  - lia.
Qed.

(** *** Valid results *)

Lemma canonical_bounded (m : positive) (e : Z) :
  fexp64 (Zdigits2 (Zpos m) + e) = e -> e <= 971 ->
  bounded prec emax m e = true.
Proof.
  intros C H. unfold bounded, canonical_mantissa. rewrite fexp64_eq.
  change (Zpos (digits2_pos m)) with (Zdigits2 (Zpos m)).
  rewrite C, Z.eqb_refl. apply Z.leb_le. exact H.
Qed.

Lemma finish_valid (s : bool) (q E : Z) :
  -1074 <= E ->
  2 ^ 52 <= q <= 2 ^ 53 \/ (E = -1074 /\ 0 <= q <= 2 ^ 52) ->
  valid_binary (finish s q E) = true.
Proof.
  intros HE R. unfold finish.
  assert (T : 2 ^ 52 < 2 ^ 53) by reflexivity.
  destruct (Z.eqb_spec q (2 ^ 53)) as [Eq|Nq].
  - change (2 ^ 52) with 4503599627370496.
    destruct (Z.leb_spec (E + 1) 971); [|reflexivity].
    apply canonical_bounded; [|lia].
    change (Zdigits2 4503599627370496) with 53. unfold fexp64. lia.
  - destruct q as [|p|p]; [reflexivity| |lia].
    destruct (Z.leb_spec E 971); [|reflexivity].
    apply canonical_bounded; [|lia].
    destruct R as [R|[E0 R]].
    + assert (D : Zdigits2 (Zpos p) = 53) by (apply Zdigits2_unique; lia).
      rewrite D. unfold fexp64. lia.
    + assert (D : Zdigits2 (Zpos p) <= 53) by (apply Zdigits2_le; lia).
      unfold fexp64. lia.
Qed.

Lemma RN_valid (s : bool) (m e : Z) :
  0 <= m -> e <= fexp64 (Zdigits2 m + e) -> valid_binary (RN s m e) = true.
Proof.
  intros Hm Hk. unfold RN. apply finish_valid; [apply fexp64_min|].
  destruct (Z.eq_dec m 0) as [->|N].
  - right. rewrite RNE_zero. change (Zdigits2 0) with 0 in *.
    split; [unfold fexp64 in *; lia|]. split; [lia|]. now apply Z.lt_le_incl.
  - pose proof (RNE_range m e ltac:(lia) Hk) as R. cbv zeta in R.
    destruct R as [[_ R]|[E0 [_ R]]]; [left; exact R|right; tauto].
Qed.

Lemma SFdiv_valid (x y : spec_float) : valid_binary (SFdiv prec emax x y) = true.
Proof.
  destruct x as [sx|sx| |sx mx ex], y as [sy|sy| |sy my ey]; try reflexivity.
  rewrite SFdiv_finite. apply RN_valid.
  - apply stk_nonneg; [lia|].
    pose proof (Z.pow_nonneg 2
                  (ex - ey - div_exp (Zpos mx) ex (Zpos my) ey + 1)
                  ltac:(lia)). nia.
  - pose proof (div_shift_stk mx my ex ey) as S. cbv zeta in S. lia.
Qed.

Lemma SFdiv_rounded (sx : bool) (mx my : positive) (ex ey : Z) :
  rounded sx (SFdiv prec emax (S754_finite sx mx ex) (S754_finite false my ey)).
Proof.
  rewrite SFdiv_finite, xorb_false_r. apply RN_rounded.
  apply stk_nonneg; [lia|].
  pose proof (Z.pow_nonneg 2
                (ex - ey - div_exp (Zpos mx) ex (Zpos my) ey + 1) ltac:(lia)).
  nia.
Qed.

Lemma SFdiv_opp (mx my : positive) (ex ey : Z) :
  SFdiv prec emax (S754_finite true mx ex) (S754_finite false my ey)
  = SFopp (SFdiv prec emax (S754_finite false mx ex) (S754_finite false my ey)).
Proof. rewrite !SFdiv_finite. cbn [xorb]. apply RN_opp. Qed.

(** *** Monotonicity of the quotient *)

Theorem SFdiv_mono (x y : spec_float) (mc : positive) (ec : Z) :
  valid_binary x = true -> valid_binary y = true ->
  SFltb y x = false ->
  SFltb (SFdiv prec emax y (S754_finite false mc ec))
        (SFdiv prec emax x (S754_finite false mc ec)) = false.
Proof.
  intros Vx Vy Hxy.
  destruct x as [sx|sx| |sx mx ex]; cbn [valid_binary] in Vx.
  - (* x is a zero *)
    destruct y as [sy|sy| |sy my ey]; cbn [valid_binary] in Vy;
      try reflexivity.
    + destruct sy; [discriminate|]. cbn [SFdiv]. now destruct sx.
    + destruct sy; [discriminate|].
      destruct (SFdiv_rounded false my mc ey ec); cbn [SFdiv]; now destruct sx.
  - (* x is an infinity *)
    destruct sx.
    + cbn [SFdiv xorb]. apply SFltb_infinity_r.
    + destruct y as [sy|sy| |sy my ey]; try discriminate; try reflexivity;
        destruct sy; (discriminate || reflexivity).
  - (* x is NaN *)
    cbn [SFdiv]. destruct y; apply SFltb_nan_r.
  - (* x is finite *)
    destruct y as [sy|sy| |sy my ey]; cbn [valid_binary] in Vy.
    + destruct sx; [|discriminate].
      destruct (SFdiv_rounded true mx mc ex ec); cbn [SFdiv]; now destruct sy.
    + destruct sy; [now destruct sx|]. cbn [SFdiv xorb].
      apply SFltb_infinity_l.
    + reflexivity.
    + apply SFleb_of_not_ltb_finite in Hxy.
      destruct sx, sy.
      * apply SFltb_of_leb. rewrite !SFdiv_opp. unfold SFleb.
        rewrite SFcompare_opp. apply SFleb_abs_neg in Hxy.
        apply (quotient_mono my mx mc ey ex ec (Z.min ex ey)); [lia|lia|].
        apply canonical_le_value; try assumption; lia.
      * apply rounded_signs; apply SFdiv_rounded.
      * discriminate.
      * apply SFltb_of_leb.
        apply (quotient_mono mx my mc ex ey ec (Z.min ex ey)); [lia|lia|].
        apply canonical_le_value; try assumption; lia.
Qed.

(** The quotient of two integers grows with the numerator. *)
Lemma exact_int_quotient_mono (a b d : Z) :
  0 < d -> a <= b ->
  SFltb (SFdiv prec emax (exact_int b) (exact_int d))
        (SFdiv prec emax (exact_int a) (exact_int d)) = false.
Proof.
  intros Hd Hab. destruct d as [|d|d]; try lia. cbn [exact_int].
  destruct a as [|a|a], b as [|b|b]; try lia; cbn [exact_int].
  - reflexivity.
  - destruct (SFdiv_rounded false b d 0 0); reflexivity.
  - apply SFltb_of_leb. apply (quotient_mono a b d 0 0 0 0); lia.
  - destruct (SFdiv_rounded true a d 0 0); reflexivity.
  - apply rounded_signs; apply SFdiv_rounded.
  - apply SFltb_of_leb. rewrite !SFdiv_opp. unfold SFleb.
    rewrite SFcompare_opp. apply (quotient_mono b a d 0 0 0 0); lia.
Qed.

Lemma exact_int_quotient_rounded (a d : Z) :
  0 < d -> SFdiv prec emax (exact_int a) (exact_int d) <> S754_nan.
Proof.
  intros Hd. destruct d as [|d|d]; try lia. cbn [exact_int].
  destruct a as [|a|a]; cbn [exact_int]; [discriminate| |].
  - destruct (SFdiv_rounded false a d 0 0); discriminate.
  - destruct (SFdiv_rounded true a d 0 0); discriminate.
Qed.

(** *** The order of binary64 numbers is transitive *)

Lemma SFleb_trans (a b c : spec_float) :
  SFleb a b = true -> SFleb b c = true -> SFleb a c = true.
Proof.
  unfold SFleb.
  destruct a as [sa|sa| |sa ma ea], b as [sb|sb| |sb mb eb],
    c as [sc|sc| |sc mc ec]; sf_cases.
Qed.

Lemma SFleb_ltb_trans (a b c : spec_float) :
  SFleb a b = true -> SFltb b c = true -> SFltb a c = true.
Proof.
  unfold SFleb, SFltb.
  destruct a as [sa|sa| |sa ma ea], b as [sb|sb| |sb mb eb],
    c as [sc|sc| |sc mc ec]; sf_cases.
Qed.

Lemma SFltb_leb_trans (a b c : spec_float) :
  SFltb a b = true -> SFleb b c = true -> SFltb a c = true.
Proof.
  unfold SFleb, SFltb.
  destruct a as [sa|sa| |sa ma ea], b as [sb|sb| |sb mb eb],
    c as [sc|sc| |sc mc ec]; sf_cases.
Qed.

Lemma SFleb_of_not_ltb (a b : spec_float) :
  a <> S754_nan -> b <> S754_nan -> SFltb b a = false -> SFleb a b = true.
Proof.
  unfold SFleb, SFltb.
  destruct a as [sa|sa| |sa ma ea], b as [sb|sb| |sb mb eb];
    try congruence; intros _ _; sf_cases.
Qed.

Lemma SFleb_not_nan (a b : spec_float) :
  SFleb a b = true -> a <> S754_nan /\ b <> S754_nan.
Proof. destruct a, b; try discriminate; intros _; split; discriminate. Qed.

Lemma SFsub_add_opp (x y : spec_float) :
  SFsub prec emax x y = SFadd prec emax x (SFopp y).
Proof.
  destruct x as [sx|sx| |sx mx ex], y as [sy|sy| |sy my ey];
    cbn [SFsub SFadd SFopp]; try reflexivity;
    destruct sx, sy; reflexivity.
Qed.

Lemma SFmul_comm (x y : spec_float) : SFmul prec emax x y = SFmul prec emax y x.
Proof.
  destruct x as [sx|sx| |sx mx ex], y as [sy|sy| |sy my ey];
    cbn [SFmul]; try reflexivity; try (now rewrite xorb_comm).
  now rewrite xorb_comm, Pos.mul_comm, Z.add_comm.
Qed.

Lemma SFopp_valid (x : spec_float) : valid_binary (SFopp x) = valid_binary x.
Proof. now destruct x. Qed.

Lemma SFltb_opp (a b : spec_float) : SFltb (SFopp a) (SFopp b) = SFltb b a.
Proof. unfold SFltb. now rewrite SFcompare_opp. Qed.

Lemma norm_not_nan (N : Z) : norm N <> S754_nan.
Proof.
  unfold norm. destruct (N =? 0); [discriminate|].
  destruct (Z.ltb_spec 0 N).
  - destruct (RN_rounded false N (-1074) ltac:(lia)); discriminate.
  - destruct (RN_rounded true (- N) (-1074) ltac:(lia)); discriminate.
Qed.

Lemma SFadd_not_nan (c x : spec_float) :
  valid_binary c = true -> valid_binary x = true ->
  is_finite_or_zero c = true -> x <> S754_nan ->
  SFadd prec emax c x <> S754_nan.
Proof.
  intros Vc Vx Fc Nx.
  destruct c as [sc|sc| |sc mc ec]; try discriminate;
    destruct x as [sx|sx| |sx mx ex]; try congruence; cbn [SFadd];
    try discriminate.
  - destruct sc, sx; discriminate.
  - fold (SFadd prec emax (S754_finite sc mc ec) (S754_finite sx mx ex)).
    rewrite SFadd_finite by assumption. apply norm_not_nan.
Qed.

Lemma SFmul_not_nan (x : spec_float) (mc : positive) (ec : Z) :
  valid_binary x = true -> bounded prec emax mc ec = true ->
  x <> S754_nan -> SFmul prec emax x (S754_finite false mc ec) <> S754_nan.
Proof.
  intros Vx Bc Nx. destruct x as [sx|sx| |sx mx ex]; try congruence;
    try discriminate.
  rewrite SFmul_finite by assumption.
  destruct (RN_rounded sx (Zpos mx * Zpos mc) (ex + ec) ltac:(lia));
    discriminate.
Qed.

Lemma SFdiv_not_nan (x : spec_float) (mc : positive) (ec : Z) :
  x <> S754_nan -> SFdiv prec emax x (S754_finite false mc ec) <> S754_nan.
Proof.
  intros Nx. destruct x as [sx|sx| |sx mx ex]; try congruence;
    try discriminate.
  destruct (SFdiv_rounded sx mx mc ex ec); discriminate.
Qed.

(** *** Primitive floats: order, ranges and the four operations *)

Lemma int_truediv_spec (a b : Z) :
  Prim2SF (int_truediv a b) = SFdiv prec emax (exact_int a) (exact_int b).
Proof. unfold int_truediv. apply Prim2SF_SF2Prim, SFdiv_valid. Qed.

Lemma pos_finite_float (c : float) :
  (0 <? c)%float = true -> (c <? infinity)%float = true ->
  exists m e, Prim2SF c = S754_finite false m e.
Proof.
  rewrite !ltb_spec.
  change (Prim2SF 0) with (S754_zero false).
  change (Prim2SF infinity) with (S754_infinity false).
  destruct (Prim2SF c) as [s|s| |s m e]; try discriminate.
  - now destruct s.
  - destruct s; [discriminate|]. eauto.
Qed.

Lemma fle_trans (x y z : float) : fle x y -> fle y z -> fle x z.
Proof. unfold fle. rewrite !leb_spec. apply SFleb_trans. Qed.

Lemma fle_lt_trans (x y z : float) :
  fle x y -> (y <? z)%float = true -> (x <? z)%float = true.
Proof. unfold fle. rewrite !leb_spec, !ltb_spec. apply SFleb_ltb_trans. Qed.

Lemma lt_fle_trans (x y z : float) :
  (x <? y)%float = true -> fle y z -> (x <? z)%float = true.
Proof. unfold fle. rewrite !leb_spec, !ltb_spec. apply SFltb_leb_trans. Qed.

Lemma fle_not_lt (x y : float) : fle x y -> (y <? x)%float = false.
Proof. unfold fle. rewrite leb_spec, ltb_spec. apply SFltb_of_leb. Qed.

Lemma lt_not_fle (x y : float) : (x <? y)%float = true -> (y <=? x)%float = false.
Proof.
  rewrite leb_spec, ltb_spec. unfold SFltb, SFleb.
  destruct (Prim2SF x) as [sa|sa| |sa ma ea], (Prim2SF y) as [sb|sb| |sb mb eb];
    sf_cases.
Qed.

Lemma lt_fle (x y : float) : (x <? y)%float = true -> fle x y.
Proof.
  unfold fle. rewrite leb_spec, ltb_spec. unfold SFltb, SFleb.
  now destruct (SFcompare _ _) as [[ | | ]|].
Qed.

Lemma not_lt_fle (x y : float) :
  Prim2SF x <> S754_nan -> Prim2SF y <> S754_nan ->
  (y <? x)%float = false -> fle x y.
Proof. unfold fle. rewrite leb_spec, ltb_spec. apply SFleb_of_not_ltb. Qed.

Lemma fle_not_nan (x y : float) :
  fle x y -> Prim2SF x <> S754_nan /\ Prim2SF y <> S754_nan.
Proof. unfold fle. rewrite leb_spec. apply SFleb_not_nan. Qed.

Lemma fle_finite (lo hi x : float) :
  is_finite_float lo = true -> is_finite_float hi = true -> fle lo x -> fle x hi ->
  is_finite_float x = true.
Proof.
  unfold is_finite_float, fle. rewrite !leb_spec.
  destruct (Prim2SF lo) as [sa|sa| |sa ma ea]; try discriminate;
    destruct (Prim2SF hi) as [sb|sb| |sb mb eb]; try discriminate;
    destruct (Prim2SF x) as [sc|sc| |sc mc ec]; try reflexivity;
    try discriminate; destruct sc; try discriminate;
    try (destruct sa; discriminate); try (destruct sb; discriminate).
Qed.

Lemma fle_div (x y c : float) :
  (0 <? c)%float = true -> (c <? infinity)%float = true ->
  fle x y -> fle (x / c) (y / c).
Proof.
  intros H0 Hi H. destruct (fle_not_nan x y H) as [Nx Ny].
  destruct (pos_finite_float c H0 Hi) as (m & e & Ec).
  apply not_lt_fle.
  - rewrite div_spec, Ec. now apply SFdiv_not_nan.
  - rewrite div_spec, Ec. now apply SFdiv_not_nan.
  - rewrite ltb_spec, !div_spec, Ec.
    apply SFdiv_mono; try apply Prim2SF_valid.
    rewrite <- ltb_spec. now apply fle_not_lt.
Qed.

Lemma int_truediv_mono (a b d : Z) :
  0 < d -> a <= b -> fle (int_truediv a d) (int_truediv b d).
Proof.
  intros Hd Hab. apply not_lt_fle.
  - rewrite int_truediv_spec. now apply exact_int_quotient_rounded.
  - rewrite int_truediv_spec. now apply exact_int_quotient_rounded.
  - rewrite ltb_spec, !int_truediv_spec. now apply exact_int_quotient_mono.
Qed.

Lemma fle_add_l (c x y : float) :
  is_finite_float c = true -> fle x y -> fle (c + x) (c + y).
Proof.
  intros Fc H. destruct (fle_not_nan x y H) as [Nx Ny].
  apply not_lt_fle.
  - rewrite add_spec. apply SFadd_not_nan; try apply Prim2SF_valid; assumption.
  - rewrite add_spec. apply SFadd_not_nan; try apply Prim2SF_valid; assumption.
  - apply float_add_mono_r. now apply fle_not_lt.
Qed.

Lemma fle_add_r (c x y : float) :
  is_finite_float c = true -> fle x y -> fle (x + c) (y + c).
Proof.
  intros Fc H. destruct (fle_not_nan x y H) as [Nx Ny].
  apply not_lt_fle.
  - rewrite add_spec. unfold SF64add. rewrite SFadd_comm.
    apply SFadd_not_nan; try apply Prim2SF_valid; assumption.
  - rewrite add_spec. unfold SF64add. rewrite SFadd_comm.
    apply SFadd_not_nan; try apply Prim2SF_valid; assumption.
  - apply float_add_mono_l. now apply fle_not_lt.
Qed.

Lemma fle_sub_l (c x y : float) :
  is_finite_float c = true -> fle x y -> fle (c - y) (c - x).
Proof.
  intros Fc H. destruct (fle_not_nan x y H) as [Nx Ny].
  assert (No : forall a, a <> S754_nan -> SFopp a <> S754_nan)
    by (intros [ | | | ]; congruence || discriminate).
  apply not_lt_fle.
  - rewrite sub_spec. unfold SF64sub. rewrite SFsub_add_opp.
    apply SFadd_not_nan; rewrite ?SFopp_valid; try apply Prim2SF_valid; auto.
  - rewrite sub_spec. unfold SF64sub. rewrite SFsub_add_opp.
    apply SFadd_not_nan; rewrite ?SFopp_valid; try apply Prim2SF_valid; auto.
  - rewrite ltb_spec, !sub_spec. unfold SF64sub. rewrite !SFsub_add_opp.
    rewrite (SFadd_comm (Prim2SF c) (SFopp (Prim2SF x))).
    rewrite (SFadd_comm (Prim2SF c) (SFopp (Prim2SF y))).
    apply SFadd_mono; rewrite ?SFopp_valid; try apply Prim2SF_valid.
    rewrite SFltb_opp, <- ltb_spec. now apply fle_not_lt.
Qed.

Lemma fle_mul_r (c x y : float) :
  (0 <? c)%float = true -> (c <? infinity)%float = true ->
  fle x y -> fle (x * c) (y * c).
Proof.
  intros H0 Hi H. destruct (fle_not_nan x y H) as [Nx Ny].
  destruct (pos_finite_float c H0 Hi) as (m & e & Ec).
  pose proof (Prim2SF_valid c) as Vc. rewrite Ec in Vc.
  apply not_lt_fle.
  - rewrite mul_spec, Ec. apply SFmul_not_nan; try apply Prim2SF_valid; auto.
  - rewrite mul_spec, Ec. apply SFmul_not_nan; try apply Prim2SF_valid; auto.
  - apply float_mul_mono; [now apply lt_fle|now apply fle_not_lt].
Qed.

Lemma fle_mul_l (c x y : float) :
  (0 <? c)%float = true -> (c <? infinity)%float = true ->
  fle x y -> fle (c * x) (c * y).
Proof.
  intros H0 Hi H. pose proof (fle_mul_r c x y H0 Hi H) as M.
  unfold fle in *. rewrite leb_spec, !mul_spec in *. unfold SF64mul in *.
  now rewrite (SFmul_comm (Prim2SF c) (Prim2SF x)),
    (SFmul_comm (Prim2SF c) (Prim2SF y)).
Qed.

Lemma fle_abs (x : float) : Prim2SF x <> S754_nan -> fle 0 (abs x).
Proof.
  unfold fle. rewrite leb_spec, abs_spec.
  change (Prim2SF 0) with (S754_zero false).
  destruct (Prim2SF x); try congruence; reflexivity.
Qed.

Lemma fle_add (a b c d : float) :
  is_finite_float b = true -> is_finite_float c = true ->
  fle a b -> fle c d -> fle (a + c) (b + d).
Proof.
  intros Fb Fc H1 H2. apply fle_trans with (b + c)%float.
  - apply fle_add_r; [exact Fc|exact H1].
  - apply fle_add_l; [exact Fb|exact H2].
Qed.

(** The sum of two numbers that lie in finite ranges lies in the sum of the
    ranges. *)
Lemma range_add (lo1 hi1 lo2 hi2 x y : float) :
  is_finite_float lo1 = true -> is_finite_float hi1 = true ->
  is_finite_float lo2 = true -> is_finite_float hi2 = true ->
  fle lo1 x -> fle x hi1 -> fle lo2 y -> fle y hi2 ->
  fle (lo1 + lo2) (x + y) /\ fle (x + y) (hi1 + hi2).
Proof.
  intros F1 F2 F3 F4 Lx Ux Ly Uy.
  pose proof (fle_finite lo1 hi1 x F1 F2 Lx Ux) as Fx.
  pose proof (fle_finite lo2 hi2 y F3 F4 Ly Uy) as Fy.
  split; apply fle_add; assumption.
Qed.

Lemma range_mul_r (c lo hi x : float) :
  (0 <? c)%float = true -> (c <? infinity)%float = true ->
  fle lo x -> fle x hi -> fle (lo * c) (x * c) /\ fle (x * c) (hi * c).
Proof. intros H0 Hi Lx Ux. split; apply fle_mul_r; assumption. Qed.

Lemma fle_of_leb (x y : float) : (x <=? y)%float = true -> fle x y.
Proof. exact (fun H => H). Qed.

(** *** A quotient against a binary64 number *)

Lemma stk_le_even (n d k : Z) : 0 < d -> n <= k * d -> stk n d <= 2 * k.
Proof.
  intros Hd H. unfold stk.
  pose proof (Z.div_mod n d ltac:(lia)) as E.
  pose proof (Z.mod_pos_bound n d Hd) as B.
  assert (Q : n / d <= k) by (apply Z.div_le_upper_bound; lia).
  destruct (Z.eqb_spec (n mod d) 0) as [M|M]; [lia|].
  assert (n / d <> k) by nia. lia.
Qed.

Lemma stk_ge_even (n d k : Z) : 0 < d -> k * d <= n -> 2 * k <= stk n d.
Proof.
  intros Hd H. unfold stk.
  assert (Q : k <= n / d) by (apply Z.div_le_lower_bound; lia).
  destruct (n mod d =? 0); lia.
Qed.

(** The quotient of two finite numbers, at an exponent [c] below the one
    that [SFdiv] chooses. *)
Lemma SFdiv_at (mx my : positive) (ex ey c : Z) :
  c <= div_exp (Zpos mx) ex (Zpos my) ey - 2 ->
  SFdiv prec emax (S754_finite false mx ex) (S754_finite false my ey)
  = RN false (stk (Zpos mx * 2 ^ (ex - ey - 1 - c)) (Zpos my)) c /\
  c <= fexp64 (Zdigits2 (stk (Zpos mx * 2 ^ (ex - ey - 1 - c)) (Zpos my)) + c).
Proof.
  intros Hc. rewrite SFdiv_finite. cbn [xorb].
  pose proof (div_shift_stk mx my ex ey) as S. cbv zeta in S.
  set (f := div_exp (Zpos mx) ex (Zpos my) ey) in *.
  assert (F : f <= ex - ey) by (unfold f, div_exp; lia).
  assert (P : 0 < 2 ^ (ex - ey - f + 1)) by (apply Z.pow_pos_nonneg; lia).
  pose proof (RN_stk_rescale false (Zpos mx * 2 ^ (ex - ey - f + 1)) (Zpos my)
                (f - 2) (f - 2 - c) ltac:(nia) ltac:(lia) ltac:(lia)
                ltac:(lia)) as R.
  pose proof (stk_fexp (Zpos mx * 2 ^ (ex - ey - f + 1)) (Zpos my)
                (f - 2) (f - 2 - c) ltac:(nia) ltac:(lia) ltac:(lia)
                ltac:(lia)) as K.
  replace (f - 2 - (f - 2 - c)) with c in * by lia.
  rewrite <- Z.mul_assoc, <- Z.pow_add_r in R, K by lia.
  replace (ex - ey - f + 1 + (f - 2 - c)) with (ex - ey - 1 - c) in * by lia.
  split; [now rewrite R|lia].
Qed.

(** A valid number, at an exponent below its own, as twice an integer. *)
Lemma canonical_at (mc : positive) (ec c : Z) :
  bounded prec emax mc ec = true -> c < ec ->
  S754_finite false mc ec = RN false (2 * (Zpos mc * 2 ^ (ec - c - 1))) c /\
  c <= fexp64 (Zdigits2 (2 * (Zpos mc * 2 ^ (ec - c - 1))) + c).
Proof.
  intros B Hc. destruct (bounded_canonical mc ec B) as [C _].
  assert (E : 2 * (Zpos mc * 2 ^ (ec - c - 1)) = Zpos mc * 2 ^ (ec - c)).
  { assert (P : 2 ^ (ec - c) = 2 * 2 ^ (ec - c - 1)).
    { rewrite <- Z.pow_succ_r by lia. f_equal. lia. }
    rewrite P. lia. }
  rewrite E.
  split.
  - rewrite <- (RN_canonical false mc ec B).
    rewrite <- (RN_rescale false (Zpos mc) ec (ec - c)) by lia.
    now replace (ec - (ec - c)) with c by lia.
  - rewrite Zdigits2_mul_pow2 by lia.
    replace (Zdigits2 (Zpos mc) + (ec - c) + c) with (Zdigits2 (Zpos mc) + ec)
      by lia.
    lia.
Qed.

Lemma SFdiv_le_const (mx my mc : positive) (ex ey ec b : Z) :
  bounded prec emax mc ec = true ->
  b <= ex -> b <= ec + ey ->
  Zpos mx * 2 ^ (ex - b) <= Zpos mc * Zpos my * 2 ^ (ec + ey - b) ->
  SFleb (SFdiv prec emax (S754_finite false mx ex) (S754_finite false my ey))
        (S754_finite false mc ec) = true.
Proof.
  intros B H1 H2 V.
  set (f := div_exp (Zpos mx) ex (Zpos my) ey).
  set (c := Z.min (Z.min (f - 2) (ec - 1)) (b - ey - 1)).
  destruct (SFdiv_at mx my ex ey c ltac:(lia)) as [-> K].
  destruct (canonical_at mc ec c B ltac:(lia)) as [-> _].
  assert (Pb : 0 < 2 ^ (b - ey - 1 - c)) by (apply Z.pow_pos_nonneg; lia).
  assert (Px : 0 < 2 ^ (ex - ey - 1 - c)) by (apply Z.pow_pos_nonneg; lia).
  apply RN_mono; [apply stk_pos; lia| |exact K].
  apply stk_le_even; [lia|].
  replace (ex - ey - 1 - c) with (ex - b + (b - ey - 1 - c)) by lia.
  replace (ec - c - 1) with (ec + ey - b + (b - ey - 1 - c)) by lia.
  rewrite !Z.pow_add_r by lia. nia.
Qed.

Lemma SFdiv_ge_const (mx my mc : positive) (ex ey ec b : Z) :
  bounded prec emax mc ec = true ->
  b <= ex -> b <= ec + ey ->
  Zpos mc * Zpos my * 2 ^ (ec + ey - b) <= Zpos mx * 2 ^ (ex - b) ->
  SFleb (S754_finite false mc ec)
        (SFdiv prec emax (S754_finite false mx ex) (S754_finite false my ey))
  = true.
Proof.
  intros B H1 H2 V.
  set (f := div_exp (Zpos mx) ex (Zpos my) ey).
  set (c := Z.min (Z.min (f - 2) (ec - 1)) (b - ey - 1)).
  destruct (SFdiv_at mx my ex ey c ltac:(lia)) as [-> _].
  destruct (canonical_at mc ec c B ltac:(lia)) as [-> K].
  assert (Pb : 0 < 2 ^ (b - ey - 1 - c)) by (apply Z.pow_pos_nonneg; lia).
  assert (Pc : 0 < 2 ^ (ec - c - 1)) by (apply Z.pow_pos_nonneg; lia).
  apply RN_mono; [nia| |exact K].
  apply stk_ge_even; [lia|].
  replace (ex - ey - 1 - c) with (ex - b + (b - ey - 1 - c)) by lia.
  replace (ec - c - 1) with (ec + ey - b + (b - ey - 1 - c)) by lia.
  rewrite !Z.pow_add_r by lia. nia.
Qed.

(** The same for primitive floats, by the values of the numerator and of
    the denominator. *)
Lemma fdiv_le_const (x y c : float) (mx my mc : positive) (ex ey ec : Z) :
  Prim2SF x = S754_finite false mx ex ->
  Prim2SF y = S754_finite false my ey ->
  Prim2SF c = S754_finite false mc ec -> ec <= 0 ->
  sval (Prim2SF x) * 2 ^ (- ec) <= Zpos mc * sval (Prim2SF y) ->
  fle (x / y) c.
Proof.
  intros Ex Ey Ec Hc V. unfold fle. rewrite leb_spec, div_spec, Ex, Ey, Ec.
  pose proof (Prim2SF_valid x) as Vx. rewrite Ex in Vx.
  pose proof (Prim2SF_valid y) as Vy. rewrite Ey in Vy.
  pose proof (Prim2SF_valid c) as Vc. rewrite Ec in Vc.
  destruct (bounded_canonical mx ex Vx) as [Cx _].
  destruct (bounded_canonical my ey Vy) as [Cy _].
  assert (Hx : -1074 <= ex) by (unfold fexp64 in Cx; lia).
  assert (Hy : -1074 <= ey) by (unfold fexp64 in Cy; lia).
  rewrite Ex, Ey in V. cbn [sval cond_Zopp] in V.
  apply (SFdiv_le_const mx my mc ex ey ec (-1074 + ec) Vc); [lia|lia|].
  replace (ex - (-1074 + ec)) with (ex + 1074 + - ec) by lia.
  replace (ec + ey - (-1074 + ec)) with (ey + 1074) by lia.
  rewrite (Z.pow_add_r 2 (ex + 1074) (- ec)) by lia. lia.
Qed.

Lemma fdiv_ge_const (x y c : float) (mx my mc : positive) (ex ey ec : Z) :
  Prim2SF x = S754_finite false mx ex ->
  Prim2SF y = S754_finite false my ey ->
  Prim2SF c = S754_finite false mc ec -> ec <= 0 ->
  Zpos mc * sval (Prim2SF y) <= sval (Prim2SF x) * 2 ^ (- ec) ->
  fle c (x / y).
Proof.
  intros Ex Ey Ec Hc V. unfold fle. rewrite leb_spec, div_spec, Ex, Ey, Ec.
  pose proof (Prim2SF_valid x) as Vx. rewrite Ex in Vx.
  pose proof (Prim2SF_valid y) as Vy. rewrite Ey in Vy.
  pose proof (Prim2SF_valid c) as Vc. rewrite Ec in Vc.
  destruct (bounded_canonical mx ex Vx) as [Cx _].
  destruct (bounded_canonical my ey Vy) as [Cy _].
  assert (Hx : -1074 <= ex) by (unfold fexp64 in Cx; lia).
  assert (Hy : -1074 <= ey) by (unfold fexp64 in Cy; lia).
  rewrite Ex, Ey in V. cbn [sval cond_Zopp] in V.
  apply (SFdiv_ge_const mx my mc ex ey ec (-1074 + ec) Vc); [lia|lia|].
  replace (ex - (-1074 + ec)) with (ex + 1074 + - ec) by lia.
  replace (ec + ey - (-1074 + ec)) with (ey + 1074) by lia.
  rewrite (Z.pow_add_r 2 (ex + 1074) (- ec)) by lia. lia.
Qed.

(** *** Numbers that are represented exactly *)

Lemma norm_exact (k j : Z) :
  0 < k < 2 ^ 53 -> 0 <= j -> Zdigits2 k + j <= 2098 ->
  exists m e, norm (k * 2 ^ j) = S754_finite false m e /\
              bounded prec emax m e = true /\
              Zpos m * 2 ^ (e + 1074) = k * 2 ^ j.
Proof.
  intros Hk Hj Hd.
  pose proof (Zdigits2_bounds k ltac:(lia)) as [L U].
  pose proof (Zdigits2_pos k ltac:(lia)) as P.
  assert (D : Zdigits2 k <= 53) by (apply Zdigits2_le; lia).
  set (d := Zdigits2 k) in *.
  assert (K : exists m e, bounded prec emax m e = true /\
                          Zpos m * 2 ^ (e + 1074) = k * 2 ^ j).
  { destruct (Z.le_gt_cases 53 (d + j)) as [N|S].
    - assert (Pm : 0 < k * 2 ^ (53 - d))
        by (assert (0 < 2 ^ (53 - d)) by (apply Z.pow_pos_nonneg; lia); nia).
      exists (Z.to_pos (k * 2 ^ (53 - d))), (d + j - 1127).
      rewrite Z2Pos.id by exact Pm. split.
      + apply canonical_bounded; [|lia].
        rewrite Z2Pos.id by exact Pm.
        rewrite Zdigits2_mul_pow2 by lia. fold d. unfold fexp64. lia.
      + rewrite <- Z.mul_assoc, <- Z.pow_add_r by lia. do 2 f_equal. lia.
    - assert (Pm : 0 < k * 2 ^ j)
        by (assert (0 < 2 ^ j) by (apply Z.pow_pos_nonneg; lia); nia).
      exists (Z.to_pos (k * 2 ^ j)), (-1074).
      rewrite Z2Pos.id by exact Pm. split.
      + apply canonical_bounded; [|lia].
        rewrite Z2Pos.id by exact Pm.
        rewrite Zdigits2_mul_pow2 by lia. fold d. unfold fexp64. lia.
      + change (-1074 + 1074) with 0. change (2 ^ 0) with 1. lia. }
  destruct K as (m & e & B & V). exists m, e. split; [|now split].
  rewrite <- V. apply (norm_canonical false m e B).
Qed.

(** [float(z)] of an integer of at most 53 bits is [z]. *)
Lemma int_to_float_exact (z : Z) :
  0 < z < 2 ^ 53 ->
  exists (F : float) (m : positive) (e : Z),
    int_to_float z = Ok F /\
    Prim2SF F = S754_finite false m e /\
    sval (Prim2SF F) = z * 2 ^ 1074.
Proof.
  intros Hz. assert (D : Zdigits2 z <= 53) by (apply Zdigits2_le; lia).
  destruct (norm_exact z 1074 Hz ltac:(lia) ltac:(lia)) as (m & e & N & B & V).
  unfold int_to_float. rewrite binary_normalize_value by lia.
  change (0 + 1074) with 1074. rewrite N.
  exists (SF2Prim (S754_finite false m e)), m, e.
  rewrite Prim2SF_SF2Prim by exact B. split; [reflexivity|].
  split; [reflexivity|]. exact V.
Qed.

(** The sum of two finite numbers between two numbers that are
    represented exactly. *)
Lemma fadd_between (x c : float) (sx sc : bool) (mx mc : positive)
    (ex ec klo jlo khi jhi : Z) :
  Prim2SF x = S754_finite sx mx ex ->
  Prim2SF c = S754_finite sc mc ec ->
  0 < klo < 2 ^ 53 -> 0 <= jlo -> Zdigits2 klo + jlo <= 2098 ->
  0 < khi < 2 ^ 53 -> 0 <= jhi -> Zdigits2 khi + jhi <= 2098 ->
  klo * 2 ^ jlo <= sval (Prim2SF x) + sval (Prim2SF c) <= khi * 2 ^ jhi ->
  exists m e,
    Prim2SF (x + c) = S754_finite false m e /\
    klo * 2 ^ jlo <= sval (Prim2SF (x + c)) <= khi * 2 ^ jhi.
Proof.
  intros Ex Ec Hl Jl Dl Hh Jh Dh [Lo Hi].
  pose proof (Prim2SF_valid x) as Vx. rewrite Ex in Vx.
  pose proof (Prim2SF_valid c) as Vc. rewrite Ec in Vc.
  pose proof (Prim2SF_valid (x + c)) as Vs.
  assert (E : Prim2SF (x + c)
              = norm (sval (Prim2SF x) + sval (Prim2SF c))).
  { rewrite add_spec, Ex, Ec. now apply SFadd_finite. }
  rewrite E in *.
  set (total := sval (Prim2SF x) + sval (Prim2SF c)) in *.
  destruct (norm_exact klo jlo Hl Jl Dl) as (m1 & e1 & N1 & B1 & V1).
  destruct (norm_exact khi jhi Hh Jh Dh) as (m2 & e2 & N2 & B2 & V2).
  pose proof (norm_mono _ _ Lo) as M1. rewrite N1 in M1.
  pose proof (norm_mono _ _ Hi) as M2. rewrite N2 in M2.
  destruct (norm total) as [s|s| |s m e]; try discriminate;
    try (destruct s; discriminate).
  destruct s; [discriminate|]. exists m, e. split; [reflexivity|].
  cbn [valid_binary] in Vs.
  destruct (bounded_canonical m e Vs) as [C _].
  destruct (bounded_canonical m1 e1 B1) as [C1 _].
  destruct (bounded_canonical m2 e2 B2) as [C2 _].
  assert (He : -1074 <= e) by (unfold fexp64 in C; lia).
  assert (He1 : -1074 <= e1) by (unfold fexp64 in C1; lia).
  assert (He2 : -1074 <= e2) by (unfold fexp64 in C2; lia).
  pose proof (canonical_le_value m1 m e1 e (-1074) B1 Vs He1 He M1) as W1.
  pose proof (canonical_le_value m m2 e e2 (-1074) Vs B2 He He2 M2) as W2.
  replace (e1 - -1074) with (e1 + 1074) in W1 by lia.
  replace (e - -1074) with (e + 1074) in W1, W2 by lia.
  replace (e2 - -1074) with (e2 + 1074) in W2 by lia.
  cbn [sval cond_Zopp]. lia.
Qed.

(** * The SLA state in exact time *)

(** The hours that remain grow with the microseconds that remain. *)
Lemma remaining_hours_mono (a b : Z) :
  a <= b -> fle (total_seconds a / 3600) (total_seconds b / 3600).
Proof.
  intros H. apply fle_div; [reflexivity|reflexivity|].
  unfold total_seconds. apply int_truediv_mono; [lia|exact H].
Qed.

(** The comparisons of [check_sla_breach], made on floats, decide as the
    exact time that remains does. *)
Lemma sla_decision (us : Z) :
  (let time_remaining := (total_seconds us / 3600)%float in
   if (time_remaining <? 0)%float then "breached"
   else if (time_remaining <? 2)%float then "critical"
   else if (time_remaining <? 12)%float then "warning"
   else "ok")
  = sla_state_name (sla_state_of_remaining us).
Proof.
  cbv zeta. unfold sla_state_of_remaining, hour_us.
  assert (B0 : (total_seconds (-1) / 3600 <? 0)%float = true)
    by (vm_compute; reflexivity).
  assert (A0 : fle 0 (total_seconds 0 / 3600)) by (vm_compute; reflexivity).
  assert (B2 : (total_seconds 7199999999 / 3600 <? 2)%float = true)
    by (vm_compute; reflexivity).
  assert (A2 : fle 2 (total_seconds 7200000000 / 3600))
    by (vm_compute; reflexivity).
  assert (B12 : (total_seconds 43199999999 / 3600 <? 12)%float = true)
    by (vm_compute; reflexivity).
  assert (A12 : fle 12 (total_seconds 43200000000 / 3600))
    by (vm_compute; reflexivity).
  assert (Up : forall k c, us <= k ->
                 (total_seconds k / 3600 <? c)%float = true ->
                 (total_seconds us / 3600 <? c)%float = true).
  { intros k c Hk Hc.
    exact (fle_lt_trans _ _ _ (remaining_hours_mono us k Hk) Hc). }
  assert (Lo : forall k c, k <= us ->
                 fle c (total_seconds k / 3600) ->
                 (total_seconds us / 3600 <? c)%float = false).
  { intros k c Hk Hc. apply fle_not_lt.
    exact (fle_trans _ _ _ Hc (remaining_hours_mono k us Hk)). }
  destruct (Z.ltb_spec us 0) as [H0|H0].
  { rewrite (Up (-1) 0%float) by (lia || assumption). reflexivity. }
  rewrite (Lo 0 0%float) by (lia || assumption).
  destruct (Z.ltb_spec us (2 * (3600 * 1000000))) as [H2|H2].
  { rewrite (Up 7199999999 2%float) by (lia || assumption). reflexivity. }
  rewrite (Lo 7200000000 2%float) by (lia || assumption).
  destruct (Z.ltb_spec us (12 * (3600 * 1000000))) as [H12|H12].
  { rewrite (Up 43199999999 12%float) by (lia || assumption). reflexivity. }
  rewrite (Lo 43200000000 12%float) by (lia || assumption).
  reflexivity.
Qed.

Section SLAExact.
Variable clock : nat → Z.
Variable fromisoformat : string → option Z.
Variable isoformat : Z → string.
Variable exn_str : exn → string.
Variable py_sum : list float → float.

(** The check of an alert whose deadline can be computed. *)
Lemma check_sla_breach_by_deadline (alert : dict) (n m : nat) (deadline : Z) :
  calculate_sla_deadline clock fromisoformat alert n = (Ok deadline, m) →
  ∃ sla,
    check_sla_breach clock fromisoformat isoformat alert n = (Ok sla, S m) ∧
    sla !! "sla_status"
    = Some (VStr (sla_state_name
                    (sla_state_of_remaining (deadline - clock m)))) ∧
    sla !! "breach_risk"
    = Some (VStr (risk_name
                    (risk_of_state
                       (sla_state_of_remaining (deadline - clock m))))) ∧
    sla !! "sla_deadline" = Some (VStr (isoformat deadline)).
Proof.
  intros Ed. unfold check_sla_breach. rewrite Clk_bind_eq, Ed.
  rewrite Clk_bind_eq. unfold utcnow at 1.
  pose proof (sla_decision (deadline - clock m)) as D. cbv zeta in D.
  destruct (_ <? 0)%float;
    [|destruct (_ <? 2)%float; [|destruct (_ <? 12)%float]];
    [apply (sla_state_name_inj SlaBreached) in D
    |apply (sla_state_name_inj SlaCritical) in D
    |apply (sla_state_name_inj SlaWarning) in D
    |apply (sla_state_name_inj SlaOk) in D];
    rewrite <- D; eexists; (split; [reflexivity|]); by repeat split.
Qed.

(** The deadline of a record that carries a priority of the scorer and a
    creation time, as a datetime or as a text that parses. *)
Lemma calculate_sla_deadline_dated (alert : dict) (p : tier) (v : pyval)
    (c deadline : Z) (n m : nat) :
  alert !! "priority" = Some (VStr (tier_name p)) →
  alert !! "created_at" = Some v →
  parse_if_str fromisoformat v = Ok (VDatetime c) →
  calculate_sla_deadline clock fromisoformat alert n = (Ok deadline, m) →
  ∃ h, SLA_TARGETS !! tier_name p = Some h ∧
       deadline = c + h * hour_us ∧ m = S n.
Proof.
  intros Hp Hc Hv. unfold calculate_sla_deadline. rewrite Hp, Hc.
  cbn [default from_option id].
  rewrite Clk_bind_eq. unfold utcnow at 1.
  rewrite Clk_bind_eq. unfold lift at 1. rewrite Hv.
  rewrite Clk_bind_eq. unfold lift at 1.
  destruct (sla_hours_of_tier p) as (h & Hh & _). rewrite Hh.
  unfold lift, add_hours.
  destruct ((0 <=? c + h * hour_us) && (c + h * hour_us <=? MAXDT));
    [|discriminate].
  intros [= <- <-]. exists h. split; [|by split].
  revert Hh. by destruct p; intros [= <-].
Qed.

(** Scoring an alert whose creation time can be read takes two readings of
    the clock. *)
Lemma calculate_alert_score_dated_clock (alert score : dict) (v : pyval)
    (c : Z) (n n1 : nat) :
  alert !! "created_at" = Some v →
  parse_if_str fromisoformat v = Ok (VDatetime c) →
  calculate_alert_score clock fromisoformat exn_str alert n = (Ok score, n1) →
  n1 = S (S n).
Proof.
  intros Hc Hv Es.
  unfold calculate_alert_score, try_except, score_attempt in Es.
  rewrite Hc in Es. cbn [default from_option id] in Es.
  rewrite Clk_bind_eq in Es. unfold utcnow at 1 in Es.
  rewrite Clk_bind_eq in Es. unfold lift at 1 in Es. rewrite Hv in Es.
  rewrite Clk_bind_eq in Es. unfold utcnow at 1 in Es.
  rewrite Clk_bind_eq in Es. unfold lift at 1 in Es.
  cbn [sub_total_seconds] in Es.
  rewrite Clk_bind_eq in Es. unfold lift at 1 in Es.
  destruct (calculate_composite_risk _ _ _ _ _); by injection Es.
Qed.


(** X17. The SLA status that [process_alert] records and the escalation
    level it records are decided on different readings of the clock. For
    an alert whose creation time [c] can be read and whose processing
    returns, with [h] the SLA hours of the priority [p] that the scorer
    found and [n] the number of readings made before: the status is the
    state for the time that remains from the reading [n + 4] to the
    deadline [c + h] hours, the level is the entry of the table for [p] and
    the state for the time that remains from the reading [n + 6]; seven
    readings are made in all. Each state is decided by the exact number of
    microseconds that remain. *)
Theorem escalation_after_status (alert : dict) (product : option dict)
    (history : option (list dict)) (v : pyval) (c : Z) (n : nat) :
  alert !! "created_at" = Some v →
  parse_if_str fromisoformat v = Ok (VDatetime c) →
  match process_alert clock fromisoformat isoformat exn_str py_sum alert
          product history n with
  | (Ok processed, n') =>
      ∃ (p : tier) (h : Z),
        SLA_TARGETS !! tier_name p = Some h ∧
        processed !! "priority" = Some (VStr (tier_name p)) ∧
        let s := sla_state_of_remaining
                   (c + h * hour_us - clock (n + 4)%nat) in
        let s' := sla_state_of_remaining
                    (c + h * hour_us - clock (n + 6)%nat) in
        processed !! "sla_status" = Some (VStr (sla_state_name s)) ∧
        processed !! "escalation_level"
        = Some (of_option
                  (escalation_name
                     (escalation_table p s' (risk_of_state s')))) ∧
        n' = (n + 7)%nat
  | (Raise _, _) => True
  end.
Proof.
  intros Hc Hv.
  destruct (process_alert _ _ _ _ _ _ _ _ _) as [[processed|e] n'] eqn:H;
    [|exact I].
  apply process_alert_inv in H
    as (score & n1 & p1 & p2 & deadline & n2 & sla & n3 & level
        & Es & E1 & E2 & Ed & Ec & Ee & ->).
  pose proof (calculate_alert_score_dated_clock _ _ _ _ _ _ Hc Hv Es) as ->.
  destruct (pre_escalation_fields _ _ _ _ _ _ _ _ _ _ _ _ _ _ _ _ deadline
              Es E1 E2 Ec)
    as (f & p & s & t & _ & Hp & Hs & _ & Pp & Ps & _).
  assert (Nc : score !! "created_at" = None).
  { apply (calculate_alert_score_frame _ _ _ _ _ _ _ _ Es).
    unfold score_keys. rewrite !not_elem_of_cons.
    repeat split; try done. apply not_elem_of_nil. }
  assert (Fr : ∀ k, k ∉ product_keys → k ∉ history_keys →
               p2 !! k = (score ∪ alert) !! k)
    by (intros k; apply (enrichment_frame fromisoformat py_sum _ _ _ _ _ _ E1 E2)).
  assert (Qp : p2 !! "priority" = Some (VStr (tier_name p))).
  { rewrite Fr, (lookup_union_Some_l _ _ _ _ Hp); [done| |];
      unfold product_keys, history_keys; rewrite !not_elem_of_cons;
      repeat split; try done; apply not_elem_of_nil. }
  assert (Qc : p2 !! "created_at" = Some v).
  { rewrite Fr, (lookup_union_r _ _ _ Nc); [done| |];
      unfold product_keys, history_keys; rewrite !not_elem_of_cons;
      repeat split; try done; apply not_elem_of_nil. }
  assert (Np : ∀ k, k ∉ sla_keys →
               (sla ∪ <["sla_deadline" := VDatetime deadline]> p2) !! k
               = p2 !! k).
  { intros k Kk.
    rewrite (lookup_union_r _ _ _
               (check_sla_breach_frame _ _ _ _ _ _ _ _ Ec Kk)).
    unfold sla_keys in Kk. split_keys Kk. by rewrite lookup_insert_ne. }
  (* the deadline that is stored *)
  destruct (calculate_sla_deadline_dated _ _ _ _ _ _ _ Qp Qc Hv Ed)
    as (h & Hh & -> & ->).
  (* the check that is recorded *)
  destruct (calculate_sla_deadline clock fromisoformat p2 (S (S (S n))))
    as [[d2|e2] m2] eqn:Ed2;
    [|unfold check_sla_breach in Ec; rewrite Clk_bind_eq, Ed2 in Ec;
      discriminate].
  destruct (calculate_sla_deadline_dated _ _ _ _ _ _ _ Qp Qc Hv Ed2)
    as (h2 & Hh2 & -> & ->).
  assert (h2 = h) as -> by congruence.
  destruct (check_sla_breach_by_deadline _ _ _ _ Ed2)
    as (sla2 & Ec2 & Hs2 & _).
  rewrite Ec in Ec2. injection Ec2 as <- ->.
  (* the check of the escalation *)
  apply determine_escalation_level in Ee as (sla' & s' & Ec' & Hs' & ->).
  set (r := sla ∪ <["sla_deadline" := VDatetime (c + h * hour_us)]> p2) in *.
  assert (Rp : r !! "priority" = Some (VStr (tier_name p))) by exact Pp.
  assert (Rc : r !! "created_at" = Some v).
  { unfold r. rewrite Np; [exact Qc|].
    unfold sla_keys. rewrite !not_elem_of_cons.
    repeat split; try done. apply not_elem_of_nil. }
  destruct (calculate_sla_deadline clock fromisoformat r
              (S (S (S (S (S n))))))
    as [[d3|e3] m3] eqn:Ed3;
    [|unfold check_sla_breach in Ec'; rewrite Clk_bind_eq, Ed3 in Ec';
      discriminate].
  destruct (calculate_sla_deadline_dated _ _ _ _ _ _ _ Rp Rc Hv Ed3)
    as (h3 & Hh3 & -> & ->).
  assert (h3 = h) as -> by congruence.
  destruct (check_sla_breach_by_deadline _ _ _ _ Ed3)
    as (sla3 & Ec3 & Hs3 & _).
  rewrite Ec' in Ec3. injection Ec3 as <- ->.
  rewrite Hs3 in Hs'. injection Hs' as Hs'.
  apply sla_state_name_inj in Hs'. subst s'.
  exists p, h. split; [exact Hh|].
  replace (n + 4)%nat with (S (S (S (S n)))) by lia.
  replace (n + 6)%nat with (S (S (S (S (S (S n)))))) by lia.
  replace (n + 7)%nat with (S (S (S (S (S (S (S n))))))) by lia.
  cbv zeta.
  repeat (rewrite lookup_insert_ne by done).
  split; [exact Pp|].
  split; [fold r; rewrite Ps; congruence|].
  split; [|reflexivity].
  rewrite lookup_insert_eq, Rp. cbn [default from_option id].
  by rewrite tier_of_name.
Qed.
End SLAExact.

(** On a clock that advances a microsecond at every reading, an alert
    scored p1 for which exactly two hours remain at the recorded check is
    recorded as "warning" and escalated to "director", where the table
    gives "manager" for p1 and "warning". *)
Lemma escalation_after_status_witness :
  match process_alert (ticking sample_now) sample_fromisoformat
          sample_isoformat sample_exn_str (fun _ => 0%float) race_alert
          None None 0%nat with
  | (Ok processed, n') =>
      ∃ (p : tier) (h : Z),
        SLA_TARGETS !! tier_name p = Some h ∧
        processed !! "priority" = Some (VStr (tier_name p)) ∧
        let s := sla_state_of_remaining
                   (sample_now + 4 - 2 * hour_us + h * hour_us
                    - ticking sample_now (0 + 4)%nat) in
        let s' := sla_state_of_remaining
                    (sample_now + 4 - 2 * hour_us + h * hour_us
                     - ticking sample_now (0 + 6)%nat) in
        processed !! "sla_status" = Some (VStr (sla_state_name s)) ∧
        processed !! "escalation_level"
        = Some (of_option
                  (escalation_name
                     (escalation_table p s' (risk_of_state s')))) ∧
        n' = (0 + 7)%nat
  | (Raise _, _) => True
  end ∧
  processed_field
    (process_alert (ticking sample_now) sample_fromisoformat sample_isoformat
       sample_exn_str (fun _ => 0%float) race_alert None None 0%nat)
    "sla_status" = Some (VStr "warning") ∧
  processed_field
    (process_alert (ticking sample_now) sample_fromisoformat sample_isoformat
       sample_exn_str (fun _ => 0%float) race_alert None None 0%nat)
    "escalation_level" = Some (VStr "director") ∧
  processed_field
    (process_alert (ticking sample_now) sample_fromisoformat sample_isoformat
       sample_exn_str (fun _ => 0%float) race_alert None None 0%nat)
    "priority" = Some (VStr "p1") ∧
  escalation_name (escalation_table P1 SlaWarning (risk_of_state SlaWarning))
  = Some "manager".
Proof.
  split; [|repeat split; vm_compute; reflexivity].
  exact (escalation_after_status (ticking sample_now) sample_fromisoformat
           sample_isoformat sample_exn_str (fun _ => 0%float) race_alert
           None None (VDatetime (sample_now + 4 - 2 * hour_us))
           (sample_now + 4 - 2 * hour_us) 0%nat eq_refl eq_refl).
Defined.


(** * The similarity of two alerts *)

Lemma total_seconds_not_nan (us : Z) : Prim2SF (total_seconds us) <> S754_nan.
Proof.
  unfold total_seconds. rewrite int_truediv_spec.
  apply exact_int_quotient_rounded. lia.
Qed.

Lemma hours_not_nan (us : Z) :
  Prim2SF (total_seconds us / 3600) <> S754_nan.
Proof.
  rewrite div_spec.
  change (Prim2SF 3600) with (S754_finite false 7916483719987200 (-41)).
  apply SFdiv_not_nan, total_seconds_not_nan.
Qed.

(** The share of the score that the closeness in time gives lies between 0
    and 0.1. *)
Lemma proximity_share_range (t : float) :
  fle 0 t -> (t <? 24)%float = true ->
  fle 0 (0.1 * (1 - t / 24)) /\ fle (0.1 * (1 - t / 24)) 0.1.
Proof.
  intros H0 H24.
  assert (D0 : fle 0 (t / 24)).
  { apply fle_trans with (0 / 24)%float; [vm_compute; reflexivity|].
    apply fle_div; [reflexivity|reflexivity|exact H0]. }
  assert (D1 : fle (t / 24) 1).
  { apply fle_trans with (24 / 24)%float; [|vm_compute; reflexivity].
    apply fle_div; [reflexivity|reflexivity|now apply lt_fle]. }
  assert (U0 : fle 0 (1 - t / 24)).
  { apply fle_trans with (1 - 1)%float; [vm_compute; reflexivity|].
    apply fle_sub_l; [reflexivity|exact D1]. }
  assert (U1 : fle (1 - t / 24) 1).
  { apply fle_trans with (1 - 0)%float; [|vm_compute; reflexivity].
    apply fle_sub_l; [reflexivity|exact D0]. }
  split.
  - apply fle_trans with (0.1 * 0)%float; [vm_compute; reflexivity|].
    apply fle_mul_l; [reflexivity|reflexivity|exact U0].
  - apply fle_trans with (0.1 * 1)%float; [|vm_compute; reflexivity].
    apply fle_mul_l; [reflexivity|reflexivity|exact U1].
Qed.

Lemma share_below (base w c : float) :
  is_finite_float base = true -> fle w 0.1 ->
  (base + 0.1 <? c)%float = true -> (base + w <? c)%float = true.
Proof.
  intros Fb Hw Hc. apply fle_lt_trans with (base + 0.1)%float; [|exact Hc].
  apply fle_add_l; [exact Fb|exact Hw].
Qed.

Lemma share_above (base w c : float) :
  is_finite_float base = true -> fle 0 w ->
  fle c (base + 0) -> fle c (base + w).
Proof.
  intros Fb Hw Hc. apply fle_trans with (base + 0)%float; [exact Hc|].
  apply fle_add_l; [exact Fb|exact Hw].
Qed.

Section Similarity.
Variable clock : nat → Z.
Variable fromisoformat : string → option Z.

(** The score of a pair against the threshold 0.8, and its range. *)
Lemma similarity_threshold_fields (alert1 alert2 : dict) (n n' : nat)
    (s : float) :
  calculate_similarity clock fromisoformat alert1 alert2 n = (Ok s, n') →
  (0.8 <=? s)%float = same_key_fields alert1 alert2 ∧
  fle 0 s ∧ (s <? 1)%float = true.
Proof.
  intros H. unfold calculate_similarity in H.
  rewrite Clk_bind_eq in H. unfold utcnow at 1 in H.
  rewrite Clk_bind_eq in H. unfold utcnow at 1 in H.
  clk_bind H c1 m1 E1. clk_bind H c2 m2 E2. clk_bind H seconds m3 E3.
  unfold mret, Clk_ret in H. injection H as <- <-.
  unfold lift in E3. injection E3 as E3 _.
  assert (Hs : ∃ us, seconds = total_seconds us).
  { unfold sub_total_seconds in E3.
    destruct c1, c2; try discriminate;
      try (destruct (_ && _); discriminate).
    injection E3 as <-. by eexists. }
  destruct Hs as [us ->]. clear E1 E2 E3.
  set (t := abs (total_seconds us / 3600)).
  assert (T0 : fle 0 t) by apply fle_abs, hours_not_nan.
  unfold same_key_fields.
  destruct (t <? 24)%float eqn:T24.
  - destruct (proximity_share_range t T0 T24) as [W0 W1].
    destruct (py_eq (dict_get alert1 "product_id") _),
      (py_eq (dict_get alert1 "category") _),
      (py_eq (dict_get alert1 "severity") _); cbn [andb];
      (split; [|split]);
      first [ apply share_above; [reflexivity|exact W0|vm_compute; reflexivity]
            | apply share_below; [reflexivity|exact W1|vm_compute; reflexivity]
            | apply lt_not_fle, share_below;
              [reflexivity|exact W1|vm_compute; reflexivity] ].
  - destruct (py_eq (dict_get alert1 "product_id") _),
      (py_eq (dict_get alert1 "category") _),
      (py_eq (dict_get alert1 "severity") _); cbn [andb];
      repeat split; vm_compute; reflexivity.
Qed.

(** X19. Whatever the creation times are, two alerts reach the default
    threshold 0.8 of [find_duplicates] exactly when they agree on the
    product, the category and the severity: with all three the score is at
    least 0.8999999999999999, with two of them at most 0.7999999999999999
    (0.7 + 0.1 in binary64), so the closeness in time never decides. The
    score is never negative and always below 1. *)
Theorem calculate_similarity_threshold (alert1 alert2 : dict) (n : nat) :
  match calculate_similarity clock fromisoformat alert1 alert2 n with
  | (Ok s, _) =>
      (0.8 <=? s)%float = same_key_fields alert1 alert2 ∧
      fle 0 s ∧ (s <? 1)%float = true
  | (Raise _, _) => True
  end.
Proof.
  destruct (calculate_similarity clock fromisoformat alert1 alert2 n)
    as [[s|e] n'] eqn:H; [|exact I].
  exact (similarity_threshold_fields _ _ _ _ _ H).
Qed.

Lemma elem_of_matching_of (x : nat * nat) (a : dict) (i j : nat)
    (rest : list dict) :
  x ∈ matching_of a i j rest ↔
  ∃ d b, x = (i, (j + d)%nat) ∧ rest !! d = Some b ∧
         same_key_fields a b = true.
Proof.
  revert j. induction rest as [|b rest IH]; intros j; cbn [matching_of].
  - split; [by intros ?%elem_of_nil|]. by intros (d & c & _ & ? & _).
  - assert (K : x ∈ matching_of a i (S j) rest ↔
                ∃ d c, x = (i, (j + S d)%nat) ∧ rest !! d = Some c ∧
                       same_key_fields a c = true).
    { rewrite IH. split; intros (d & c & -> & Hc & Hk); exists d, c;
        (split; [f_equal; lia|by split]). }
    destruct (same_key_fields a b) eqn:Hb.
    + rewrite elem_of_cons, K. split.
      * intros [->|(d & c & -> & Hc & Hk)].
        -- exists 0%nat, b. split; [f_equal; lia|by split].
        -- exists (S d), c. by repeat split.
      * intros ([|d] & c & -> & Hc & Hk).
        -- left. f_equal. lia.
        -- right. exists d, c. by repeat split.
    + rewrite K. split.
      * intros (d & c & -> & Hc & Hk). exists (S d), c. by repeat split.
      * intros ([|d] & c & -> & Hc & Hk).
        -- cbn in Hc. injection Hc as <-. congruence.
        -- exists d, c. by repeat split.
Qed.

Lemma elem_of_matching_from (x : nat * nat) (i : nat) (alerts : list dict) :
  x ∈ matching_from i alerts ↔
  ∃ d e a b, x = ((i + d)%nat, (i + e)%nat) ∧ (d < e)%nat ∧
             alerts !! d = Some a ∧ alerts !! e = Some b ∧
             same_key_fields a b = true.
Proof.
  revert i. induction alerts as [|a rest IH]; intros i; cbn [matching_from].
  - split; [by intros ?%elem_of_nil|]. by intros (d & e & ? & ? & _ & _ & ? & _).
  - rewrite elem_of_app, elem_of_matching_of, IH. split.
    + intros [(d & b & -> & Hb & Hk)|(d & e & a0 & b & -> & Hde & Ha & Hb & Hk)].
      * exists 0%nat, (S d), a, b. split; [f_equal; lia|].
        split; [lia|]. by repeat split.
      * exists (S d), (S e), a0, b. split; [f_equal; lia|].
        split; [lia|]. by repeat split.
    + intros (d & e & a0 & b & -> & Hde & Ha & Hb & Hk).
      destruct d as [|d].
      * cbn in Ha. injection Ha as <-. destruct e as [|e]; [lia|].
        left. exists e, b. split; [f_equal; lia|]. by split.
      * destruct e as [|e]; [lia|].
        right. exists d, e, a0, b. split; [f_equal; lia|].
        split; [lia|]. by repeat split.
Qed.

Lemma find_duplicates_of_default (a : dict) (i j : nat) (rest : list dict)
    (n n' : nat) (found : list (nat * nat * float)) :
  find_duplicates_of clock fromisoformat a i j rest 0.8 n = (Ok found, n') →
  map fst found = matching_of a i j rest.
Proof.
  revert j n n' found. induction rest as [|b rest IH]; intros j n n' found H.
  - by injection H as <- <-.
  - cbn [find_duplicates_of] in H.
    clk_bind H s m E. clk_bind H more m2 E2.
    apply IH in E2.
    destruct (similarity_threshold_fields _ _ _ _ _ E) as [T _].
    unfold mret, Clk_ret in H. cbn [matching_of]. rewrite <- T.
    destruct (0.8 <=? s)%float; injection H as <- <-; cbn [map fst];
      by rewrite E2.
Qed.

Lemma find_duplicates_from_default (alerts : list dict) (i n n' : nat)
    (found : list (nat * nat * float)) :
  find_duplicates_from clock fromisoformat i alerts 0.8 n = (Ok found, n') →
  map fst found = matching_from i alerts.
Proof.
  revert i n n' found. induction alerts as [|a rest IH]; intros i n n' found H.
  - by injection H as <- <-.
  - cbn [find_duplicates_from] in H.
    clk_bind H here m1 E1. clk_bind H later m2 E2.
    injection H as <- <-.
    apply find_duplicates_of_default in E1. apply IH in E2.
    cbn [matching_from]. by rewrite map_app, E1, E2.
Qed.

(** X20. With its default threshold 0.8, [find_duplicates] reports exactly
    the pairs of positions [i < j] whose alerts agree on the product, the
    category and the severity, in the order of the two loops: when and how
    far apart the alerts were created makes no difference. *)
Theorem find_duplicates_default (alerts : list dict) (n : nat) :
  match find_duplicates clock fromisoformat alerts 0.8 n with
  | (Ok found, _) =>
      map fst found = matching_from 0 alerts ∧
      ∀ i j a b, (i < j)%nat → alerts !! i = Some a → alerts !! j = Some b →
                 ((i, j) ∈ map fst found ↔ same_key_fields a b = true)
  | (Raise _, _) => True
  end.
Proof.
  unfold find_duplicates.
  destruct (find_duplicates_from clock fromisoformat 0 alerts 0.8 n)
    as [[found|e] n'] eqn:H; [|exact I].
  apply find_duplicates_from_default in H. split; [exact H|].
  intros i j a b Hij Ha Hb. rewrite H, elem_of_matching_from. split.
  - intros (d & e & a' & b' & [= -> ->] & _ & Ha' & Hb' & Hk).
    cbn in Ha', Hb'. congruence.
  - intros Hk. exists i, j, a, b. by repeat split.
Qed.

Lemma find_duplicates_of_extreme (a : dict) (i j : nat) (rest : list dict)
    (t : float) (n n' : nat) (found : list (nat * nat * float)) :
  find_duplicates_of clock fromisoformat a i j rest t n = (Ok found, n') →
  (fle 1 t → found = []) ∧
  (fle t 0 → map fst found = pairs_of i j (length rest)).
Proof.
  revert j n n' found. induction rest as [|b rest IH]; intros j n n' found H.
  - injection H as <- <-. by split.
  - cbn [find_duplicates_of] in H.
    clk_bind H s m E. clk_bind H more m2 E2.
    apply IH in E2 as [N A].
    destruct (similarity_threshold_fields _ _ _ _ _ E) as (_ & S0 & S1).
    unfold mret, Clk_ret in H. split; intros Ht.
    + assert (F : (t <=? s)%float = false)
        by (apply lt_not_fle; exact (lt_fle_trans _ _ _ S1 Ht)).
      rewrite F in H. injection H as <- <-. by apply N.
    + assert (T : (t <=? s)%float = true) by exact (fle_trans _ _ _ Ht S0).
      rewrite T in H. injection H as <- <-.
      cbn [map fst length]. rewrite pairs_of_cons. f_equal. by apply A.
Qed.

Lemma find_duplicates_from_extreme (alerts : list dict) (i : nat) (t : float)
    (n n' : nat) (found : list (nat * nat * float)) :
  find_duplicates_from clock fromisoformat i alerts t n = (Ok found, n') →
  (fle 1 t → found = []) ∧
  (fle t 0 → map fst found = pairs_from i (length alerts)).
Proof.
  revert i n n' found. induction alerts as [|a rest IH]; intros i n n' found H.
  - injection H as <- <-. by split.
  - cbn [find_duplicates_from] in H.
    clk_bind H here m1 E1. clk_bind H later m2 E2.
    injection H as <- <-.
    apply find_duplicates_of_extreme in E1 as [N1 A1].
    apply IH in E2 as [N2 A2]. split; intros Ht.
    + by rewrite (N1 Ht), (N2 Ht).
    + cbn [length pairs_from]. by rewrite map_app, (A1 Ht), (A2 Ht).
Qed.

(** X21. Because no similarity reaches 1, a threshold of 1.0 or more makes
    [find_duplicates] report nothing, not even two identical alerts; and
    because no similarity is negative, a threshold of 0 or less makes it
    report every pair of positions. *)
Theorem find_duplicates_extreme_thresholds (alerts : list dict) (t : float)
    (n : nat) :
  match find_duplicates clock fromisoformat alerts t n with
  | (Ok found, _) =>
      (fle 1 t → found = []) ∧
      (fle t 0 → map fst found = all_pairs (length alerts))
  | (Raise _, _) => True
  end.
Proof.
  unfold find_duplicates.
  destruct (find_duplicates_from clock fromisoformat 0 alerts t n)
    as [[found|e] n'] eqn:H; [|exact I].
  exact (find_duplicates_from_extreme _ _ _ _ _ _ H).
Qed.
End Similarity.

(** * The decay of a score with the age of the alert *)

(** The weight of every severity lies between 0.25 and 1. *)
Lemma severity_score_range (severity : pyval) (w : float) :
  severity_score_of severity = Ok w → fle 0.25 w ∧ fle w 1.
Proof.
  unfold severity_score_of. intros H.
  apply result_bind_ok in H as [s [_ H]]. injection H as <-.
  destruct (severity_weights !! s) as [x|] eqn:E; cbn [default from_option id];
    [|split; reflexivity].
  unfold severity_weights in E. apply elem_of_list_to_map_2 in E.
  repeat (apply elem_of_cons in E as [E|E]; [injection E as _ ->; by split|]).
  by apply elem_of_nil in E.
Qed.

(** The time sensitivity as the scorer takes it: never below 0.5, and, for
    an alert that is [us] microseconds old, 0.5 from 84 hours on and above 1
    for a negative age. *)
Lemma time_sensitivity_floor (x : float) : fle 0.5 (py_max 0.5 x).
Proof.
  unfold py_max. destruct (0.5 <? x)%float eqn:E; [|reflexivity].
  now apply lt_fle.
Qed.

Lemma time_sensitivity_stale (us : Z) :
  84 * hour_us <= us →
  py_max 0.5 (1.0 - total_seconds us / 3600 / 168) = 0.5%float.
Proof.
  intros H. unfold py_max.
  assert (A : fle 84 (total_seconds us / 3600)).
  { apply fle_trans with (total_seconds (84 * hour_us) / 3600)%float;
      [vm_compute; reflexivity|now apply remaining_hours_mono]. }
  assert (B : fle 0.5 (total_seconds us / 3600 / 168)).
  { apply fle_trans with (84 / 168)%float; [vm_compute; reflexivity|].
    apply fle_div; [reflexivity|reflexivity|exact A]. }
  assert (C : fle (1.0 - total_seconds us / 3600 / 168) 0.5).
  { apply fle_trans with (1.0 - 0.5)%float; [|vm_compute; reflexivity].
    apply fle_sub_l; [reflexivity|exact B]. }
  by rewrite (fle_not_lt _ _ C).
Qed.

Lemma time_sensitivity_future (us : Z) :
  us < 0 →
  (1 <? py_max 0.5 (1.0 - total_seconds us / 3600 / 168))%float = true.
Proof.
  intros H. unfold py_max.
  assert (A : fle (total_seconds us / 3600) (total_seconds (-1) / 3600))
    by (apply remaining_hours_mono; lia).
  assert (B : fle (total_seconds us / 3600 / 168)
                (total_seconds (-1) / 3600 / 168))
    by (apply fle_div; [reflexivity|reflexivity|exact A]).
  assert (C : fle (1.0 - total_seconds (-1) / 3600 / 168)
                (1.0 - total_seconds us / 3600 / 168))
    by (apply fle_sub_l; [reflexivity|exact B]).
  assert (D : (1 <? 1.0 - total_seconds us / 3600 / 168)%float = true).
  { apply lt_fle_trans with (1.0 - total_seconds (-1) / 3600 / 168)%float;
      [vm_compute; reflexivity|exact C]. }
  assert (E : (0.5 <? 1.0 - total_seconds us / 3600 / 168)%float = true).
  { apply lt_fle_trans with (1.0 - total_seconds (-1) / 3600 / 168)%float;
      [vm_compute; reflexivity|exact C]. }
  by rewrite E.
Qed.

Lemma in_unit_range_float (v : pyval) :
  in_unit_range v = true → ∃ f, to_float v = Ok f ∧ fle 0 f ∧ fle f 1.
Proof.
  unfold in_unit_range. destruct (to_float v) as [f|e]; [|discriminate].
  intros H. apply andb_true_iff in H as [H0 H1]. by exists f.
Qed.

(** The composite score of inputs in their ranges, at the time sensitivity
    0.5, is below the threshold of p2. *)
Lemma composite_formula_halved (w : float) (likelihood impact confidence : pyval)
    (x : float) :
  fle 0.25 w → fle w 1 →
  in_unit_range likelihood = true → in_unit_range impact = true →
  in_unit_range confidence = true →
  composite_formula w likelihood impact confidence 0.5 = Ok x →
  (x <? 0.6)%float = true.
Proof.
  intros W0 W1 Hl Hi Hc.
  apply in_unit_range_float in Hl as (l & El & L0 & L1).
  apply in_unit_range_float in Hi as (i & Ei & I0 & I1).
  apply in_unit_range_float in Hc as (c & Ec & C0 & C1).
  unfold composite_formula, py_mul_f. rewrite El, Ei, Ec.
  cbn [mbind result_bind]. intros [= <-].
  destruct (range_mul_r 0.3 _ _ _ eq_refl eq_refl W0 W1) as [A0 A1].
  destruct (range_mul_r 0.25 _ _ _ eq_refl eq_refl L0 L1) as [B0 B1].
  destruct (range_mul_r 0.25 _ _ _ eq_refl eq_refl I0 I1) as [D0 D1].
  destruct (range_mul_r 0.2 _ _ _ eq_refl eq_refl C0 C1) as [E0 E1].
  pose proof (fun F1 F2 F3 F4 =>
                range_add _ _ _ _ _ _ F1 F2 F3 F4 A0 A1 B0 B1) as S.
  destruct (S eq_refl eq_refl eq_refl eq_refl) as [S0 S1]. clear S.
  pose proof (fun F1 F2 F3 F4 =>
                range_add _ _ _ _ _ _ F1 F2 F3 F4 S0 S1 D0 D1) as T.
  destruct (T eq_refl eq_refl eq_refl eq_refl) as [T0 T1]. clear T.
  pose proof (fun F1 F2 F3 F4 =>
                range_add _ _ _ _ _ _ F1 F2 F3 F4 T0 T1 E0 E1) as U.
  destruct (U eq_refl eq_refl eq_refl eq_refl) as [U0 U1]. clear U.
  eapply fle_lt_trans;
    [apply fle_mul_r; [reflexivity|reflexivity|exact U1]|].
  vm_compute. reflexivity.
Qed.

Section Decay.
Variable clock : nat → Z.
Variable fromisoformat : string → option Z.
Variable exn_str : exn → string.

(** The scoring of an alert whose creation time can be read. *)
Lemma calculate_alert_score_dated (alert : dict) (v : pyval) (c : Z) (n : nat) :
  alert !! "created_at" = Some v →
  parse_if_str fromisoformat v = Ok (VDatetime c) →
  let age_hours := (total_seconds (clock (S n) - c) / 3600)%float in
  calculate_alert_score clock fromisoformat exn_str alert n
  = (match calculate_composite_risk
             (default (VStr "low") (alert !! "severity"))
             (default (VFloat 0.5) (alert !! "likelihood"))
             (default (VFloat 0.5) (alert !! "impact_score"))
             (default (VFloat 0.5) (alert !! "confidence"))
             (py_max 0.5 (1.0 - age_hours / 168)) with
     | Ok risk_result =>
         Ok (<["source" := default (VStr "unknown") (alert !! "source")]>
               (<["category" := default (VStr "unknown") (alert !! "category")]>
                  (<["age_hours" := VFloat age_hours]> risk_result)))
     | Raise e => Ok (scoring_error exn_str e)
     end, S (S n)).
Proof.
  intros Hc Hv. cbv zeta.
  unfold calculate_alert_score, try_except, score_attempt.
  rewrite Hc. cbn [default from_option id].
  rewrite Clk_bind_eq. unfold utcnow at 1.
  rewrite Clk_bind_eq. unfold lift at 1. rewrite Hv.
  rewrite Clk_bind_eq. unfold utcnow at 1.
  rewrite Clk_bind_eq. unfold lift at 1. cbn [sub_total_seconds].
  rewrite Clk_bind_eq. unfold lift at 1.
  by destruct (calculate_composite_risk _ _ _ _ _).
Qed.

(** X22. An alert that is 84 hours old or older (half of the 168 hours of
    the decay) is scored with the time sensitivity 0.5, and with a
    likelihood, an impact and a confidence between 0 and 1 its composite
    score stays below 0.6: whatever its severity, its priority is p3 or p4,
    never p1 or p2. *)
Theorem stale_alert_never_urgent (alert : dict) (v : pyval) (c : Z) (n : nat) :
  alert !! "created_at" = Some v →
  parse_if_str fromisoformat v = Ok (VDatetime c) →
  84 * hour_us <= clock (S n) - c →
  in_unit_range (default (VFloat 0.5) (alert !! "likelihood")) = true →
  in_unit_range (default (VFloat 0.5) (alert !! "impact_score")) = true →
  in_unit_range (default (VFloat 0.5) (alert !! "confidence")) = true →
  ∃ d,
    calculate_alert_score clock fromisoformat exn_str alert n
    = (Ok d, S (S n)) ∧
    (d !! "priority" = Some (VStr "p3") ∨ d !! "priority" = Some (VStr "p4")) ∧
    (d !! "error" = None →
     component d "time_sensitivity" = Some (VFloat 0.5)).
Proof.
  intros Hc Hv Hage Hl Hi Hf.
  rewrite (calculate_alert_score_dated alert v c n Hc Hv).
  rewrite (time_sensitivity_stale _ Hage).
  destruct (calculate_composite_risk _ _ _ _ _) as [r|e] eqn:Er.
  - eexists. split; [reflexivity|].
    pose proof Er as Ek.
    apply calculate_composite_risk_keys in Ek as (w & x & Hw & Hx & _ & Hp).
    destruct (severity_score_range _ _ Hw) as [W0 W1].
    pose proof (composite_formula_halved _ _ _ _ _ W0 W1 Hl Hi Hf Hx) as Lt.
    split.
    + repeat (rewrite lookup_insert_ne by done). rewrite Hp.
      unfold priority_tier.
      assert (N8 : (0.8 <=? x)%float = false).
      { apply lt_not_fle. eapply lt_fle_trans; [exact Lt|reflexivity]. }
      rewrite N8, (lt_not_fle _ _ Lt).
      destruct (0.4 <=? x)%float; [by left|by right].
    + intros _. unfold component.
      repeat (rewrite lookup_insert_ne by done).
      unfold calculate_composite_risk in Er.
      apply result_bind_ok in Er as [w' [_ Er]].
      apply result_bind_ok in Er as [x' [_ Er]].
      destruct (priority_tier x'). by injection Er as <-.
  - eexists. split; [reflexivity|]. split; [by left|]. intros H.
    discriminate H.
Qed.

(** X23. The time sensitivity with which an alert is scored, reported
    among the components of a score that is no error record: it is never
    below 0.5; it is 0.5 from an age of 84 hours on; it is 1 for an alert
    created at the reading of the clock; and for an alert dated after the
    reading it is above 1: the factor, documented as between 0 and 1, is
    not capped, and raises the score of an alert dated in the future. *)
Theorem time_sensitivity_of_age (alert : dict) (v : pyval) (c : Z) (n : nat) :
  alert !! "created_at" = Some v →
  parse_if_str fromisoformat v = Ok (VDatetime c) →
  match calculate_alert_score clock fromisoformat exn_str alert n with
  | (Ok d, _) =>
      d !! "error" = None →
      ∃ ts,
        component d "time_sensitivity" = Some (VFloat ts) ∧
        fle 0.5 ts ∧
        (84 * hour_us <= clock (S n) - c → ts = 0.5%float) ∧
        (clock (S n) = c → ts = 1%float) ∧
        (clock (S n) < c → (1 <? ts)%float = true)
  | (Raise _, _) => True
  end.
Proof.
  intros Hc Hv.
  rewrite (calculate_alert_score_dated alert v c n Hc Hv).
  set (ts := py_max 0.5 _).
  destruct (calculate_composite_risk _ _ _ _ ts) as [r|e] eqn:Er;
    [|intros H; discriminate H].
  intros _. exists ts. split; [|split; [|split; [|split]]].
  - unfold component. repeat (rewrite lookup_insert_ne by done).
    unfold calculate_composite_risk in Er.
    apply result_bind_ok in Er as [w' [_ Er]].
    apply result_bind_ok in Er as [x' [_ Er]].
    destruct (priority_tier x'). by injection Er as <-.
  - apply time_sensitivity_floor.
  - intros H. by apply time_sensitivity_stale.
  - intros H. unfold ts. rewrite H, Z.sub_diag. vm_compute. reflexivity.
  - intros H. apply time_sensitivity_future. lia.
Qed.
End Decay.

(** A critical alert created 84 hours before the reading. *)
Lemma stale_alert_never_urgent_witness :
  ∃ d,
    calculate_alert_score (frozen sample_now) sample_fromisoformat
      sample_exn_str
      (<["severity" := VStr "critical"]>
         (<["created_at" := VDatetime (sample_now - 84 * hour_us)]>
            sample_alert)) 0%nat
    = (Ok d, 2%nat) ∧
    (d !! "priority" = Some (VStr "p3") ∨ d !! "priority" = Some (VStr "p4")) ∧
    (d !! "error" = None →
     component d "time_sensitivity" = Some (VFloat 0.5)).
Proof.
  apply (stale_alert_never_urgent (frozen sample_now) sample_fromisoformat
           sample_exn_str _ (VDatetime (sample_now - 84 * hour_us))
           (sample_now - 84 * hour_us) 0%nat);
    first [reflexivity | unfold frozen; lia].
Defined.

(** An alert created at the reading of the clock: the factor is 1. *)
Lemma time_sensitivity_of_age_witness :
  match calculate_alert_score (frozen sample_now) sample_fromisoformat
          sample_exn_str sample_alert 0%nat with
  | (Ok d, _) =>
      d !! "error" = None →
      ∃ ts,
        component d "time_sensitivity" = Some (VFloat ts) ∧
        fle 0.5 ts ∧
        (84 * hour_us <= frozen sample_now 1%nat - sample_now →
         ts = 0.5%float) ∧
        (frozen sample_now 1%nat = sample_now → ts = 1%float) ∧
        (frozen sample_now 1%nat < sample_now → (1 <? ts)%float = true)
  | (Raise _, _) => True
  end ∧
  match calculate_alert_score (frozen sample_now) sample_fromisoformat
          sample_exn_str sample_alert 0%nat with
  | (Ok d, _) => component d "time_sensitivity"
  | (Raise _, _) => None
  end = Some (VFloat 1).
Proof.
  split; [|vm_compute; reflexivity].
  exact (time_sensitivity_of_age (frozen sample_now) sample_fromisoformat
           sample_exn_str sample_alert (VDatetime sample_now) sample_now
           0%nat eq_refl eq_refl).
Defined.

(** * The supplier risk *)

(** A number that compares equal to a finite number other than zero is that
    number. *)
Lemma fle_antisym (a b : float) :
  (0 <? a)%float = true → (a <? infinity)%float = true →
  fle a b → (a <? b)%float = false → b = a.
Proof.
  intros H0 Hi Hab Hlt.
  destruct (pos_finite_float a H0 Hi) as (m & e & Ea).
  unfold fle in Hab. rewrite leb_spec in Hab. rewrite ltb_spec in Hlt.
  rewrite Ea in Hab, Hlt.
  assert (Eb : Prim2SF b = S754_finite false m e).
  { revert Hab Hlt. unfold SFleb, SFltb.
    destruct (Prim2SF b) as [s|s| |s m' e']; cbn [SFcompare];
      try discriminate; try (destruct s; discriminate).
    destruct s; [discriminate|]. rewrite compare_cont_Eq.
    destruct (Z.compare_spec e e') as [->|?|?]; try discriminate.
    destruct (Z.compare_spec (Zpos m) (Zpos m')) as [E|?|?]; try discriminate.
    by injection E as ->. }
  rewrite <- (SF2Prim_Prim2SF b), <- (SF2Prim_Prim2SF a). by rewrite Ea, Eb.
Qed.

(** [min(x, 1.0)] for a number that is not below 1. *)
Lemma py_min_capped (x : float) : fle 1 x → py_min x 1.0 = 1.0%float.
Proof.
  intros H. unfold py_min. destruct (1.0 <? x)%float eqn:E; [reflexivity|].
  apply (fle_antisym 1 x); [reflexivity|reflexivity|exact H|exact E].
Qed.

Lemma py_min_range (x : float) : fle 0 x → fle 0 (py_min x 1.0) ∧ fle (py_min x 1.0) 1.
Proof.
  intros H. unfold py_min. destruct (1.0 <? x)%float eqn:E.
  - split; reflexivity.
  - split; [exact H|]. apply not_lt_fle; [|discriminate|exact E].
    apply (fle_not_nan 0 x H).
Qed.

(** X24. A lead time of 30 days or more counts as 30 days: the supplier
    risk of a longer lead time is the same record, whatever the other
    inputs are. *)
Theorem calculate_supplier_risk_lead_time_cap
    (on_time_rate quality_rating lead_time_days financial_health
       geopolitical_risk : pyval) (days : float) :
  to_float lead_time_days = Ok days → fle 30 days →
  calculate_supplier_risk on_time_rate quality_rating lead_time_days
    financial_health geopolitical_risk
  = calculate_supplier_risk on_time_rate quality_rating (VFloat 30)
      financial_health geopolitical_risk.
Proof.
  intros Hd H30. unfold calculate_supplier_risk, py_div_f.
  rewrite Hd. cbn [to_float mbind result_bind].
  change (30.0 =? 0)%float with false. cbv iota.
  assert (E : py_min (days / 30.0) 1.0 = py_min (30 / 30.0) 1.0).
  { rewrite py_min_capped; [reflexivity|].
    apply fle_trans with (30 / 30.0)%float; [reflexivity|].
    apply fle_div; [reflexivity|reflexivity|exact H30]. }
  destruct (str_lower financial_health) as [health|e]; [|reflexivity].
  cbn [mbind result_bind].
  destruct (py_rsub_f 1.0 on_time_rate) as [dr|e]; [|reflexivity].
  cbn [mbind result_bind].
  destruct (py_rsub_f 1.0 quality_rating) as [qr|e]; [|reflexivity].
  cbn [mbind result_bind]. by rewrite E.
Qed.

Lemma financial_score_range (health : string) :
  fle 0 (default 0.5%float (financial_scores !! health)) ∧
  fle (default 0.5%float (financial_scores !! health)) 0.9.
Proof.
  destruct (financial_scores !! health) as [x|] eqn:E;
    cbn [default from_option id]; [|split; reflexivity].
  unfold financial_scores in E. apply elem_of_list_to_map_2 in E.
  repeat (apply elem_of_cons in E as [E|E]; [injection E as _ ->; by split|]).
  by apply elem_of_nil in E.
Qed.

Lemma risk_level_of_mono (s1 s2 : float) :
  fle s2 s1 →
  risk_level_rank (risk_level_of s2) <= risk_level_rank (risk_level_of s1).
Proof.
  intros H. unfold risk_level_of.
  assert (K : ∀ c, (c <=? s2)%float = true → (c <=? s1)%float = true)
    by (intros c Hc; exact (fle_trans c s2 s1 Hc H)).
  destruct (0.7 <=? s2)%float eqn:E7; [by rewrite (K _ E7)|].
  destruct (0.5 <=? s2)%float eqn:E5;
    [rewrite (K _ E5); by destruct (0.7 <=? s1)%float|].
  destruct (0.3 <=? s2)%float eqn:E3;
    [rewrite (K _ E3);
     by destruct (0.7 <=? s1)%float, (0.5 <=? s1)%float|].
  by destruct (0.7 <=? s1)%float, (0.5 <=? s1)%float, (0.3 <=? s1)%float.
Qed.

Lemma unit_complement (x : float) :
  fle 0 x → fle x 1 → fle 0 (1.0 - x) ∧ fle (1.0 - x) 1.
Proof.
  intros H0 H1. split.
  - apply fle_trans with (1.0 - 1)%float; [reflexivity|].
    apply fle_sub_l; [reflexivity|exact H1].
  - apply fle_trans with (1.0 - 0)%float; [|reflexivity].
    apply fle_sub_l; [reflexivity|exact H0].
Qed.

(** X25. With rates between 0 and 1 and a lead time that is not negative,
    the supplier risk is computed, and a supplier that is on time at least
    as often and rated at least as well is never given a higher risk
    level. *)
Theorem calculate_supplier_risk_level_monotone
    (o1 o2 q1 q2 days g : float) (health : string) :
  fle 0 o1 → fle o1 o2 → fle o2 1 →
  fle 0 q1 → fle q1 q2 → fle q2 1 →
  fle 0 days → fle 0 g → fle g 1 →
  ∃ l1 l2,
    risk_level_in (calculate_supplier_risk (VFloat o1) (VFloat q1)
                     (VFloat days) (VStr health) (VFloat g)) = Some l1 ∧
    risk_level_in (calculate_supplier_risk (VFloat o2) (VFloat q2)
                     (VFloat days) (VStr health) (VFloat g)) = Some l2 ∧
    risk_level_rank l2 <= risk_level_rank l1.
Proof.
  intros O0 O12 O1 Q0 Q12 Q1 D0 G0 G1.
  unfold calculate_supplier_risk, str_lower, py_rsub_f, py_div_f,
    supplier_formula, py_mul_f.
  cbn [to_float mbind result_bind].
  change (30.0 =? 0)%float with false. cbv iota.
  cbn [mbind result_bind risk_level_in list_to_map foldr uncurry fst snd].
  repeat (rewrite lookup_insert_ne by done). rewrite !lookup_insert_eq.
  eexists _, _. split; [reflexivity|]. split; [reflexivity|].
  apply risk_level_of_mono.
  destruct (financial_score_range (lower health)) as [F0 F1].
  set (fs := default 0.5%float (financial_scores !! lower health)) in *.
  assert (L0 : fle 0 (days / 30.0)).
  { apply fle_trans with (0 / 30.0)%float; [reflexivity|].
    apply fle_div; [reflexivity|reflexivity|exact D0]. }
  destruct (py_min_range _ L0) as [M0 M1].
  set (ltr := py_min (days / 30.0) 1.0) in *.
  destruct (unit_complement o1 O0 (fle_trans _ _ _ O12 O1)) as [A0 A1].
  destruct (unit_complement q2 (fle_trans _ _ _ Q0 Q12) Q1) as [B0 B1].
  assert (Fa : is_finite_float ((1.0 - o1) * 0.25) = true).
  { apply (fle_finite (0 * 0.25) (1 * 0.25)); [reflexivity|reflexivity| |];
      apply fle_mul_r; try reflexivity; assumption. }
  assert (Fb : is_finite_float ((1.0 - q2) * 0.25) = true).
  { apply (fle_finite (0 * 0.25) (1 * 0.25)); [reflexivity|reflexivity| |];
      apply fle_mul_r; try reflexivity; assumption. }
  assert (Fc : is_finite_float (ltr * 0.15) = true).
  { apply (fle_finite (0 * 0.15) (1 * 0.15)); [reflexivity|reflexivity| |];
      apply fle_mul_r; try reflexivity; assumption. }
  assert (Fd : is_finite_float (fs * 0.20) = true).
  { apply (fle_finite (0 * 0.20) (0.9 * 0.20)); [reflexivity|reflexivity| |];
      apply fle_mul_r; try reflexivity; assumption. }
  assert (Fe : is_finite_float (g * 0.15) = true).
  { apply (fle_finite (0 * 0.15) (1 * 0.15)); [reflexivity|reflexivity| |];
      apply fle_mul_r; try reflexivity; assumption. }
  apply fle_add_r; [exact Fe|]. apply fle_add_r; [exact Fd|].
  apply fle_add_r; [exact Fc|].
  apply fle_add; [exact Fa|exact Fb| |].
  - apply fle_mul_r; [reflexivity|reflexivity|].
    apply fle_sub_l; [reflexivity|exact O12].
  - apply fle_mul_r; [reflexivity|reflexivity|].
    apply fle_sub_l; [reflexivity|exact Q12].
Qed.

(** 45 days against 30. *)
Lemma calculate_supplier_risk_lead_time_cap_witness :
  calculate_supplier_risk (VFloat 0.9) (VFloat 0.8) (VInt 45) (VStr "good")
    (VFloat 0.1)
  = calculate_supplier_risk (VFloat 0.9) (VFloat 0.8) (VFloat 30)
      (VStr "good") (VFloat 0.1).
Proof.
  apply (calculate_supplier_risk_lead_time_cap _ _ (VInt 45) _ _ 45);
    reflexivity.
Defined.

Lemma calculate_supplier_risk_level_monotone_witness :
  ∃ l1 l2,
    risk_level_in (calculate_supplier_risk (VFloat 0.5) (VFloat 0.6)
                     (VFloat 14) (VStr "fair") (VFloat 0.1)) = Some l1 ∧
    risk_level_in (calculate_supplier_risk (VFloat 0.9) (VFloat 0.8)
                     (VFloat 14) (VStr "fair") (VFloat 0.1)) = Some l2 ∧
    risk_level_rank l2 <= risk_level_rank l1.
Proof.
  apply (calculate_supplier_risk_level_monotone 0.5 0.9 0.6 0.8 14 0.1 "fair");
    reflexivity.
Defined.

(** * The stock health in exact counts *)

(** The two comparisons of the stock ratio, for a stock and a reorder
    point that are counts. *)
Lemma stock_ratio_thresholds (stock reorder : Z) :
  0 < stock < 2 ^ 53 → 0 < reorder < 2 ^ 45 →
  ∃ s r : float,
    int_to_float stock = Ok s ∧ int_to_float reorder = Ok r ∧
    (r + 0.01 =? 0)%float = false ∧
    (s / (r + 0.01) <? 0.5)%float = (2 * stock <=? reorder) ∧
    (s / (r + 0.01) <? 1.0)%float = (stock <=? reorder).
Proof.
  intros Hs Hr.
  destruct (int_to_float_exact stock Hs) as (s & ms & es & Es & Ps & Vs).
  assert (Hr' : 0 < reorder < 2 ^ 53)
    by (change (2 ^ 45) with 35184372088832 in Hr;
        change (2 ^ 53) with 9007199254740992; lia).
  destruct (int_to_float_exact reorder Hr') as (r & mr & er & Er & Pr & Vr).
  exists s, r. split; [exact Es|]. split; [exact Er|].
  assert (P : 0 < 2 ^ 1015) by (apply Z.pow_pos_nonneg; lia).
  assert (E67 : 2 ^ 1067 = 4503599627370496 * 2 ^ 1015)
    by (change 1067 with (52 + 1015); now rewrite Z.pow_add_r by lia).
  assert (E68 : 2 ^ 1068 = 9007199254740992 * 2 ^ 1015)
    by (change 1068 with (53 + 1015); now rewrite Z.pow_add_r by lia).
  assert (E74 : 2 ^ 1074 = 576460752303423488 * 2 ^ 1015)
    by (change 1074 with (59 + 1015); now rewrite Z.pow_add_r by lia).
  assert (Ec : Prim2SF 0.01 = S754_finite false 5764607523034235 (-59))
    by reflexivity.
  assert (Vc : sval (Prim2SF 0.01) = 5764607523034235 * 2 ^ 1015)
    by (rewrite Ec; reflexivity).
  change (2 ^ 45) with 35184372088832 in Hr.
  change (2 ^ 53) with 9007199254740992 in Hs.
  destruct (fadd_between r 0.01 false false mr 5764607523034235 er (-59)
              (reorder * 128 + 1) 1067 (reorder * 64 + 1) 1068 Pr Ec)
    as (md & ed & Pd & Lo & Hi).
  { change (2 ^ 53) with 9007199254740992. lia. }
  { lia. }
  { assert (Zdigits2 (reorder * 128 + 1) <= 53); [|lia].
    apply Zdigits2_le; [lia| |lia].
    change (2 ^ 53) with 9007199254740992. lia. }
  { change (2 ^ 53) with 9007199254740992. lia. }
  { lia. }
  { assert (Zdigits2 (reorder * 64 + 1) <= 53); [|lia].
    apply Zdigits2_le; [lia| |lia].
    change (2 ^ 53) with 9007199254740992. lia. }
  { rewrite Vr, Vc, E67, E68, E74. nia. }
  rewrite E67 in Lo. rewrite E68 in Hi. rewrite E74 in Vs.
  revert Vs Lo Hi. generalize (2 ^ 1015) P. intros Q HQ Vs Lo Hi.
  split; [|split].
  - rewrite FloatAxioms.eqb_spec, Pd. reflexivity.
  - destruct (Z.leb_spec (2 * stock) reorder) as [H|H].
    + apply fle_lt_trans with 0.49999999999999994%float; [|reflexivity].
      apply (fdiv_le_const s (r + 0.01) 0.49999999999999994 ms md
               9007199254740991 es ed (-54)
               Ps Pd eq_refl); [lia|].
      rewrite Vs. change (2 ^ (- -54)) with 18014398509481984. nia.
    + apply fle_not_lt.
      apply (fdiv_ge_const s (r + 0.01) 0.5 ms md 4503599627370496 es ed (-53)
               Ps Pd eq_refl); [lia|].
      rewrite Vs. change (2 ^ (- -53)) with 9007199254740992. nia.
  - destruct (Z.leb_spec stock reorder) as [H|H].
    + apply fle_lt_trans with 0.99999999999999989%float; [|reflexivity].
      apply (fdiv_le_const s (r + 0.01) 0.99999999999999989 ms md
               9007199254740991 es ed (-53)
               Ps Pd eq_refl); [lia|].
      rewrite Vs. change (2 ^ (- -53)) with 9007199254740992. nia.
    + apply fle_not_lt.
      apply (fdiv_ge_const s (r + 0.01) 1 ms md 4503599627370496 es ed (-52)
               Ps Pd eq_refl); [lia|].
      rewrite Vs. change (2 ^ (- -52)) with 4503599627370496. nia.
Qed.

(** X26. For a product whose stock and reorder point are positive counts
    (a stock below 2^53, a reorder point below 2^45), the product context is
    added and the stock health is decided by the counts themselves:
    "critical" exactly when twice the stock is at most the reorder point,
    "warning" exactly when the stock is above half of the reorder point and
    at most the reorder point, "healthy" exactly when it is above. A stock
    equal to the reorder point is "warning", because of the 0.01 added to
    the denominator; the rounding of the float division moves no count
    across a boundary. *)
Theorem enrich_with_product_context_stock_health (alert product : dict)
    (stock reorder : Z) :
  product !! "current_stock" = Some (VInt stock) →
  product !! "reorder_point" = Some (VInt reorder) →
  0 < stock < 2 ^ 53 → 0 < reorder < 2 ^ 45 →
  ∃ enriched,
    enrich_with_product_context alert product = Ok enriched ∧
    enriched !! "stock_health"
    = Some (VStr (if 2 * stock <=? reorder then "critical"
                  else if stock <=? reorder then "warning"
                  else "healthy")).
Proof.
  intros Hs Hr Bs Br.
  destruct (stock_ratio_thresholds stock reorder Bs Br)
    as (s & r & Es & Er & Nz & T5 & T1).
  unfold enrich_with_product_context, dict_get, getitem, py_add_f, py_div_f.
  rewrite Hs, Hr. cbn [default from_option id truthy to_float].
  replace (negb (stock =? 0)) with true
    by (symmetry; apply negb_true_iff, Z.eqb_neq; lia).
  replace (negb (reorder =? 0)) with true
    by (symmetry; apply negb_true_iff, Z.eqb_neq; lia).
  cbn [andb mbind result_bind].
  change (to_float (VInt reorder)) with (int_to_float reorder).
  change (to_float (VInt stock)) with (int_to_float stock).
  rewrite Er. cbn [mbind result_bind].
  rewrite Es. cbn [mbind result_bind]. rewrite Nz.
  cbn [mbind result_bind]. rewrite T5, T1.
  eexists. split; [reflexivity|]. by rewrite lookup_insert_eq.
Qed.

(** A stock of 20 with a reorder point of 20. *)
Lemma enrich_with_product_context_stock_health_witness :
  ∃ enriched,
    enrich_with_product_context sample_alert
      (sample_product (VInt 20) (VInt 20)) = Ok enriched ∧
    enriched !! "stock_health" = Some (VStr "warning").
Proof.
  apply (enrich_with_product_context_stock_health sample_alert
           (sample_product (VInt 20) (VInt 20)) 20 20);
    first [reflexivity | split; reflexivity].
Defined.
